(** * Shock Block: stage gate, input pipeline, charge and aim machines

    A shallow embedding of the TypeScript sources

      - [src/game/systems/Handover.ts]       (Session, Stage, Roadmap, Handover)
      - [HandoverFactory] / [HandoverManager]
      - [InputSystem]
      - [src/game/systems/ShotSystem.ts]
      - [src/game/systems/AimSystem.ts]
      - the scenes [MainMenu], [Game] and [HandoverExample]
      - [src/game/ui/DialogManager.ts]

    Conventions of the embedding.

      - Every class becomes a module holding its methods; the mutable fields
        of the instances live in one [World] record, because the systems
        share the singleton gate, the scene's event emitter and the console.
      - Methods that mutate, log, emit or may throw are actions of the monad
        [M] (state over [World] plus JavaScript exceptions); read-only
        methods are plain functions of the state they read.
      - [Date.now()] reads the [clock] field of the world.  The environment
        moves the clock between callbacks; inside one synchronous callback
        it does not move.
      - JavaScript numbers that hold times are integers ([Z], milliseconds);
        powers and angles are modelled by exact rationals ([Q]) instead of
        IEEE doubles, and compared with [==].
      - [null] and [undefined] of an object-typed value are both [None]. *)

From Stdlib Require Import ZArith QArith Qabs Qminmax Lqa Lia.
From stdpp Require Import base gmap strings list pretty.

Local Open Scope Z_scope.

(** ** Values *)

(** The open [Record<string, any>] maps only ever hold these shapes. *)
Inductive Any : Type :=
  | AnyNum (n : Z)
  | AnyStr (s : string)
  | AnyStrs (l : list string).

(** [arr[i]] for a JavaScript array and an integer index: [undefined]
    outside the array. *)
Definition js_index {A : Type} (l : list A) (i : Z) : option A :=
  if i <? 0 then None else l !! Z.to_nat i.

(** [arr.findIndex(p)]: first position satisfying [p], or [-1]. *)
Fixpoint findIndex_from {A : Type} (p : A -> bool) (l : list A) (i : Z) : Z :=
  match l with
  | [] => -1
  | x :: l' => if p x then i else findIndex_from p l' (i + 1)
  end.

Definition findIndex {A : Type} (p : A -> bool) (l : list A) : Z :=
  findIndex_from p l 0.

(** [arr.length] as a JavaScript number. *)
Definition js_length {A : Type} (l : list A) : Z := Z.of_nat (length l).

(** ** Stage, Roadmap, Session (Handover.ts) *)

Module Stage.
Record t : Type := mk {
  name : string;
  allowedActions : list string;
  metadata : gmap string Any
}.

(** [this.allowedActions.includes(action)] *)
Definition isActionAllowed (s : t) (action : string) : bool :=
  bool_decide (action ∈ allowedActions s).

Definition getMetadata (s : t) (key : string) : option Any :=
  metadata s !! key.
End Stage.

Module Roadmap.
Record t : Type := mk {
  name : string;
  stages : list Stage.t;
  metadata : gmap string Any
}.

Definition addStage (r : t) (stage : Stage.t) : t :=
  mk (name r) (stages r ++ [stage]) (metadata r).
End Roadmap.

Module Session.
Record t : Type := mk {
  id : string;
  roadmap : Roadmap.t;
  currentStageIndex : Z;
  state : gmap string Any
}.

(** The constructor. *)
Definition new (id : string) (roadmap : Roadmap.t) : t :=
  mk id roadmap 0 ∅.

Definition with_index (s : t) (i : Z) : t :=
  mk (id s) (roadmap s) i (state s).

Definition getId (s : t) : string := id s.

Definition getCurrentStage (s : t) : option Stage.t :=
  if js_length (Roadmap.stages (roadmap s)) =? 0 then None
  else js_index (Roadmap.stages (roadmap s)) (currentStageIndex s).

(** Mutating methods return the result together with the object after
    the call. *)
Definition advanceStage (s : t) : bool * t :=
  if currentStageIndex s <? js_length (Roadmap.stages (roadmap s)) - 1
  then (true, with_index s (currentStageIndex s + 1))
  else (false, s).

(** [index] ranges over the integers.  The source compares any number, so
    it also accepts a fraction inside the range, which is then no position
    of [stages]; such a call is outside this embedding. *)
Definition setStage (s : t) (index : Z) : bool * t :=
  if (0 <=? index) && (index <? js_length (Roadmap.stages (roadmap s)))
  then (true, with_index s index)
  else (false, s).

Definition setStageByName (s : t) (name : string) : bool * t :=
  let index :=
    findIndex (fun stage => bool_decide (Stage.name stage = name))
              (Roadmap.stages (roadmap s)) in
  if negb (index =? -1) then (true, with_index s index) else (false, s).

(** [state] is a plain object in the source: the map holds its own
    entries.  The names every object inherits (['__proto__'],
    ['constructor'], ['toString'], ...) are not represented: the source
    reads them through the prototype chain where no own entry exists, and a
    write under ['__proto__'] stores no entry. *)
Definition getState (s : t) (key : string) : option Any := state s !! key.

Definition setState (s : t) (key : string) (value : Any) : t :=
  mk (id s) (roadmap s) (currentStageIndex s) (<[key := value]> (state s)).
End Session.

(** ** Instance state of the five classes *)

(** Handover (the singleton). *)
Record HandoverSt : Type := mkHandover {
  initialized : bool;
  defaultRoadmap : option Roadmap.t;
  sessions : gmap string Session.t;
  currentSessionId : option string
}.

(** HandoverManager.  [currentSession] caches the object returned by
    [startSession]; the cache is held as the registry key of that object. *)
Record ManagerSt : Type := mkManager {
  sessionId : string;
  currentSession : option string
}.

Inductive Direction : Type := left | right.

Definition direction_name (d : Direction) : string :=
  match d with left => "left" | right => "right" end.

(** InputSystem.  [inputBuffer] has exactly the two keys ['left'] and
    ['right'], both created by the constructor. *)
Record InputSt : Type := mkInput {
  lastInputTime : gmap string Z;
  isInputActive : gmap string bool;
  inputBuffer : Direction -> list Z;
  disabledKeys : gset string
}.

(** A JavaScript number-typed field that may hold [undefined]. *)
Inductive JsNumber : Type :=
  | Num (q : Q)
  | Undefined.

(** ShotSystem. *)
Record ShotSt : Type := mkShot {
  isCharging : bool;
  chargeStartTime : Z;
  currentCharge : JsNumber;
  inCooldown : bool;
  chargeVisible : bool
}.

(** AimSystem. *)
Record AimSt : Type := mkAim {
  currentAngle : Q;
  targetAngle : Q;
  isAiming : bool;
  inputDirection : option Direction;
  lastDirectionChange : Z;
  showTrajectory : bool
}.

(** ** The world: console, scene events, timers *)

Inductive LogLevel : Type := LogInfo | LogWarn | LogError.

Inductive LogEntry : Type :=
  | Log (level : LogLevel) (message : string)
  | LogShotFired (power : Q).

Inductive Payload : Type :=
  | NoData
  | PowerData (power : JsNumber)
  | AngleData (angle : Q)
  | StageChangeData (previous : option Stage.t) (current : Stage.t)
  | StageData (stage : Stage.t).

Record SceneEvent : Type := mkEvent {
  event_name : string;
  event_data : Payload
}.

(** Callbacks handed to [scene.time.delayedCall], kept as data. *)
Inductive Timer : Type :=
  | CooldownOver
  | DelayedAction (action : string).

Record World : Type := mkWorld {
  clock : Z;
  console : list LogEntry;
  events : list SceneEvent;
  timers : list (Z * Timer);
  handover : HandoverSt;
  manager : ManagerSt;
  input : InputSt;
  shot : ShotSt;
  aim : AimSt
}.

Definition set_console (f : list LogEntry -> list LogEntry) (w : World) : World :=
  mkWorld (clock w) (f (console w)) (events w) (timers w) (handover w)
          (manager w) (input w) (shot w) (aim w).

Definition set_events (f : list SceneEvent -> list SceneEvent) (w : World) : World :=
  mkWorld (clock w) (console w) (f (events w)) (timers w) (handover w)
          (manager w) (input w) (shot w) (aim w).

Definition set_timers (f : list (Z * Timer) -> list (Z * Timer)) (w : World) : World :=
  mkWorld (clock w) (console w) (events w) (f (timers w)) (handover w)
          (manager w) (input w) (shot w) (aim w).

Definition set_handover (f : HandoverSt -> HandoverSt) (w : World) : World :=
  mkWorld (clock w) (console w) (events w) (timers w) (f (handover w))
          (manager w) (input w) (shot w) (aim w).

Definition set_manager (f : ManagerSt -> ManagerSt) (w : World) : World :=
  mkWorld (clock w) (console w) (events w) (timers w) (handover w)
          (f (manager w)) (input w) (shot w) (aim w).

Definition set_input (f : InputSt -> InputSt) (w : World) : World :=
  mkWorld (clock w) (console w) (events w) (timers w) (handover w)
          (manager w) (f (input w)) (shot w) (aim w).

Definition set_shot (f : ShotSt -> ShotSt) (w : World) : World :=
  mkWorld (clock w) (console w) (events w) (timers w) (handover w)
          (manager w) (input w) (f (shot w)) (aim w).

Definition set_aim (f : AimSt -> AimSt) (w : World) : World :=
  mkWorld (clock w) (console w) (events w) (timers w) (handover w)
          (manager w) (input w) (shot w) (f (aim w)).

Definition set_clock (t : Z) (w : World) : World :=
  mkWorld t (console w) (events w) (timers w) (handover w)
          (manager w) (input w) (shot w) (aim w).

(** ** The monad of methods: world state and exceptions *)

Inductive Exn : Type :=
  | TypeError (message : string).

Inductive Outcome (A : Type) : Type :=
  | Normal (a : A)
  | Thrown (e : Exn).
Arguments Normal {A} a.
Arguments Thrown {A} e.

Definition M (A : Type) : Type := World -> Outcome A * World.

Definition ret {A : Type} (a : A) : M A := fun w => (Normal a, w).

Definition bind {A B : Type} (m : M A) (k : A -> M B) : M B :=
  fun w =>
    match m w with
    | (Normal a, w') => k a w'
    | (Thrown e, w') => (Thrown e, w')
    end.

Definition throw {A : Type} (e : Exn) : M A := fun w => (Thrown e, w).

Definition gets {A : Type} (f : World -> A) : M A := fun w => (Normal (f w), w).

Definition modify (f : World -> World) : M unit := fun w => (Normal tt, f w).

Declare Scope js_scope.
Delimit Scope js_scope with js.
Notation "'let*' x ':=' m 'in' k" := (bind m (fun x => k))
  (at level 10, x name, m at level 100, k at level 200) : js_scope.
Notation "m '>>' k" := (bind m (fun _ => k))
  (at level 62, right associativity) : js_scope.
Local Open Scope js_scope.

(** [Date.now()] *)
Definition Date_now : M Z := gets clock.

Definition console_log (l : LogLevel) (msg : string) : M unit :=
  modify (set_console (fun c => c ++ [Log l msg])).

(** Runs the listeners of an event one after the other; an exception thrown
    by one of them leaves the remaining ones unrun. *)
Fixpoint run_listeners (ls : list (M unit)) : M unit :=
  match ls with
  | [] => ret tt
  | l :: ls' => l >> run_listeners ls'
  end.

(** [scene.events.emit(name, data)]: synchronous, listeners in registration
    order.  The emitted events are also recorded in [events]. *)
Definition emit (name : string) (data : Payload) (listeners : list (M unit)) : M unit :=
  modify (set_events (fun es => es ++ [mkEvent name data])) >>
  run_listeners listeners.

(** [scene.time.delayedCall(delay, cb)] *)
Definition delayedCall (delay : Z) (cb : Timer) : M unit :=
  let* now := Date_now in
  modify (set_timers (fun ts => ts ++ [(now + delay, cb)])).

(** ** Handover: the singleton gate (Handover.ts) *)

Module Handover.
(** State of a freshly constructed instance. *)
Definition new : HandoverSt := mkHandover false None ∅ None.

Definition initialize (roadmap : Roadmap.t) : M unit :=
  modify (set_handover (fun h =>
    mkHandover true (Some roadmap) (sessions h) (currentSessionId h))).

Definition isInitialized (h : HandoverSt) : bool := initialized h.

(** [roadmap || this.defaultRoadmap] *)
Definition roadmap_or_default (roadmap : option Roadmap.t) (h : HandoverSt)
  : option Roadmap.t :=
  match roadmap with
  | Some r => Some r
  | None => defaultRoadmap h
  end.

Definition startSession (sessionId : string) (roadmap : option Roadmap.t)
  : M (option Session.t) :=
  let* h := gets handover in
  if negb (initialized h) then
    console_log LogError "Handover system not initialized" >> ret None
  else
    match roadmap_or_default roadmap h with
    | None => console_log LogError "No roadmap provided for session" >> ret None
    | Some sessionRoadmap =>
        let session := Session.new sessionId sessionRoadmap in
        modify (set_handover (fun h =>
          mkHandover (initialized h) (defaultRoadmap h)
                     (<[sessionId := session]> (sessions h))
                     (Some sessionId))) >>
        ret (Some session)
    end.

(** A string is falsy when it is absent or empty. *)
Definition truthy_id (o : option string) : option string :=
  match o with
  | Some s => if bool_decide (s = "") then None else Some s
  | None => None
  end.

Definition endSession (sessionId : option string) : M bool :=
  let* h := gets handover in
  let idToEnd :=
    match truthy_id sessionId with
    | Some s => Some s
    | None => currentSessionId h
    end in
  match truthy_id idToEnd with
  | Some i =>
      if bool_decide (is_Some (sessions h !! i)) then
        modify (set_handover (fun h =>
          mkHandover (initialized h) (defaultRoadmap h)
                     (delete i (sessions h))
                     (if bool_decide (currentSessionId h = Some i)
                      then None else currentSessionId h))) >>
        ret true
      else ret false
  | None => ret false
  end.

Definition getCurrentSession (h : HandoverSt) : option Session.t :=
  match truthy_id (currentSessionId h) with
  | None => None
  | Some i => sessions h !! i
  end.

Definition setCurrentSession (sessionId : string) : M bool :=
  let* h := gets handover in
  if bool_decide (is_Some (sessions h !! sessionId)) then
    modify (set_handover (fun h =>
      mkHandover (initialized h) (defaultRoadmap h) (sessions h)
                 (Some sessionId))) >>
    ret true
  else ret false.

Definition getSession (h : HandoverSt) (sessionId : string) : option Session.t :=
  sessions h !! sessionId.

Definition getCurrentStage (h : HandoverSt) : option Stage.t :=
  match getCurrentSession h with
  | None => None
  | Some session => Session.getCurrentStage session
  end.

Definition isActionAllowed (h : HandoverSt) (action : string) : bool :=
  match getCurrentStage h with
  | None => false
  | Some stage => Stage.isActionAllowed stage action
  end.

(** Calls a mutating method on the current session object.  The object
    sits in the registry under the current session id, so the mutation is
    written back there. *)
Definition onCurrentSession (method : Session.t -> bool * Session.t) : M bool :=
  let* h := gets handover in
  match truthy_id (currentSessionId h), getCurrentSession h with
  | Some i, Some session =>
      let r := method session in
      modify (set_handover (fun h =>
        mkHandover (initialized h) (defaultRoadmap h)
                   (<[i := snd r]> (sessions h)) (currentSessionId h))) >>
      ret (fst r)
  | _, _ => ret false
  end.

Definition advanceStage : M bool := onCurrentSession Session.advanceStage.

Definition setStageByName (name : string) : M bool :=
  onCurrentSession (fun s => Session.setStageByName s name).

(** [setStage(nameOrIndex: string | number)], the declaration that is in
    force (it follows the index-only one in the class body). *)
Definition setStage (nameOrIndex : string + Z) : M bool :=
  match nameOrIndex with
  | inl name => setStageByName name
  | inr index => onCurrentSession (fun s => Session.setStage s index)
  end.
End Handover.

(** ** HandoverFactory *)

Module HandoverFactory.
Definition scenes (l : list string) : gmap string Any :=
  {[ "requiredScenes" := AnyStrs l ]}.

Definition createGameRoadmap : Roadmap.t :=
  Roadmap.mk "MainGameRoadmap"
    [ Stage.mk "MainMenu" ["startGame"; "openSettings"; "viewHelp"] (scenes ["MainMenu"]);
      Stage.mk "GamePreparation" ["aim"; "charge"; "cancelShot"] (scenes ["Game"]);
      Stage.mk "ActiveGameplay" ["aim"; "charge"; "fire"; "pause"] (scenes ["Game"]);
      Stage.mk "Paused" ["resume"; "restart"; "quit"] (scenes ["Game"]);
      Stage.mk "LevelComplete" ["nextLevel"; "retry"; "mainMenu"] (scenes ["Game"; "GameOver"]);
      Stage.mk "GameOver" ["restart"; "mainMenu"] (scenes ["GameOver"]) ]
    ∅.

(** Throws on an empty stage list. *)
Definition createCustomRoadmap (name : string) (stages : list Stage.t)
  : option Roadmap.t :=
  if js_length stages =? 0 then None else Some (Roadmap.mk name stages ∅).
End HandoverFactory.

(** ** HandoverManager *)

Module HandoverManager.
Definition initialize : M unit :=
  let* h := gets handover in
  match Handover.getCurrentSession h with
  | None => Handover.initialize HandoverFactory.createGameRoadmap
  | Some _ => ret tt
  end.

Definition startSession : M (option Session.t) :=
  let* m := gets manager in
  let* s := Handover.startSession (sessionId m) None in
  modify (set_manager (fun m =>
    mkManager (sessionId m) (option_map Session.id s))) >>
  ret s.

Definition endSession : M unit :=
  Handover.endSession None >> ret tt.

Definition setStage (stageName : string) : M bool :=
  Handover.setStage (inl stageName).

Definition advanceStage : M bool := Handover.advanceStage.

Definition getCurrentStage (w : World) : option Stage.t :=
  Handover.getCurrentStage (handover w).

Definition getCurrentSession (w : World) : option Session.t :=
  Handover.getCurrentSession (handover w).

Definition isActionAllowed (w : World) (action : string) : bool :=
  Handover.isActionAllowed (handover w) action.

Definition warning (action : string) : string :=
  "Action '" +:+ action +:+ "' is not allowed in the current stage".

Definition performAction (action : string) (callback : M unit) : M bool :=
  let* allowed := gets (fun w => isActionAllowed w action) in
  if allowed then
    callback >> ret true
  else
    console_log LogWarn (warning action) >> ret false.

(** The listener the constructor registers for ['handover-stage-changed']:
    it logs and re-emits a per-stage event (which nothing listens to). *)
Definition onStageChanged (previous : option Stage.t) (current : Stage.t) : M unit :=
  console_log LogInfo
    ("Stage changed: " +:+
     match previous with Some p => Stage.name p | None => "none" end +:+
     " -> " +:+ Stage.name current) >>
  emit ("stage-" +:+ Stage.name current) (StageData current) [].

Definition getSessionState (w : World) (key : string) : option Any :=
  match Handover.getCurrentSession (handover w) with
  | Some session => Session.getState session key
  | None => None
  end.

Definition setSessionState (key : string) (value : Any) : M unit :=
  Handover.onCurrentSession (fun s => (true, Session.setState s key value)) >>
  ret tt.

(** The constructor: the session id is made from the clock and no session
    is remembered yet.  It also registers [onShutdown] (once) and
    [onStageChanged] on the scene. *)
Definition constructor : M unit :=
  let* now := Date_now in
  modify (set_manager (fun _ => mkManager ("session_" +:+ pretty now) None)).

(** The listener for the scene's ['shutdown']. *)
Definition onShutdown : M unit :=
  let* h := gets handover in
  match Handover.getCurrentSession h with
  | Some _ => endSession
  | None => ret tt
  end.
End HandoverManager.

(** ** AimSystem (AimSystem.ts) *)

#[global] Instance Direction_eq_dec : EqDecision Direction.
Proof. solve_decision. Defined.

(** [a < b] on JavaScript numbers. *)
Definition Qltb (a b : Q) : bool :=
  match (a ?= b)%Q with
  | Lt => true
  | _ => false
  end.

Module AimSystem.
Definition MIN_ANGLE : Q := (-80)%Q.
Definition MAX_ANGLE : Q := 80%Q.
Definition ANGLE_STEP : Q := 2%Q.
Definition ANGLE_SMOOTHING : Q := (1 # 10)%Q.
Definition DIRECTION_CHANGE_THRESHOLD_MS : Z := 100.
(** The literal [0.1] of the snap test in [update]. *)
Definition SNAP_EPSILON : Q := (1 # 10)%Q.

(** State of a freshly constructed instance. *)
Definition new : AimSt := mkAim 0%Q 0%Q false None 0 true.

Definition with_target (t : Q) (a : AimSt) : AimSt :=
  mkAim (currentAngle a) t (isAiming a) (inputDirection a)
        (lastDirectionChange a) (showTrajectory a).

Definition with_current (c : Q) (a : AimSt) : AimSt :=
  mkAim c (targetAngle a) (isAiming a) (inputDirection a)
        (lastDirectionChange a) (showTrajectory a).

Definition with_isAiming (b : bool) (a : AimSt) : AimSt :=
  mkAim (currentAngle a) (targetAngle a) b (inputDirection a)
        (lastDirectionChange a) (showTrajectory a).

Definition with_inputDirection (d : option Direction) (a : AimSt) : AimSt :=
  mkAim (currentAngle a) (targetAngle a) (isAiming a) d
        (lastDirectionChange a) (showTrajectory a).

Definition with_lastDirectionChange (t : Z) (a : AimSt) : AimSt :=
  mkAim (currentAngle a) (targetAngle a) (isAiming a) (inputDirection a)
        t (showTrajectory a).

(** The callback [setAimDirection] hands to the gate. *)
Definition nudge (direction : Direction) : M unit :=
  modify (set_aim (with_isAiming true)) >>
  modify (set_aim (fun a =>
    match direction with
    | left => with_target (Qmax (currentAngle a - ANGLE_STEP) MIN_ANGLE) a
    | right => with_target (Qmin (currentAngle a + ANGLE_STEP) MAX_ANGLE) a
    end)).

Definition setAimDirection (direction : Direction) : M unit :=
  let* now := Date_now in
  let* a := gets aim in
  let changed := negb (bool_decide (inputDirection a = Some direction)) in
  if changed && (now - lastDirectionChange a <? DIRECTION_CHANGE_THRESHOLD_MS)
  then ret tt
  else
    (if changed then modify (set_aim (with_lastDirectionChange now)) else ret tt) >>
    modify (set_aim (with_inputDirection (Some direction))) >>
    HandoverManager.performAction "aim" (nudge direction) >>
    ret tt.

Definition resetAim : M unit :=
  modify (set_aim (with_isAiming false)) >>
  modify (set_aim (with_inputDirection None)).

(** One exponential-smoothing step of [currentAngle], with the snap. *)
Definition smooth (current target : Q) : Q :=
  let moved := (current + (target - current) * ANGLE_SMOOTHING)%Q in
  if Qltb (Qabs (moved - target)) SNAP_EPSILON then target else moved.

(** [update(time, delta)].  Redrawing the trajectory preview touches only
    the graphics object and is left out. *)
Definition update : M unit :=
  let* a := gets aim in
  (if negb (isAiming a) && bool_decide (inputDirection a = None)
   then modify (set_aim (with_target 0%Q)) else ret tt) >>
  let* a := gets aim in
  if negb (Qeq_bool (currentAngle a) (targetAngle a)) then
    modify (set_aim (with_current (smooth (currentAngle a) (targetAngle a)))) >>
    let* a := gets aim in
    emit "aim-angle-changed" (AngleData (currentAngle a)) []
  else ret tt.

Definition getCurrentAngle (a : AimSt) : Q := currentAngle a.

(** [Phaser.Math.Clamp(value, min, max)] *)
Definition Clamp (v lo hi : Q) : Q := Qmax lo (Qmin hi v).

Definition setAngleLimits (minAngle maxAngle : Q) : M unit :=
  modify (set_aim (fun a => with_current (Clamp (currentAngle a) MIN_ANGLE MAX_ANGLE) a)) >>
  modify (set_aim (fun a => with_target (Clamp (targetAngle a) MIN_ANGLE MAX_ANGLE) a)).
End AimSystem.

(** ** ShotSystem (ShotSystem.ts) *)

Module ShotSystem.
Definition MAX_CHARGE_DURATION : Z := 2000.
Definition MIN_POWER : Q := (1 # 10)%Q.
Definition MAX_POWER : Q := 1%Q.
Definition POWER_RATE : Q := (5 # 10000)%Q.

(** The class declares no field [MAX_CHARGE_POWER]: reading it gives
    [undefined]. *)
Definition MAX_CHARGE_POWER : JsNumber := Undefined.

(** The class declares no method [fire]: calling it raises a TypeError. *)
Definition fire : M unit := throw (TypeError "this.fire is not a function").

(** State of a freshly constructed instance ([createVisualElements] ends
    by hiding the meter). *)
Definition new : ShotSt := mkShot false 0 (Num 0%Q) false false.

Definition with_isCharging (b : bool) (s : ShotSt) : ShotSt :=
  mkShot b (chargeStartTime s) (currentCharge s) (inCooldown s) (chargeVisible s).

Definition with_chargeStartTime (t : Z) (s : ShotSt) : ShotSt :=
  mkShot (isCharging s) t (currentCharge s) (inCooldown s) (chargeVisible s).

Definition with_currentCharge (c : JsNumber) (s : ShotSt) : ShotSt :=
  mkShot (isCharging s) (chargeStartTime s) c (inCooldown s) (chargeVisible s).

Definition with_inCooldown (b : bool) (s : ShotSt) : ShotSt :=
  mkShot (isCharging s) (chargeStartTime s) (currentCharge s) b (chargeVisible s).

Definition with_chargeVisible (b : bool) (s : ShotSt) : ShotSt :=
  mkShot (isCharging s) (chargeStartTime s) (currentCharge s) (inCooldown s) b.

Definition showVisualElements : M unit := modify (set_shot (with_chargeVisible true)).
Definition hideVisualElements : M unit := modify (set_shot (with_chargeVisible false)).

Definition canStartShot (s : ShotSt) : bool :=
  negb (isCharging s) && negb (inCooldown s).

Definition startCharging : M unit :=
  let* s := gets shot in
  if negb (canStartShot s) then ret tt
  else
    modify (set_shot (with_isCharging true)) >>
    let* now := Date_now in
    modify (set_shot (with_chargeStartTime now)) >>
    modify (set_shot (with_currentCharge (Num MIN_POWER))) >>
    showVisualElements.

(** [console.log(`Shot fired with power: ${finalPower.toFixed(2)}`)];
    [toFixed] on [undefined] raises. *)
Definition log_shot (finalPower : JsNumber) : M unit :=
  match finalPower with
  | Num p => modify (set_console (fun c => c ++ [LogShotFired p]))
  | Undefined =>
      throw (TypeError "Cannot read properties of undefined (reading 'toFixed')")
  end.

Definition releaseShot : M unit :=
  let* s := gets shot in
  if negb (isCharging s) then ret tt
  else
    let finalPower := currentCharge s in
    modify (set_shot (with_isCharging false)) >>
    hideVisualElements >>
    modify (set_shot (with_inCooldown true)) >>
    delayedCall 200 CooldownOver >>
    HandoverManager.performAction "fire"
      (emit "shot-fired" (PowerData finalPower) [AimSystem.resetAim] >>
       log_shot finalPower) >>
    ret tt.

Definition handleMaxCharge : M unit :=
  let* s := gets shot in
  if negb (isCharging s) then ret tt
  else
    modify (set_shot (with_currentCharge MAX_CHARGE_POWER)) >>
    fire.

(** The power formula of the charging tick. *)
Definition chargeAt (chargeDuration : Z) : Q :=
  Qmin (MIN_POWER + inject_Z chargeDuration * POWER_RATE)%Q MAX_POWER.

(** [update(time, delta)].  Redrawing the charge meter touches only the
    graphics objects and is left out. *)
Definition update : M unit :=
  let* s := gets shot in
  if isCharging s then
    let* now := Date_now in
    let chargeDuration := now - chargeStartTime s in
    if chargeDuration >=? MAX_CHARGE_DURATION then handleMaxCharge
    else modify (set_shot (with_currentCharge (Num (chargeAt chargeDuration))))
  else ret tt.

Definition cancelCharge : M unit :=
  let* s := gets shot in
  if isCharging s then
    modify (set_shot (with_isCharging false)) >> hideVisualElements
  else ret tt.

Definition getCurrentCharge (s : ShotSt) : JsNumber := currentCharge s.
Definition isInChargingState (s : ShotSt) : bool := isCharging s.
End ShotSystem.

(** The listeners the three systems register on the shared scene, by event
    name, in registration order.  Event names nothing subscribes to have no
    listener. *)
Definition scene_listeners (name : string) : list (M unit) :=
  if bool_decide (name = "input-charge-start") then [ShotSystem.startCharging]
  else if bool_decide (name = "input-fire") then [ShotSystem.releaseShot]
  else if bool_decide (name = "input-charge-max") then [ShotSystem.handleMaxCharge]
  else if bool_decide (name = "input-aim-left") then [AimSystem.setAimDirection left]
  else if bool_decide (name = "input-aim-right") then [AimSystem.setAimDirection right]
  else if bool_decide (name = "shot-fired") then [AimSystem.resetAim]
  else [].

(** ** InputSystem *)

Module InputSystem.
Definition CLICK_DEBOUNCE_MS : Z := 200.
Definition KEY_DELAY_MS : Z := 100.
Definition BUFFER_SIZE : Z := 5.
(** The literals of [isRapidDirectionChange] and [update]. *)
Definition RAPID_THRESHOLD_MS : Z := 50.
Definition MAX_HOLD_MS : Z := 2000.

(** State of a freshly constructed instance. *)
Definition new : InputSt := mkInput ∅ ∅ (fun _ => []) ∅.

Definition with_lastInputTime (key : string) (t : Z) (i : InputSt) : InputSt :=
  mkInput (<[key := t]> (lastInputTime i)) (isInputActive i) (inputBuffer i)
          (disabledKeys i).

Definition with_isInputActive (key : string) (b : bool) (i : InputSt) : InputSt :=
  mkInput (lastInputTime i) (<[key := b]> (isInputActive i)) (inputBuffer i)
          (disabledKeys i).

Definition with_buffer (d : Direction) (f : list Z -> list Z) (i : InputSt) : InputSt :=
  mkInput (lastInputTime i) (isInputActive i)
          (fun d' => if bool_decide (d' = d) then f (inputBuffer i d')
                     else inputBuffer i d')
          (disabledKeys i).

(** [this.isInputActive[key]] as a condition. *)
Definition active (i : InputSt) (key : string) : bool :=
  default false (isInputActive i !! key).

Definition opposite (d : Direction) : Direction :=
  match d with left => right | right => left end.

(** [arr.shift()] *)
Definition shift (l : list Z) : list Z := tail l.

Definition isRapidDirectionChange (i : InputSt) (direction : Direction) : bool :=
  let oppositeDir := opposite direction in
  let currentBuffer := inputBuffer i direction in
  let oppositeBuffer := inputBuffer i oppositeDir in
  if js_length oppositeBuffer =? 0 then false
  else
    match last currentBuffer, last oppositeBuffer with
    | Some latestCurrent, Some latestOpposite =>
        Z.abs (latestCurrent - latestOpposite) <? RAPID_THRESHOLD_MS
    | _, _ => false
    end.

Definition handleSpacebarPress : M unit :=
  let* now := Date_now in
  let* i := gets input in
  let lastPress := default 0 (lastInputTime i !! "spacebar") in
  if bool_decide ("spacebar" ∈ disabledKeys i) then ret tt
  else if now - lastPress <? CLICK_DEBOUNCE_MS then ret tt
  else
    modify (set_input (with_lastInputTime "spacebar" now)) >>
    modify (set_input (with_isInputActive "spacebar" true)) >>
    HandoverManager.performAction "charge"
      (emit "input-charge-start" NoData [ShotSystem.startCharging]) >>
    ret tt.

Definition handleSpacebarRelease : M unit :=
  let* i := gets input in
  if negb (active i "spacebar") then ret tt
  else
    modify (set_input (with_isInputActive "spacebar" false)) >>
    HandoverManager.performAction "fire"
      (emit "input-fire" NoData [ShotSystem.releaseShot]) >>
    ret tt.

(** The buffer bookkeeping at the head of [handleDirectionalInput]. *)
Definition record_press (direction : Direction) (now : Z) (i : InputSt) : InputSt :=
  let i1 := with_buffer direction (fun b => b ++ [now]) i in
  if js_length (inputBuffer i1 direction) >? BUFFER_SIZE
  then with_buffer direction shift i1
  else i1.

Definition handleDirectionalInput (direction : Direction) : M unit :=
  let* now := Date_now in
  let* i := gets input in
  if bool_decide (direction_name direction ∈ disabledKeys i) then ret tt
  else
    modify (set_input (record_press direction now)) >>
    let* i := gets input in
    if isRapidDirectionChange i direction then ret tt
    else
      HandoverManager.performAction "aim"
        (emit ("input-aim-" +:+ direction_name direction) NoData
              [AimSystem.setAimDirection direction]) >>
      ret tt.

Definition handleDelayedInput (action : string) : M unit :=
  let* now := Date_now in
  let* i := gets input in
  let lastAction := default 0 (lastInputTime i !! action) in
  if bool_decide (action ∈ disabledKeys i) then ret tt
  else if now - lastAction <? CLICK_DEBOUNCE_MS then ret tt
  else
    modify (set_input (with_lastInputTime action now)) >>
    delayedCall KEY_DELAY_MS (DelayedAction action).

Definition setKeyDisabled (key : string) (disabled : bool) : M unit :=
  modify (set_input (fun i =>
    mkInput (lastInputTime i) (isInputActive i) (inputBuffer i)
            (if disabled then {[key]} ∪ disabledKeys i
             else disabledKeys i ∖ {[key]}))).

(** [update(time, delta)].  A missing ['spacebar'] timestamp makes the
    hold duration [NaN], and [NaN > 2000] is false. *)
Definition update : M unit :=
  let* i := gets input in
  if active i "spacebar" then
    let* now := Date_now in
    match lastInputTime i !! "spacebar" with
    | Some pressed =>
        let holdDuration := now - pressed in
        if holdDuration >? MAX_HOLD_MS then
          modify (set_input (with_isInputActive "spacebar" false)) >>
          emit "input-charge-max" NoData [ShotSystem.handleMaxCharge]
        else ret tt
    | None => ret tt
    end
  else ret tt.

(** [getActionFromPointerPosition(pointer)], from the pointer position and
    the size of the scene ([scene.scale.width], [scene.scale.height]). *)
Definition getActionFromPointerPosition (x y width height : Q) : option string :=
  if Qltb (height / 2) y then
    Some (if Qltb x (width / 2) then "aim-left" else "aim-right")
  else if Qltb y 50 then Some "pause"
  else Some "fire".

(** [handlePointerDown(pointer)].  An empty action name would be falsy. *)
Definition handlePointerDown (x y width height : Q) : M unit :=
  let* now := Date_now in
  let* i := gets input in
  let lastClick := default 0 (lastInputTime i !! "pointer") in
  if now - lastClick <? CLICK_DEBOUNCE_MS then ret tt
  else
    modify (set_input (with_lastInputTime "pointer" now)) >>
    match Handover.truthy_id (getActionFromPointerPosition x y width height) with
    | Some action =>
        HandoverManager.performAction action
          (emit ("input-" +:+ action) NoData
                (scene_listeners ("input-" +:+ action))) >>
        ret tt
    | None => ret tt
    end.

End InputSystem.

(** The callbacks kept in [timers], run by the scene clock when due. *)
Definition runTimer (t : Timer) : M unit :=
  match t with
  | CooldownOver => modify (set_shot (ShotSystem.with_inCooldown false))
  | DelayedAction action =>
      HandoverManager.performAction action
        (emit ("input-" +:+ action) NoData
              (scene_listeners ("input-" +:+ action))) >>
      ret tt
  end.

(** ** InputIntegration: the per-frame tick *)

Module InputIntegration.
Definition update : M unit :=
  InputSystem.update >> ShotSystem.update >> AimSystem.update.
End InputIntegration.

(** ** The scenes that drive the gate (scenes/MainMenu.ts, scenes/Game.ts)

    Of [create] only the calls on the gate are kept; the rest builds images
    and texts.  [scene_start] stands for [this.scene.start(key)] of the
    scene manager. *)

Module MainMenu.
Definition create : M unit :=
  HandoverManager.constructor >>
  HandoverManager.initialize >>
  HandoverManager.startSession >>
  HandoverManager.setStage "MainMenu" >>
  ret tt.

(** The listener of the first ['pointerdown']. *)
Definition pointerdown (scene_start : string -> M unit) : M unit :=
  HandoverManager.performAction "startGame" (scene_start "Game") >>
  ret tt.
End MainMenu.

Module Game.
Definition create : M unit :=
  HandoverManager.constructor >>
  HandoverManager.initialize >>
  HandoverManager.startSession >>
  HandoverManager.setStage "GamePreparation" >>
  ret tt.

(** The listener of the first ['pointerdown']. *)
Definition pointerdown (scene_start : string -> M unit) : M unit :=
  HandoverManager.performAction "fire"
    (HandoverManager.setStage "LevelComplete" >>
     scene_start "GameOver") >>
  ret tt.
End Game.

(** ** HandoverExample: the demonstration scene

    The texts the scene redraws ([updateSessionInfo], [showActionFeedback])
    are left out. *)

Module HandoverExample.
Definition create : M unit :=
  HandoverManager.constructor >>
  HandoverManager.initialize >>
  HandoverManager.startSession >>
  HandoverManager.setStage "GamePreparation" >>
  let* now := Date_now in
  HandoverManager.setSessionState "startTime" (AnyNum now) >>
  HandoverManager.setSessionState "score" (AnyNum 0).

(** [v || 0]: the falsy values are a missing entry, [0] and the empty
    string. *)
Definition or_zero (v : option Any) : Any :=
  match v with
  | None => AnyNum 0
  | Some (AnyNum n) => AnyNum n
  | Some (AnyStr s) => if bool_decide (s = "") then AnyNum 0 else AnyStr s
  | Some (AnyStrs l) => AnyStrs l
  end.

(** [v + 100]: addition on a number, concatenation on a string, and an
    array is first joined with commas. *)
Definition plus_100 (v : Any) : Any :=
  match v with
  | AnyNum n => AnyNum (n + 100)
  | AnyStr s => AnyStr (s +:+ "100")
  | AnyStrs l => AnyStr (String.concat "," l +:+ "100")
  end.

Definition performAction (action : string) : M unit :=
  let* allowed :=
    HandoverManager.performAction action
      (console_log LogInfo ("Performed action: " +:+ action) >>
       if bool_decide (action = "fire") then
         let* w := gets (fun w => w) in
         let currentScore := or_zero (HandoverManager.getSessionState w "score") in
         HandoverManager.setSessionState "score" (plus_100 currentScore)
       else ret tt) in
  if allowed then ret tt
  else console_log LogInfo ("Action not allowed: " +:+ action).

(** The [ADVANCE STAGE] button and the [N] key. *)
Definition nextStage : M unit :=
  HandoverManager.advanceStage >> ret tt.
End HandoverExample.

(** ** DialogManager (ui/DialogManager.ts)

    The dialog's own fields are passed explicitly; the callback handed to
    [showConfirmationDialog] is an action on the world.  The graphics of
    the dialog are left out. *)

Record DialogSt : Type := mkDialog {
  isDialogOpen : bool;
  currentCallback : option (M unit)
}.

Module DialogManager.
Definition new : DialogSt := mkDialog false None.

Definition closeDialog (d : DialogSt) : DialogSt := mkDialog false None.

Definition showConfirmationDialog (title message : string) (callback : M unit)
    (d : DialogSt) : DialogSt :=
  if isDialogOpen d then d else mkDialog true (Some callback).

(** The ['pointerdown'] listener of the confirm button. *)
Definition confirm_pointerdown (d : DialogSt) : M DialogSt :=
  let d := closeDialog d in
  match currentCallback d with
  | Some callback => callback >> ret d
  | None => ret d
  end.

(** The ['pointerdown'] listener of the cancel button. *)
Definition cancel_pointerdown (d : DialogSt) : M DialogSt :=
  ret (closeDialog d).

(** The listeners registered for ['keydown-ENTER'] and ['keydown-ESC']. *)
Definition keydown_ENTER (d : DialogSt) : M DialogSt :=
  if isDialogOpen d then
    let d := closeDialog d in
    match currentCallback d with
    | Some callback => callback >> ret d
    | None => ret d
    end
  else ret d.

Definition keydown_ESC (d : DialogSt) : M DialogSt :=
  if isDialogOpen d then ret (closeDialog d) else ret d.

(** The line break of a message. *)
Definition newline : string := String (Ascii.ascii_of_nat 10) "".

(** The listeners [setupEventListeners] registers for ['input-pause'],
    ['input-exit'] and ['input-restart']. *)
Definition on_input_pause (d : DialogSt) : DialogSt :=
  showConfirmationDialog "Pause Game" "Are you sure you want to pause the game?"
    (emit "pause-confirmed" NoData []) d.

Definition on_input_exit (d : DialogSt) : DialogSt :=
  showConfirmationDialog "Exit Game"
    ("Are you sure you want to exit to the main menu?" +:+ newline +:+
     "Your progress will be lost.")
    (emit "exit-confirmed" NoData []) d.

Definition on_input_restart (d : DialogSt) : DialogSt :=
  showConfirmationDialog "Restart Level"
    ("Are you sure you want to restart the level?" +:+ newline +:+
     "Your progress will be lost.")
    (emit "restart-confirmed" NoData []) d.

Definition isDialogVisible (d : DialogSt) : bool := isDialogOpen d.
End DialogManager.

(** Running a method from a world: the outcome and the world it leaves. *)
Definition run {A : Type} (m : M A) (w : World) : Outcome A * World := m w.
Definition exec {A : Type} (m : M A) (w : World) : World := snd (m w).

(** A world in which nothing has happened yet. *)
Definition initial_world : World :=
  mkWorld 0 [] [] [] Handover.new (mkManager "session_0" None)
          InputSystem.new ShotSystem.new AimSystem.new.

(** ** Vocabulary of the properties *)

(** The allowed-action set of the current stage of the current session. *)
Definition current_allowed (h : HandoverSt) (action : string) : Prop :=
  exists session stage,
    Handover.getCurrentSession h = Some session /\
    Session.getCurrentStage session = Some stage /\
    action ∈ Stage.allowedActions stage.

(** Sets the clock, then runs a callback: the callback runs at time [t]. *)
Definition at_time {A : Type} (t : Z) (m : M A) : M A :=
  modify (set_clock t) >> m.

(** The game roadmap installed and a session started: stage [MainMenu]. *)
Definition menu_world : World :=
  exec (Handover.initialize HandoverFactory.createGameRoadmap >>
        Handover.startSession "s" None) initial_world.

(** The same session moved to [ActiveGameplay], where aiming, charging and
    firing are allowed. *)
Definition gameplay_world : World :=
  exec (Handover.setStage (inl "ActiveGameplay")) menu_world.

(** The name of the stage the gate is in. *)
Definition stage_name (w : World) : option string :=
  option_map Stage.name (HandoverManager.getCurrentStage w).

(** The events of a given name in the scene's log. *)
Definition emitted (name : string) (w : World) : list SceneEvent :=
  filter (fun e => event_name e = name) (events w).

(** The spacebar went down at time 1000 during gameplay: the charge machine
    is charging since then. *)
Definition charging_world : World :=
  exec (at_time 1000 InputSystem.handleSpacebarPress) gameplay_world.

(** A power field holds the number [q]. *)
Definition power_is (p : JsNumber) (q : Q) : Prop :=
  match p with
  | Num x => (x == q)%Q
  | Undefined => False
  end.

(** One [ShotSystem.update] tick at [elapsed] ms after the charge started:
    the outcome, and the world after it. *)
Definition charge_tick (elapsed : Z) (w : World) : Outcome unit * World :=
  run (at_time (chargeStartTime (shot w) + elapsed) ShotSystem.update) w.

(** An angle inside the aiming range. *)
Definition in_range (x : Q) : Prop :=
  (AimSystem.MIN_ANGLE <= x /\ x <= AimSystem.MAX_ANGLE)%Q.

Definition aim_in_range (a : AimSt) : Prop :=
  in_range (currentAngle a) /\ in_range (targetAngle a).

(** What can happen to the aim machine: a key press entering the input
    pipeline, a nudge delivered to [setAimDirection], a frame tick, a
    ['shot-fired'] notification, the limits being re-applied, and the gate
    moving to another stage in between. *)
Inductive AimInput : Type :=
  | Press (now : Z) (d : Direction)
  | Nudge (now : Z) (d : Direction)
  | Tick (now : Z)
  | ShotFired
  | Limits (lo hi : Q)
  | StageMove (nameOrIndex : string + Z).

Definition aim_input (i : AimInput) : M unit :=
  match i with
  | Press now d => at_time now (InputSystem.handleDirectionalInput d)
  | Nudge now d => at_time now (AimSystem.setAimDirection d)
  | Tick now => at_time now AimSystem.update
  | ShotFired => AimSystem.resetAim
  | Limits lo hi => AimSystem.setAngleLimits lo hi
  | StageMove s => Handover.setStage s >> ret tt
  end.

Fixpoint aim_inputs (l : list AimInput) : M unit :=
  match l with
  | [] => ret tt
  | i :: l' => aim_input i >> aim_inputs l'
  end.

(** [n] frame ticks of the aim machine in a row. *)
Fixpoint ticks (n : nat) : M unit :=
  match n with
  | O => ret tt
  | S n' => AimSystem.update >> ticks n'
  end.

(** No directional input is active: the marker is null and the aiming flag
    is down, the condition under which [update] recenters. *)
Definition released (a : AimSt) : Prop :=
  isAiming a = false /\ inputDirection a = None.

(** The aim state left by one [AimSystem.update]. *)
Definition tick_aim (a : AimSt) : AimSt :=
  let a1 :=
    if negb (isAiming a) && bool_decide (inputDirection a = None)
    then AimSystem.with_target 0%Q a else a in
  if negb (Qeq_bool (currentAngle a1) (targetAngle a1))
  then AimSystem.with_current (AimSystem.smooth (currentAngle a1) (targetAngle a1)) a1
  else a1.

(** The aim machine tilted to 40 degrees with no directional input
    active. *)
Definition tilted_world : World :=
  set_aim (fun a => AimSystem.with_target 40%Q (AimSystem.with_current 40%Q a))
          gameplay_world.

(** The aim machine half a degree short of the right bound. *)
Definition near_bound_world : World :=
  set_aim (AimSystem.with_current (159 # 2)%Q) gameplay_world.

(** What the gate is asked for a press that passed the filters. *)
Definition aim_request (d : Direction) : M unit :=
  HandoverManager.performAction "aim"
    (emit ("input-aim-" +:+ direction_name d) NoData
          [AimSystem.setAimDirection d]) >>
  ret tt.

(** A session whose index points into its roadmap (index 0 when the
    roadmap has no stage). *)
Definition Session_wf (s : Session.t) : Prop :=
  let n := js_length (Roadmap.stages (Session.roadmap s)) in
  (n = 0 /\ Session.currentStageIndex s = 0) \/
  (0 <= Session.currentStageIndex s < n).

Definition registry_wf (h : HandoverSt) : Prop :=
  forall i s, sessions h !! i = Some s -> Session_wf s.

(** The public operations of the gate and of its manager. *)
Inductive GateOp : Type :=
  | GInitialize (roadmap : Roadmap.t)
  | GManagerInitialize
  | GStart (sessionId : string) (roadmap : option Roadmap.t)
  | GManagerStart
  | GEnd (sessionId : option string)
  | GSetCurrent (sessionId : string)
  | GAdvance
  | GSetStage (nameOrIndex : string + Z)
  | GSetState (key : string) (value : Any).

Definition gate_op (o : GateOp) : M unit :=
  match o with
  | GInitialize r => Handover.initialize r
  | GManagerInitialize => HandoverManager.initialize
  | GStart i r => Handover.startSession i r >> ret tt
  | GManagerStart => HandoverManager.startSession >> ret tt
  | GEnd i => Handover.endSession i >> ret tt
  | GSetCurrent i => Handover.setCurrentSession i >> ret tt
  | GAdvance => Handover.advanceStage >> ret tt
  | GSetStage x => Handover.setStage x >> ret tt
  | GSetState k v => HandoverManager.setSessionState k v
  end.

Fixpoint gate_ops (l : list GateOp) : M unit :=
  match l with
  | [] => ret tt
  | o :: l' => gate_op o >> gate_ops l'
  end.


(** A method leaves a part [f] of the world as it found it, whatever its
    outcome. *)
Definition keeps {A B : Type} (f : World -> B) (m : M A) : Prop :=
  forall w, f (snd (m w)) = f w.

(** What the gate is asked when the spacebar goes down and when it comes
    up. *)
Definition charge_request : M unit :=
  HandoverManager.performAction "charge"
    (emit "input-charge-start" NoData [ShotSystem.startCharging]) >>
  ret tt.

Definition fire_request : M unit :=
  HandoverManager.performAction "fire"
    (emit "input-fire" NoData [ShotSystem.releaseShot]) >>
  ret tt.

(** Presses of one arrow key at the given times, in order. *)
Fixpoint presses (d : Direction) (ts : list Z) : M unit :=
  match ts with
  | [] => ret tt
  | t :: ts' => at_time t (InputSystem.handleDirectionalInput d) >> presses d ts'
  end.

(** The newest [n] entries of a list. *)
Definition newest {A : Type} (n : nat) (l : list A) : list A :=
  drop (length l - n) l.

(** What the player can do in the demonstration scene: a button or key
    that asks for an action, and the stage button. *)
Inductive ExampleInput : Type :=
  | Act (action : string)
  | NextStage.

Definition example_input (i : ExampleInput) : M unit :=
  match i with
  | Act action => HandoverExample.performAction action
  | NextStage => HandoverExample.nextStage
  end.

Fixpoint example_inputs (l : list ExampleInput) : M unit :=
  match l with
  | [] => ret tt
  | i :: l' => example_input i >> example_inputs l'
  end.

(** The ['fire'] requests made while standing at stage index 2
    ([ActiveGameplay]), counted from stage index [stage] on; the stage
    button moves the index up to the last one, 5. *)
Fixpoint shots (stage : Z) (l : list ExampleInput) : Z :=
  match l with
  | [] => 0
  | Act action :: l' =>
      (if bool_decide (action = "fire") && (stage =? 2) then 1 else 0) + shots stage l'
  | NextStage :: l' => shots (if stage <? 5 then stage + 1 else stage) l'
  end.

(** The demonstration scene stands at stage index [stage] of the game
    roadmap with the number [score] stored as score. *)
Definition example_state (stage score : Z) (w : World) : Prop :=
  exists session,
    Handover.getCurrentSession (handover w) = Some session /\
    Session.roadmap session = HandoverFactory.createGameRoadmap /\
    Session.currentStageIndex session = stage /\
    0 <= stage <= 5 /\
    Session.state session !! "score" = Some (AnyNum score).

(** What can reach the dialog manager: a request for confirmation, the
    three scene events it listens to, the two buttons of an open dialog and
    the two keys. *)
Inductive DialogInput : Type :=
  | Confirmation (title message : string) (callback : M unit)
  | InputPause
  | InputExit
  | InputRestart
  | ConfirmButton
  | CancelButton
  | KeyEnter
  | KeyEsc.

Definition dialog_input (i : DialogInput) (d : DialogSt) : M DialogSt :=
  match i with
  | Confirmation title message callback =>
      ret (DialogManager.showConfirmationDialog title message callback d)
  | InputPause => ret (DialogManager.on_input_pause d)
  | InputExit => ret (DialogManager.on_input_exit d)
  | InputRestart => ret (DialogManager.on_input_restart d)
  | ConfirmButton => DialogManager.confirm_pointerdown d
  | CancelButton => DialogManager.cancel_pointerdown d
  | KeyEnter => DialogManager.keydown_ENTER d
  | KeyEsc => DialogManager.keydown_ESC d
  end.

Fixpoint dialog_inputs (l : list DialogInput) (d : DialogSt) : M DialogSt :=
  match l with
  | [] => ret d
  | i :: l' => let* d' := dialog_input i d in dialog_inputs l' d'
  end.

(** The gate operation names the session [j]: it starts, ends or selects
    it by its id. *)
Definition names_session (j : string) (o : GateOp) : Prop :=
  match o with
  | GStart i _ => i = j
  | GEnd (Some i) => i = j
  | GSetCurrent i => i = j
  | _ => False
  end.

(** The session [sj] is registered under [j], is not the current one, and
    [j] is not the id the manager starts its session under. *)
Definition parked (j : string) (sj : Session.t) (w : World) : Prop :=
  sessions (handover w) !! j = Some sj /\
  currentSessionId (handover w) <> Some j /\
  sessionId (manager w) <> j.







(** The gate operation sets the stage by index. *)
Definition sets_stage_by_index (o : GateOp) : Prop :=
  exists index, o = GSetStage (inr index).

(** * Properties *)

(** Unfolds the monad so that a method applied to a world computes. *)
Ltac js_unfold :=
  unfold run, exec, bind, ret, gets, modify, throw, console_log, Date_now in *.

(** ** The array helpers *)

Section FindIndex.
Context {A : Type} (p : A -> bool).

Lemma findIndex_from_none (l : list A) (i : Z) :
  (forall x, x ∈ l -> p x = false) -> findIndex_from p l i = -1.
Proof.
  revert i; induction l as [|x l IH]; intros i Hall; simpl; [reflexivity|].
  rewrite (Hall x) by constructor.
  apply IH; intros y Hy; apply Hall; now constructor.
Qed.

Lemma findIndex_from_range (l : list A) (i : Z) :
  findIndex_from p l i = -1 \/
  (i <= findIndex_from p l i < i + js_length l).
Proof.
  unfold js_length; revert i; induction l as [|x l IH]; intros i; simpl length.
  - now left.
  - simpl; destruct (p x); [right; lia|].
    destruct (IH (i + 1)) as [->|H]; [now left | right; lia].
Qed.

Lemma findIndex_from_found (l : list A) (i : Z) :
  0 <= i -> findIndex_from p l i <> -1 ->
  exists x, l !! Z.to_nat (findIndex_from p l i - i) = Some x /\ p x = true.
Proof.
  revert i; induction l as [|x l IH]; intros i Hi Hf; simpl in *; [congruence|].
  destruct (p x) eqn:Hp.
  - exists x; rewrite Z.sub_diag; simpl; auto.
  - destruct (IH (i + 1)) as (y & Hy & Hpy); [lia | exact Hf |].
    exists y; split; [|exact Hpy].
    destruct (findIndex_from_range l (i + 1)) as [E|R]; [congruence|].
    replace (Z.to_nat (findIndex_from p l (i + 1) - i))
      with (S (Z.to_nat (findIndex_from p l (i + 1) - (i + 1)))) by lia.
    exact Hy.
Qed.

End FindIndex.

(** ** The gate *)

Lemma isActionAllowed_spec (h : HandoverSt) (action : string) :
  Handover.isActionAllowed h action = true <-> current_allowed h action.
Proof.
  unfold Handover.isActionAllowed, Handover.getCurrentStage, current_allowed.
  destruct (Handover.getCurrentSession h) as [session|]; cycle 1.
  { split; [discriminate | intros (? & ? & ? & _); discriminate]. }
  destruct (Session.getCurrentStage session) as [stage|] eqn:Hst; cycle 1.
  { split; [discriminate | intros (? & ? & [= <-] & ? & _); congruence]. }
  unfold Stage.isActionAllowed; rewrite bool_decide_eq_true.
  split.
  - intros Hin; exists session, stage; auto.
  - intros (s' & st' & [= <-] & Hst' & Hin).
    rewrite Hst in Hst'; injection Hst' as <-; exact Hin.
Qed.








(** A callback that completes makes [performAction] return true in the
    world the callback left. *)
Lemma performAction_allowed_returns (action : string) (callback : M unit)
    (w w' : World) :
  current_allowed (handover w) action ->
  run callback w = (Normal tt, w') ->
  run (HandoverManager.performAction action callback) w = (Normal true, w').
Proof.
  intros Hal Hcb; apply isActionAllowed_spec in Hal.
  unfold HandoverManager.performAction, HandoverManager.isActionAllowed.
  unfold run in *; js_unfold; simpl; rewrite Hal, Hcb; reflexivity.
Qed.

(** ** Sessions *)

(** C4 as the spec words it fails: on a gate that was never initialized a
    roadmap supplied with the call does not prevent the [none] result. *)
Lemma startSession_uninitialized_with_roadmap :
  ~ (fst (run (Handover.startSession "s" (Some HandoverFactory.createGameRoadmap))
              initial_world) = Normal None <->
     initialized (handover initial_world) = false /\
     Some HandoverFactory.createGameRoadmap = None).
Proof.
  intros [H _].
  assert (E : fst (run (Handover.startSession "s"
                          (Some HandoverFactory.createGameRoadmap))
                       initial_world) = Normal None) by reflexivity.
  destruct (H E) as [_ ?]; discriminate.
Qed.

(** C4 (amended): [startSession(id, roadmap?)] returns none exactly when the
    gate is not initialized, whether or not a roadmap comes with the call, or
    when neither the call nor the gate has a roadmap; in that case nothing is
    registered.  In every other case it builds a Session on the supplied
    roadmap, else on the default one, with [currentStageIndex] 0, stores it
    in the registry under [id] and makes [id] the current session id. *)
Theorem startSession_result (sessionId : string) (roadmap : option Roadmap.t)
    (w : World) :
  let r := run (Handover.startSession sessionId roadmap) w in
  (fst r = Normal None <->
     initialized (handover w) = false \/
     (roadmap = None /\ defaultRoadmap (handover w) = None)) /\
  (fst r = Normal None -> handover (snd r) = handover w) /\
  (fst r <> Normal None ->
     exists sessionRoadmap session,
       Handover.roadmap_or_default roadmap (handover w) = Some sessionRoadmap /\
       session = Session.new sessionId sessionRoadmap /\
       fst r = Normal (Some session) /\
       Session.currentStageIndex session = 0 /\
       sessions (handover (snd r)) = <[sessionId := session]> (sessions (handover w)) /\
       currentSessionId (handover (snd r)) = Some sessionId).
Proof.
  unfold Handover.startSession; js_unfold; simpl.
  destruct (initialized (handover w)) eqn:Hi; simpl.
  - destruct (Handover.roadmap_or_default roadmap (handover w)) as [rm|] eqn:Hr;
      simpl.
    + split; [split|split].
      * discriminate.
      * intros [?|[-> Hd]]; [discriminate|].
        simpl in Hr; congruence.
      * discriminate.
      * intros _; exists rm, (Session.new sessionId rm); repeat split.
    + split; [split|split]; auto; [|congruence].
      intros _; right.
      destruct roadmap; simpl in Hr; [discriminate | auto].
  - split; [split|split]; auto; congruence.
Qed.

(** After [initialize] the gate always has a default roadmap, so from then
    on [startSession] cannot fail. *)
Lemma startSession_after_initialize (rm : Roadmap.t) (sessionId : string)
    (roadmap : option Roadmap.t) (w : World) :
  fst (run (Handover.initialize rm >> Handover.startSession sessionId roadmap) w)
  <> Normal None.
Proof.
  unfold Handover.initialize, Handover.startSession; js_unfold; simpl.
  destruct roadmap; simpl; discriminate.
Qed.

(** A session started under a non-empty id is what [getCurrentSession]
    returns. *)
Lemma startSession_current (sessionId : string) (roadmap : option Roadmap.t)
    (w : World) (session : Session.t) :
  sessionId <> "" ->
  fst (run (Handover.startSession sessionId roadmap) w) = Normal (Some session) ->
  Handover.getCurrentSession
    (handover (exec (Handover.startSession sessionId roadmap) w)) = Some session.
Proof.
  intros Hid.
  unfold Handover.startSession, Handover.getCurrentSession; js_unfold; simpl.
  destruct (initialized (handover w)); simpl; [|discriminate].
  destruct (Handover.roadmap_or_default roadmap (handover w)); simpl; [|discriminate].
  intros [= <-].
  rewrite bool_decide_eq_false_2 by exact Hid.
  apply lookup_insert_eq.
Qed.

(** ** Stage navigation *)

Lemma setStageByName_unknown (s : Session.t) (name : string) :
  (forall st, st ∈ Roadmap.stages (Session.roadmap s) -> Stage.name st <> name) ->
  Session.setStageByName s name = (false, s).
Proof.
  intros Hno; unfold Session.setStageByName, findIndex.
  rewrite findIndex_from_none; [reflexivity|].
  intros st Hst; apply bool_decide_eq_false_2, Hno, Hst.
Qed.

Lemma setStage_out_of_range (s : Session.t) (index : Z) :
  index < 0 \/ js_length (Roadmap.stages (Session.roadmap s)) <= index ->
  Session.setStage s index = (false, s).
Proof.
  intros Hout; unfold Session.setStage.
  destruct (0 <=? index) eqn:E1; simpl; [|reflexivity].
  destruct (index <? _) eqn:E2; [|reflexivity].
  apply Z.leb_le in E1; apply Z.ltb_lt in E2; lia.
Qed.

(** A session that stands on a stage has its index inside the roadmap. *)
Lemma getCurrentStage_index (s : Session.t) :
  is_Some (Session.getCurrentStage s) ->
  0 <= Session.currentStageIndex s < js_length (Roadmap.stages (Session.roadmap s)).
Proof.
  unfold Session.getCurrentStage, js_index, js_length.
  destruct (_ =? 0); [intros [? ?]; discriminate|].
  destruct (Z.ltb_spec (Session.currentStageIndex s) 0);
    [intros [? ?]; discriminate|].
  intros Hl; apply lookup_lt_is_Some in Hl; lia.
Qed.

(** C9: failed stage navigation returns false and leaves the session as it
    was: [setStageByName] with a name no stage has, [setStage] with an index
    below 0 or not below the number of stages, and [advanceStage] at the last
    stage.  A session standing on any other stage is moved by [advanceStage]
    to [currentStageIndex + 1], and the call returns true. *)
Theorem failed_navigation_is_noop (s : Session.t) :
  let n := js_length (Roadmap.stages (Session.roadmap s)) in
  (forall name,
     (forall st, st ∈ Roadmap.stages (Session.roadmap s) -> Stage.name st <> name) ->
     Session.setStageByName s name = (false, s)) /\
  (forall index, index < 0 \/ n <= index -> Session.setStage s index = (false, s)) /\
  (Session.currentStageIndex s = n - 1 -> Session.advanceStage s = (false, s)) /\
  (is_Some (Session.getCurrentStage s) -> Session.currentStageIndex s <> n - 1 ->
     Session.advanceStage s =
     (true, Session.with_index s (Session.currentStageIndex s + 1))).
Proof.
  cbv zeta; repeat split.
  - apply setStageByName_unknown.
  - apply setStage_out_of_range.
  - intros Hlast; unfold Session.advanceStage.
    rewrite (proj2 (Z.ltb_ge _ _)) by lia; reflexivity.
  - intros Hon Hnl; apply getCurrentStage_index in Hon.
    unfold Session.advanceStage.
    rewrite (proj2 (Z.ltb_lt _ _)) by lia; reflexivity.
Qed.

(** The scenario of the specification: stages [A] (allowing [x]) and [B]
    (allowing [y]); at [A] the action [y] is refused, one [advanceStage]
    reaches [B] where it is allowed, a second one returns false and the gate
    stays at [B]; an unknown stage name is refused as well. *)
Lemma two_stage_scenario :
  let rm := Roadmap.mk "R" [Stage.mk "A" ["x"] ∅; Stage.mk "B" ["y"] ∅] ∅ in
  let w0 := exec (Handover.initialize rm >> Handover.startSession "s" None >>
                  Handover.setStage (inl "A")) initial_world in
  let r1 := run Handover.advanceStage w0 in
  let r2 := run Handover.advanceStage (snd r1) in
  let r3 := run (Handover.setStage (inl "DoesNotExist")) (snd r2) in
  HandoverManager.isActionAllowed w0 "y" = false /\
  fst r1 = Normal true /\ HandoverManager.isActionAllowed (snd r1) "y" = true /\
  fst r2 = Normal false /\ stage_name (snd r2) = Some "B" /\
  fst r3 = Normal false /\ stage_name (snd r3) = Some "B".
Proof. vm_compute; repeat split. Qed.

(** On a roadmap without stages [advanceStage] also changes nothing. *)
Lemma advanceStage_empty_roadmap (s : Session.t) :
  Roadmap.stages (Session.roadmap s) = [] ->
  0 <= Session.currentStageIndex s ->
  Session.advanceStage s = (false, s).
Proof.
  intros He Hi; unfold Session.advanceStage, js_length; rewrite He.
  destruct (Z.ltb_spec (Session.currentStageIndex s) (Z.of_nat (length (@nil Stage.t)) - 1))
    as [Hlt|_]; [simpl in Hlt; lia | reflexivity].
Qed.

(** A successful [setStageByName] lands on a stage of that name. *)
Lemma setStageByName_known (s s' : Session.t) (name : string) :
  Session.setStageByName s name = (true, s') ->
  exists st, Session.getCurrentStage s' = Some st /\ Stage.name st = name.
Proof.
  unfold Session.setStageByName, findIndex.
  set (p := fun stage => bool_decide (Stage.name stage = name)).
  destruct (findIndex_from p _ 0 =? -1) eqn:E; simpl; [discriminate|].
  intros [= <-]; apply Z.eqb_neq in E.
  destruct (findIndex_from_found p _ 0 ltac:(lia) E) as (st & Hst & Hp).
  destruct (findIndex_from_range p (Roadmap.stages (Session.roadmap s)) 0)
    as [?|R]; [congruence|].
  exists st; split; [|now apply bool_decide_eq_true in Hp].
  unfold Session.getCurrentStage, js_index; simpl.
  rewrite (proj2 (Z.eqb_neq _ _)) by lia.
  rewrite (proj2 (Z.ltb_ge _ _)) by lia.
  now rewrite Z.sub_0_r in Hst.
Qed.

Lemma world_eta (w : World) :
  mkWorld (clock w) (console w) (events w) (timers w) (handover w)
          (manager w) (input w) (shot w) (aim w) = w.
Proof. now destruct w. Qed.

(** A session method that returns the object unchanged leaves the whole
    world unchanged when called through the gate. *)
Lemma onCurrentSession_noop (method : Session.t -> bool * Session.t) (w : World) :
  (forall s, Handover.getCurrentSession (handover w) = Some s ->
             method s = (false, s)) ->
  run (Handover.onCurrentSession method) w = (Normal false, w).
Proof.
  intros Hm; unfold Handover.onCurrentSession; js_unfold; simpl.
  destruct (Handover.truthy_id (currentSessionId (handover w))) as [i|] eqn:Hi;
    [|reflexivity].
  destruct (Handover.getCurrentSession (handover w)) as [s|] eqn:Hs;
    [|reflexivity].
  rewrite (Hm s eq_refl); simpl; f_equal.
  unfold Handover.getCurrentSession in Hs; rewrite Hi in Hs.
  unfold set_handover; rewrite (insert_id _ _ _ Hs).
  destruct w as [? ? ? ? [? ? ? ?] ? ? ? ?]; reflexivity.
Qed.

(** The same at the gate: [setStage] with a name that no stage of the
    current session has, or with an index outside its roadmap, returns false
    and changes nothing at all. *)
Lemma Handover_setStage_not_found (nameOrIndex : string + Z) (w : World) :
  (forall s, Handover.getCurrentSession (handover w) = Some s ->
     match nameOrIndex with
     | inl name =>
         forall st, st ∈ Roadmap.stages (Session.roadmap s) -> Stage.name st <> name
     | inr index =>
         index < 0 \/ js_length (Roadmap.stages (Session.roadmap s)) <= index
     end) ->
  run (Handover.setStage nameOrIndex) w = (Normal false, w).
Proof.
  intros H; destruct nameOrIndex as [name|index]; simpl;
    unfold Handover.setStageByName; apply onCurrentSession_noop; intros s Hs;
    specialize (H s Hs);
    [now apply setStageByName_unknown | now apply setStage_out_of_range].
Qed.

(** ** Stage-change notification *)

(** Whatever session method the gate runs, the scene's event log and the
    console are left as they were: no stage method of [Handover] or
    [HandoverManager] ever calls [emit]. *)
Lemma onCurrentSession_silent (method : Session.t -> bool * Session.t) (w : World) :
  events (exec (Handover.onCurrentSession method) w) = events w /\
  console (exec (Handover.onCurrentSession method) w) = console w.
Proof.
  unfold Handover.onCurrentSession; js_unfold; simpl.
  destruct (Handover.truthy_id _); [|now split].
  destruct (Handover.getCurrentSession _); now split.
Qed.

Lemma stage_methods_silent (w : World) :
  (forall name, events (exec (HandoverManager.setStage name) w) = events w) /\
  (forall nameOrIndex, events (exec (Handover.setStage nameOrIndex) w) = events w) /\
  events (exec HandoverManager.advanceStage w) = events w.
Proof.
  repeat split.
  - intros name; apply onCurrentSession_silent.
  - intros [name|index]; apply onCurrentSession_silent.
  - apply onCurrentSession_silent.
Qed.

(** C5: the code at the failing input.  A session on the game roadmap stands
    at [MainMenu]; [advanceStage()] succeeds and moves it to
    [GamePreparation], [setStage('Paused')] succeeds and moves it on, and
    after both the scene's event log is still empty: no notification was
    emitted, so the listener for ['handover-stage-changed'] never runs. *)
Theorem stage_change_emits_nothing :
  let r1 := run HandoverManager.advanceStage menu_world in
  let r2 := run (HandoverManager.setStage "Paused") (snd r1) in
  stage_name menu_world = Some "MainMenu" /\
  fst r1 = Normal true /\ stage_name (snd r1) = Some "GamePreparation" /\
  fst r2 = Normal true /\ stage_name (snd r2) = Some "Paused" /\
  events (snd r2) = [] /\ console (snd r2) = [].
Proof. vm_compute. repeat split. Qed.

(** ** The charge machine *)

Lemma chargeAt_bounds (e : Z) :
  0 <= e ->
  (ShotSystem.MIN_POWER <= ShotSystem.chargeAt e /\
   ShotSystem.chargeAt e <= ShotSystem.MAX_POWER)%Q.
Proof.
  intros He; unfold ShotSystem.chargeAt.
  assert (H0 : (0 <= inject_Z e)%Q)
    by (change 0%Q with (inject_Z 0); rewrite <- Zle_Qle; exact He).
  split.
  - apply Q.min_glb.
    + unfold ShotSystem.MIN_POWER, ShotSystem.POWER_RATE; nra.
    + unfold ShotSystem.MIN_POWER, ShotSystem.MAX_POWER; lra.
  - apply Q.le_min_r.
Qed.

Lemma chargeAt_monotone (e1 e2 : Z) :
  e1 <= e2 -> (ShotSystem.chargeAt e1 <= ShotSystem.chargeAt e2)%Q.
Proof.
  intros He; unfold ShotSystem.chargeAt.
  apply Q.min_le_compat_r.
  rewrite Zle_Qle in He.
  unfold ShotSystem.MIN_POWER, ShotSystem.POWER_RATE; nra.
Qed.

(** With the configured rate the formula saturates 1800 ms into the
    charge, before the 2000 ms ceiling. *)
Lemma chargeAt_saturates (e : Z) :
  1800 <= e -> (ShotSystem.chargeAt e == ShotSystem.MAX_POWER)%Q.
Proof.
  intros He; unfold ShotSystem.chargeAt.
  apply Q.min_r.
  rewrite Zle_Qle in He.
  change (inject_Z 1800) with 1800%Q in He.
  unfold ShotSystem.MIN_POWER, ShotSystem.POWER_RATE, ShotSystem.MAX_POWER; nra.
Qed.

(** A tick below the ceiling evaluates the formula and nothing else. *)
Lemma update_while_charging (w : World) :
  isCharging (shot w) = true ->
  clock w - chargeStartTime (shot w) < ShotSystem.MAX_CHARGE_DURATION ->
  run ShotSystem.update w =
  (Normal tt,
   set_shot (ShotSystem.with_currentCharge
               (Num (ShotSystem.chargeAt (clock w - chargeStartTime (shot w))))) w).
Proof.
  intros Hc Hlt; unfold ShotSystem.update; js_unfold; simpl.
  rewrite Hc.
  destruct (Z.geb_spec (clock w - chargeStartTime (shot w))
                       ShotSystem.MAX_CHARGE_DURATION); [lia | reflexivity].
Qed.

(** A tick at or past the ceiling takes the forced path, which stores
    [undefined] as the power and then raises: no event is emitted and the
    machine is still charging. *)
Lemma update_at_ceiling (w : World) :
  isCharging (shot w) = true ->
  ShotSystem.MAX_CHARGE_DURATION <= clock w - chargeStartTime (shot w) ->
  run ShotSystem.update w =
  (Thrown (TypeError "this.fire is not a function"),
   set_shot (ShotSystem.with_currentCharge Undefined) w).
Proof.
  intros Hc Hge; unfold ShotSystem.update; js_unfold; simpl.
  rewrite Hc.
  destruct (Z.geb_spec (clock w - chargeStartTime (shot w))
                       ShotSystem.MAX_CHARGE_DURATION); [|lia].
  unfold ShotSystem.handleMaxCharge, ShotSystem.fire; js_unfold; simpl.
  now rewrite Hc.
Qed.

(** The forced path reached from a held key: the input pipeline emits
    ['input-charge-max'] once and clears the held flag, and the listener
    raises in the same way. *)
Lemma input_update_forced (w : World) (pressed : Z) :
  InputSystem.active (input w) "spacebar" = true ->
  lastInputTime (input w) !! "spacebar" = Some pressed ->
  InputSystem.MAX_HOLD_MS < clock w - pressed ->
  isCharging (shot w) = true ->
  run InputSystem.update w =
  (Thrown (TypeError "this.fire is not a function"),
   set_shot (ShotSystem.with_currentCharge Undefined)
     (set_events (fun es => es ++ [mkEvent "input-charge-max" NoData])
        (set_input (InputSystem.with_isInputActive "spacebar" false) w))).
Proof.
  intros Ha Hp Hlt Hc; unfold InputSystem.update; js_unfold; simpl.
  rewrite Ha, Hp.
  destruct (Z.gtb_spec (clock w - pressed) InputSystem.MAX_HOLD_MS); [|lia].
  unfold emit, run_listeners, ShotSystem.handleMaxCharge, ShotSystem.fire.
  js_unfold; simpl; now rewrite Hc.
Qed.

(** C2: the code at the failing input.  The key went down at 1000 and is
    held.  The tick at 3000 (2000 ms of charging) raises a TypeError from
    the forced-release path; so do the ticks at 3016 and 3032.  After them
    no ['shot-fired'] event exists, the power is [undefined] instead of 1.0,
    and the machine is still charging, so every further tick takes the
    forced path again. *)
Theorem forced_release_raises :
  let r1 := run (at_time 3000 InputIntegration.update) charging_world in
  let r2 := run (at_time 3016 InputIntegration.update) (snd r1) in
  let r3 := run (at_time 3032 InputIntegration.update) (snd r2) in
  isCharging (shot charging_world) = true /\
  chargeStartTime (shot charging_world) = 1000 /\
  fst r1 = Thrown (TypeError "this.fire is not a function") /\
  fst r2 = Thrown (TypeError "this.fire is not a function") /\
  fst r3 = Thrown (TypeError "this.fire is not a function") /\
  emitted "shot-fired" (snd r3) = [] /\
  currentCharge (shot (snd r3)) = Undefined /\
  isCharging (shot (snd r3)) = true.
Proof. vm_compute. repeat split. Qed.

(** C3: the code at the failing input.  Charging starts at 1000; ticks
    0, 500, 1000 and 1500 ms into the charge leave the powers 0.1, 0.35, 0.6
    and 0.85, but the tick 2000 ms into the charge raises and leaves the
    power [undefined], where the formula gives 1.0. *)
Theorem charge_sample_at_ceiling :
  let r0 := charge_tick 0 charging_world in
  let r1 := charge_tick 500 (snd r0) in
  let r2 := charge_tick 1000 (snd r1) in
  let r3 := charge_tick 1500 (snd r2) in
  let r4 := charge_tick 2000 (snd r3) in
  (fst r0 = Normal tt /\ power_is (currentCharge (shot (snd r0))) (1 # 10)) /\
  (fst r1 = Normal tt /\ power_is (currentCharge (shot (snd r1))) (35 # 100)) /\
  (fst r2 = Normal tt /\ power_is (currentCharge (shot (snd r2))) (6 # 10)) /\
  (fst r3 = Normal tt /\ power_is (currentCharge (shot (snd r3))) (85 # 100)) /\
  fst r4 = Thrown (TypeError "this.fire is not a function") /\
  currentCharge (shot (snd r4)) = Undefined /\
  isCharging (shot (snd r4)) = true /\
  (ShotSystem.chargeAt 2000 == 1)%Q.
Proof. vm_compute. repeat split. Qed.

(** ** The aim machine *)

Lemma update_aim (w : World) :
  fst (run AimSystem.update w) = Normal tt /\
  aim (exec AimSystem.update w) = tick_aim (aim w).
Proof.
  unfold AimSystem.update, tick_aim, emit, run_listeners; js_unfold; simpl.
  destruct (negb (isAiming (aim w)) && bool_decide (inputDirection (aim w) = None));
    simpl.
  - destruct (Qeq_bool (currentAngle (aim w)) 0); simpl; split; reflexivity.
  - destruct (Qeq_bool (currentAngle (aim w)) (targetAngle (aim w))); simpl;
      split; reflexivity.
Qed.

Lemma ticks_aim (n : nat) (w : World) :
  fst (run (ticks n) w) = Normal tt /\
  aim (exec (ticks n) w) = Nat.iter n tick_aim (aim w).
Proof.
  revert w; induction n as [|n IH]; intros w; [split; reflexivity|].
  destruct (update_aim w) as [Hn Ha].
  cbn [ticks]; unfold run, exec, bind in *.
  destruct (AimSystem.update w) as [[[]|e] w1]; simpl in Hn, Ha; [|discriminate].
  destruct (IH w1) as [IHn IHa]; split; [exact IHn|].
  rewrite IHa, Ha; clear.
  induction n as [|n IHn]; [reflexivity|].
  simpl; now rewrite IHn.
Qed.

Lemma Qltb_spec (a b : Q) : reflect (a < b)%Q (Qltb a b).
Proof.
  unfold Qltb; destruct (a ?= b)%Q eqn:E; constructor.
  - apply Qeq_alt in E; rewrite E; apply Qlt_irrefl.
  - now apply Qlt_alt.
  - apply Qgt_alt in E; apply Qle_not_lt; now apply Qlt_le_weak.
Qed.

(** One smoothing step towards 0 keeps nine tenths of the distance, or
    snaps. *)
Lemma smooth_to_zero (c : Q) :
  (AimSystem.smooth c 0 = 0 /\ Qabs c * (9 # 10) < 1 # 10)%Q \/
  (AimSystem.smooth c 0 == c * (9 # 10) /\ 1 # 10 <= Qabs c * (9 # 10))%Q.
Proof.
  unfold AimSystem.smooth, AimSystem.ANGLE_SMOOTHING, AimSystem.SNAP_EPSILON.
  assert (E : (Qabs (c + (0 - c) * (1 # 10) - 0) == Qabs c * (9 # 10))%Q).
  { apply (Qabs_case c); intros Hc;
      apply (Qabs_case (c + (0 - c) * (1 # 10) - 0)); intros Hm; lra. }
  destruct (Qltb_spec (Qabs (c + (0 - c) * (1 # 10) - 0)) (1 # 10)) as [H|H].
  - left; split; [reflexivity | now rewrite <- E].
  - right; split; [lra | rewrite <- E; now apply Qnot_lt_le].
Qed.

Lemma tick_released (a : AimSt) :
  released a ->
  released (tick_aim a) /\
  targetAngle (tick_aim a) = 0%Q /\
  ((currentAngle a == 0 /\ currentAngle (tick_aim a) = currentAngle a)%Q \/
   (~ (currentAngle a == 0)%Q /\
    currentAngle (tick_aim a) = AimSystem.smooth (currentAngle a) 0)).
Proof.
  intros [Hai Hdir]; unfold tick_aim, released.
  rewrite Hai, Hdir; simpl.
  destruct (Qeq_bool (currentAngle a) 0) eqn:E; simpl.
  - apply Qeq_bool_iff in E; rewrite Hai, Hdir; auto.
  - apply Qeq_bool_neq in E; rewrite Hai, Hdir; auto.
Qed.

Lemma iter_released (a : AimSt) (n : nat) :
  released a -> released (Nat.iter n tick_aim a).
Proof.
  intros Hr; induction n as [|n IH]; [exact Hr|].
  simpl; now apply tick_released.
Qed.

(** A tick of a released machine never increases the distance to the
    centre: it multiplies it by [1 - ANGLE_SMOOTHING], or snaps to 0. *)
Lemma tick_contracts (a : AimSt) :
  released a ->
  (Qabs (currentAngle (tick_aim a)) <=
   Qabs (currentAngle a) * (1 - AimSystem.ANGLE_SMOOTHING))%Q.
Proof.
  intros Hr; destruct (tick_released a Hr) as (_ & _ & [[Hz ->]|[Hnz ->]]).
  - rewrite Hz; unfold AimSystem.ANGLE_SMOOTHING; change (Qabs 0) with 0%Q; lra.
  - unfold AimSystem.ANGLE_SMOOTHING.
    destruct (smooth_to_zero (currentAngle a)) as [[-> Hs]|[-> Hs]].
    + pose proof (Qabs_nonneg (currentAngle a)); change (Qabs 0) with 0%Q; lra.
    + rewrite Qabs_Qmult; change (Qabs (9 # 10)) with (9 # 10)%Q; lra.
Qed.

(** Once the moved angle is within the epsilon of the centre, the tick
    leaves the angle at 0. *)
Lemma tick_snaps (a : AimSt) :
  released a ->
  (Qabs (currentAngle a) * (1 - AimSystem.ANGLE_SMOOTHING) < AimSystem.SNAP_EPSILON)%Q ->
  (currentAngle (tick_aim a) == 0)%Q.
Proof.
  unfold AimSystem.ANGLE_SMOOTHING, AimSystem.SNAP_EPSILON; intros Hr Hs.
  destruct (tick_released a Hr) as (_ & _ & [[Hz ->]|[Hnz ->]]); [exact Hz|].
  destruct (smooth_to_zero (currentAngle a)) as [[-> _]|[_ Hge]]; [reflexivity|].
  lra.
Qed.

Lemma zero_stays (a : AimSt) (n : nat) :
  released a -> (currentAngle a == 0)%Q ->
  (currentAngle (Nat.iter n tick_aim a) == 0)%Q.
Proof.
  intros Hr Hz; induction n as [|n IH]; [exact Hz|].
  simpl; apply tick_snaps; [now apply iter_released|].
  rewrite IH; change (Qabs 0) with 0%Q.
  unfold AimSystem.ANGLE_SMOOTHING, AimSystem.SNAP_EPSILON; lra.
Qed.

(** The distance after [n] ticks is at most [9 / (9 + n)] of the initial
    one (Bernoulli's bound on the geometric decay). *)
Lemma decay_bound (a : AimSt) (n : nat) :
  released a ->
  (Qabs (currentAngle (Nat.iter n tick_aim a)) * (9 + inject_Z (Z.of_nat n)) <=
   9 * Qabs (currentAngle a))%Q.
Proof.
  intros Hr; induction n as [|n IH].
  - change (Nat.iter 0 tick_aim a) with a.
    change (inject_Z (Z.of_nat 0)) with 0%Q; lra.
  - pose proof (tick_contracts _ (iter_released a n Hr)) as Hc.
    unfold AimSystem.ANGLE_SMOOTHING in Hc.
    change (Nat.iter (S n) tick_aim a) with (tick_aim (Nat.iter n tick_aim a)).
    set (x := Qabs (currentAngle (Nat.iter n tick_aim a))) in *.
    set (y := Qabs (currentAngle (tick_aim (Nat.iter n tick_aim a)))) in *.
    assert (Hx : (0 <= x)%Q) by apply Qabs_nonneg.
    assert (Hy : (0 <= y)%Q) by apply Qabs_nonneg.
    assert (Hm : (0 <= inject_Z (Z.of_nat n))%Q)
      by (change 0%Q with (inject_Z 0); rewrite <- Zle_Qle; lia).
    rewrite Nat2Z.inj_succ, <- Z.add_1_r, inject_Z_plus.
    change (inject_Z 1) with 1%Q.
    set (m := inject_Z (Z.of_nat n)) in *.
    nra.
Qed.

Lemma Qabs_le_num (c : Q) : (Qabs c <= inject_Z (Z.abs (Qnum c)))%Q.
Proof.
  destruct c as [p q]; unfold Qabs, Qle, inject_Z; simpl.
  nia.
Qed.

(** From some tick on a released machine points at the centre. *)
Lemma released_reaches_zero (a : AimSt) :
  released a ->
  exists N, forall n, (N <= n)%nat ->
    (currentAngle (Nat.iter n tick_aim a) == 0)%Q.
Proof.
  intros Hr.
  set (k := Z.to_nat (90 * Z.abs (Qnum (currentAngle a)))).
  exists (S k); intros n Hn.
  replace n with ((n - S k) + S k)%nat by lia.
  rewrite Nat.iter_add.
  apply zero_stays; [now apply iter_released|].
  change (Nat.iter (S k) tick_aim a) with (tick_aim (Nat.iter k tick_aim a)).
  apply tick_snaps; [now apply iter_released|].
  pose proof (decay_bound a k Hr) as Hd.
  pose proof (Qabs_le_num (currentAngle a)) as Hnum.
  pose proof (Qabs_nonneg (currentAngle (Nat.iter k tick_aim a))) as Hx.
  pose proof (Qabs_nonneg (currentAngle a)) as Hc.
  unfold k in Hd at 2.
  rewrite Z2Nat.id, inject_Z_mult in Hd by lia.
  change (inject_Z 90) with 90%Q in Hd.
  unfold AimSystem.ANGLE_SMOOTHING, AimSystem.SNAP_EPSILON.
  set (x := Qabs (currentAngle (Nat.iter k tick_aim a))) in *.
  set (c := Qabs (currentAngle a)) in *.
  set (m := inject_Z (Z.abs (Qnum (currentAngle a)))) in *.
  nra.
Qed.

(** While the direction marker is null and the aiming flag is down (the
    state after construction and after [resetAim]), every tick succeeds, the
    target angle is 0 from the first tick on, each tick shrinks the distance
    of the current angle to the centre by the smoothing factor (exponential
    decay), a tick whose moved angle is within the 0.1 degree epsilon leaves
    the angle at exactly 0, and after finitely many ticks the current angle
    is 0 and stays there. *)
Theorem recentering (w : World) :
  released (aim w) ->
  let angle := fun n => currentAngle (aim (exec (ticks n) w)) in
  (forall n, fst (run (ticks n) w) = Normal tt) /\
  (forall n, (0 < n)%nat -> targetAngle (aim (exec (ticks n) w)) = 0%Q) /\
  (forall n, Qabs (angle (S n)) <=
             Qabs (angle n) * (1 - AimSystem.ANGLE_SMOOTHING))%Q /\
  (forall n, Qabs (angle n) * (1 - AimSystem.ANGLE_SMOOTHING) <
             AimSystem.SNAP_EPSILON -> angle (S n) == 0)%Q /\
  exists N, forall n, (N <= n)%nat -> (angle n == 0)%Q.
Proof.
  intros Hr angle; subst angle; cbv beta.
  repeat split.
  - intros n; apply ticks_aim.
  - intros [|n] Hn; [lia|].
    rewrite (proj2 (ticks_aim (S n) w)).
    change (Nat.iter (S n) tick_aim (aim w))
      with (tick_aim (Nat.iter n tick_aim (aim w))).
    now apply tick_released, iter_released.
  - intros n; rewrite !(proj2 (ticks_aim _ w)).
    change (Nat.iter (S n) tick_aim (aim w))
      with (tick_aim (Nat.iter n tick_aim (aim w))).
    now apply tick_contracts, iter_released.
  - intros n; rewrite !(proj2 (ticks_aim _ w)).
    change (Nat.iter (S n) tick_aim (aim w))
      with (tick_aim (Nat.iter n tick_aim (aim w))).
    now apply tick_snaps, iter_released.
  - destruct (released_reaches_zero (aim w) Hr) as [N HN].
    exists N; intros n Hn; rewrite (proj2 (ticks_aim n w)); now apply HN.
Qed.

Lemma recentering_witness :
  released (aim tilted_world) /\
  exists N, forall n, (N <= n)%nat ->
    (currentAngle (aim (exec (ticks n) tilted_world)) == 0)%Q.
Proof.
  split; [split; reflexivity|].
  apply (recentering tilted_world); split; reflexivity.
Defined.

(** From a fifth of a degree the centre is reached at the seventh tick. *)
Lemma recentering_from_a_fifth :
  let w := set_aim (AimSystem.with_current (1 # 5)%Q) gameplay_world in
  ~ (currentAngle (aim (exec (ticks 6) w)) == 0)%Q /\
  (currentAngle (aim (exec (ticks 7) w)) == 0)%Q.
Proof. split; vm_compute; [discriminate | reflexivity]. Qed.

(** After a key press the direction marker stays set: the code has no
    key-up handler for the arrow keys, only [resetAim] clears the marker.
    Ticks alone then hold the target at the nudged angle, and the current
    angle, having left 0 at the first tick, stays at a distance from it. *)
Lemma direction_marker_outlives_press :
  let w := exec (at_time 1000 (InputSystem.handleDirectionalInput left))
                gameplay_world in
  inputDirection (aim w) = Some left /\ isAiming (aim w) = true /\
  forall n, (0 < n)%nat ->
    let a := aim (exec (ticks n) w) in
    inputDirection a = Some left /\ (targetAngle a == -2)%Q /\
    (-2 <= currentAngle a /\ currentAngle a <= - (2 # 10))%Q.
Proof.
  cbv zeta.
  set (w := exec (at_time 1000 (InputSystem.handleDirectionalInput left))
                 gameplay_world).
  assert (Hd : inputDirection (aim w) = Some left) by (vm_compute; reflexivity).
  assert (Ha : isAiming (aim w) = true) by (vm_compute; reflexivity).
  assert (Ht : (targetAngle (aim w) == -2)%Q) by (vm_compute; reflexivity).
  assert (Hc : (currentAngle (aim w) == 0)%Q) by (vm_compute; reflexivity).
  split; [exact Hd|]; split; [exact Ha|].
  intros n Hn; rewrite (proj2 (ticks_aim n w)).
  generalize dependent (aim w); clear w; intros a Hd Ha Ht Hc.
  assert (Hstep : forall b, inputDirection b = Some left -> isAiming b = true ->
            (targetAngle b == -2)%Q -> (-2 <= currentAngle b /\ currentAngle b <= 0)%Q ->
            inputDirection (tick_aim b) = Some left /\ isAiming (tick_aim b) = true /\
            (targetAngle (tick_aim b) == -2)%Q /\
            (-2 <= currentAngle (tick_aim b) /\ currentAngle (tick_aim b) <= - (2 # 10))%Q).
  { intros b Hbd Hba Hbt [Hb1 Hb2]; unfold tick_aim.
    rewrite Hba; simpl.
    destruct (Qeq_bool (currentAngle b) (targetAngle b)) eqn:E; simpl.
    - apply Qeq_bool_iff in E; repeat split; auto; lra.
    - unfold AimSystem.smooth, AimSystem.ANGLE_SMOOTHING.
      destruct (Qltb _ _); simpl; repeat split; auto; lra. }
  destruct n as [|n]; [lia|]; clear Hn.
  induction n as [|n IH].
  - destruct (Hstep a Hd Ha Ht) as (? & ? & ? & ?); [lra|]; auto.
  - change (Nat.iter (S (S n)) tick_aim a)
      with (tick_aim (Nat.iter (S n) tick_aim a)).
    destruct IH as (H1 & H2 & H3).
    assert (H4 : isAiming (Nat.iter (S n) tick_aim a) = true).
    { clear -Ha; induction n as [|n IHn].
      - simpl; unfold tick_aim; rewrite Ha; simpl.
        destruct (negb _); simpl; exact Ha.
      - change (Nat.iter (S (S n)) tick_aim a)
          with (tick_aim (Nat.iter (S n) tick_aim a)).
        unfold tick_aim at 1; rewrite IHn; simpl.
        destruct (negb _); simpl; exact IHn. }
    destruct (Hstep _ H1 H4 H2) as (? & ? & ? & ?); [lra|]; auto.
Qed.

(** ** Aim clamping *)

Lemma in_range_zero : in_range 0.
Proof. split; vm_compute; discriminate. Qed.

Lemma in_range_nudge_left (c : Q) :
  in_range c -> in_range (Qmax (c - AimSystem.ANGLE_STEP) AimSystem.MIN_ANGLE).
Proof.
  unfold in_range, AimSystem.ANGLE_STEP, AimSystem.MIN_ANGLE, AimSystem.MAX_ANGLE.
  intros [Hlo Hhi]; split.
  - apply Q.le_max_r.
  - apply Q.max_lub; lra.
Qed.

Lemma in_range_nudge_right (c : Q) :
  in_range c -> in_range (Qmin (c + AimSystem.ANGLE_STEP) AimSystem.MAX_ANGLE).
Proof.
  unfold in_range, AimSystem.ANGLE_STEP, AimSystem.MIN_ANGLE, AimSystem.MAX_ANGLE.
  intros [Hlo Hhi]; split.
  - apply Q.min_glb; lra.
  - apply Q.le_min_r.
Qed.

Lemma in_range_smooth (c t : Q) :
  in_range c -> in_range t -> in_range (AimSystem.smooth c t).
Proof.
  unfold in_range, AimSystem.smooth, AimSystem.ANGLE_SMOOTHING,
    AimSystem.MIN_ANGLE, AimSystem.MAX_ANGLE.
  intros [Hc1 Hc2] [Ht1 Ht2].
  destruct (Qltb _ _); split; lra.
Qed.

Lemma in_range_Clamp (v : Q) :
  in_range (AimSystem.Clamp v AimSystem.MIN_ANGLE AimSystem.MAX_ANGLE).
Proof.
  unfold in_range, AimSystem.Clamp; split.
  - apply Q.le_max_l.
  - apply Q.max_lub; [vm_compute; discriminate | apply Q.le_min_l].
Qed.

Create HintDb angles.
#[local] Hint Resolve in_range_zero in_range_nudge_left in_range_nudge_right
  in_range_smooth in_range_Clamp : angles.

Lemma tick_aim_in_range (a : AimSt) : aim_in_range a -> aim_in_range (tick_aim a).
Proof.
  unfold aim_in_range, tick_aim; intros [Hc Ht].
  destruct (negb (isAiming a) && bool_decide (inputDirection a = None)); simpl.
  - destruct (Qeq_bool (currentAngle a) 0); simpl; split;
      auto with angles.
  - destruct (Qeq_bool (currentAngle a) (targetAngle a)); simpl; split;
      auto with angles.
Qed.

Lemma setAimDirection_in_range (d : Direction) (w : World) :
  aim_in_range (aim w) -> aim_in_range (aim (exec (AimSystem.setAimDirection d) w)).
Proof.
  unfold aim_in_range; intros [Hc Ht].
  unfold AimSystem.setAimDirection, HandoverManager.performAction, AimSystem.nudge.
  js_unfold; simpl.
  destruct (negb (bool_decide (inputDirection (aim w) = Some d))); simpl;
    [destruct (_ <? _); simpl; [now split|]|];
    destruct (HandoverManager.isActionAllowed _ _); simpl;
    try (now split);
    destruct d; simpl; split;
    auto with angles.
Qed.

Lemma setAimDirection_no_throw (d : Direction) (w : World) :
  fst (run (AimSystem.setAimDirection d) w) = Normal tt.
Proof.
  unfold AimSystem.setAimDirection, HandoverManager.performAction, AimSystem.nudge.
  js_unfold; simpl.
  destruct (negb (bool_decide (inputDirection (aim w) = Some d))); simpl;
    [destruct (_ <? _); simpl; [reflexivity|]|];
    destruct (HandoverManager.isActionAllowed _ _); reflexivity.
Qed.

Lemma handleDirectionalInput_in_range (d : Direction) (w : World) :
  aim_in_range (aim w) ->
  aim_in_range (aim (exec (InputSystem.handleDirectionalInput d) w)).
Proof.
  intros Hr.
  unfold InputSystem.handleDirectionalInput, HandoverManager.performAction, emit,
    run_listeners.
  js_unfold; simpl.
  destruct (bool_decide _); simpl; [exact Hr|].
  destruct (InputSystem.isRapidDirectionChange _ _); simpl; [exact Hr|].
  destruct (HandoverManager.isActionAllowed _ _); simpl; [|exact Hr].
  match goal with
  | |- context [AimSystem.setAimDirection d ?w2] =>
      pose proof (setAimDirection_in_range d w2 Hr) as H2;
      pose proof (setAimDirection_no_throw d w2) as H3;
      unfold exec, run in H2, H3;
      destruct (AimSystem.setAimDirection d w2) as [[[]|e] w3]
  end; simpl in *; [exact H2 | discriminate].
Qed.

Lemma aim_input_in_range (i : AimInput) (w : World) :
  aim_in_range (aim w) -> aim_in_range (aim (exec (aim_input i) w)).
Proof.
  intros Hr; destruct i as [now d|now d|now| |lo hi|s]; simpl.
  - apply (handleDirectionalInput_in_range d (set_clock now w) Hr).
  - apply (setAimDirection_in_range d (set_clock now w) Hr).
  - change (aim_in_range (aim (exec AimSystem.update (set_clock now w)))).
    rewrite (proj2 (update_aim _)); now apply tick_aim_in_range.
  - exact Hr.
  - split; simpl; auto with angles.
  - unfold exec, bind.
    assert (Ha : forall m, aim (snd (Handover.onCurrentSession m w)) = aim w).
    { intros m; unfold Handover.onCurrentSession; js_unfold; simpl.
      destruct (Handover.truthy_id _); [|reflexivity].
      destruct (Handover.getCurrentSession _); reflexivity. }
    destruct s as [name|index]; simpl; unfold Handover.setStageByName;
      match goal with
      | |- context [Handover.onCurrentSession ?m w] =>
          specialize (Ha m); destruct (Handover.onCurrentSession m w) as [[b|e] w1]
      end; simpl in *; now rewrite Ha.
Qed.

(** C6: whatever sequence of key presses, nudges, frame ticks and other
    inputs reaches the aim machine, and whatever the gate allows meanwhile,
    [currentAngle] and [targetAngle] stay within [-80, 80] when they start
    there. *)
Theorem aim_stays_in_range (l : list AimInput) (w : World) :
  aim_in_range (aim w) -> aim_in_range (aim (exec (aim_inputs l) w)).
Proof.
  revert w; induction l as [|i l IH]; intros w Hr; [exact Hr|].
  pose proof (aim_input_in_range i w Hr) as Hi.
  cbn [aim_inputs]; unfold exec, bind in *.
  destruct (aim_input i w) as [[[]|e] w1]; simpl in *; [now apply IH | exact Hi].
Qed.

Lemma aim_stays_in_range_witness :
  aim_in_range (aim near_bound_world) /\
  aim_in_range (aim (exec (aim_inputs
    [Press 1000 right; Tick 1016; Nudge 1200 right; Tick 1216;
     Press 1400 right; Tick 1416; Press 1600 left; Tick 1616])
    near_bound_world)).
Proof.
  assert (H : aim_in_range (aim near_bound_world))
    by (repeat split; vm_compute; discriminate).
  split; [exact H | apply (aim_stays_in_range _ near_bound_world H)].
Defined.

(** The clamp is what keeps the target inside: half a degree short of the
    bound, a nudge to the right asks for 81.5 degrees and gets 80. *)
Lemma nudge_past_bound_is_clamped :
  let w := exec (at_time 1000 (AimSystem.setAimDirection right)) near_bound_world in
  (currentAngle (aim near_bound_world) + AimSystem.ANGLE_STEP == 163 # 2)%Q /\
  (targetAngle (aim w) == 80)%Q /\ isAiming (aim w) = true.
Proof. vm_compute; repeat split. Qed.

(** ** The directional buffer *)

Lemma opposite_involutive (d : Direction) :
  InputSystem.opposite (InputSystem.opposite d) = d.
Proof. now destruct d. Qed.

Lemma opposite_neq (d : Direction) : InputSystem.opposite d <> d.
Proof. now destruct d. Qed.

Lemma neq_opposite (d : Direction) : d <> InputSystem.opposite d.
Proof. now destruct d. Qed.

Lemma last_tail_long {A : Type} (l : list A) :
  (2 <= length l)%nat -> last (tail l) = last l.
Proof. destruct l as [|x [|y l]]; simpl; intros; [lia | lia | reflexivity]. Qed.

Lemma last_Some_nonempty {A : Type} (l : list A) (x : A) :
  last l = Some x -> (js_length l =? 0) = false.
Proof. destruct l; [discriminate|]; intros _; unfold js_length; simpl; lia. Qed.

(** The press is the newest entry of its own buffer, also when the oldest
    entry was evicted to make room. *)
Lemma record_press_last (d : Direction) (now : Z) (i : InputSt) :
  last (inputBuffer (InputSystem.record_press d now i) d) = Some now.
Proof.
  unfold InputSystem.record_press, InputSystem.shift; simpl.
  rewrite (bool_decide_eq_true_2 (d = d)) by reflexivity.
  destruct (_ >? _) eqn:E; simpl.
  - rewrite !(bool_decide_eq_true_2 (d = d)) by reflexivity.
    rewrite last_tail_long; [apply last_snoc|].
    apply Z.gtb_lt in E; unfold js_length, InputSystem.BUFFER_SIZE in E.
    rewrite length_app in *; simpl in *; lia.
  - rewrite (bool_decide_eq_true_2 (d = d)) by reflexivity; apply last_snoc.
Qed.

Lemma record_press_other (d d' : Direction) (now : Z) (i : InputSt) :
  d' <> d ->
  inputBuffer (InputSystem.record_press d now i) d' = inputBuffer i d'.
Proof.
  intros Hne; unfold InputSystem.record_press; simpl.
  destruct (_ >? _); simpl; now rewrite !(bool_decide_eq_false_2 (d' = d)).
Qed.

Lemma record_press_disabledKeys (d : Direction) (now : Z) (i : InputSt) :
  disabledKeys (InputSystem.record_press d now i) = disabledKeys i.
Proof. unfold InputSystem.record_press; destruct (_ >? _); reflexivity. Qed.

(** The buffer never outgrows its capacity. *)
Lemma record_press_capacity (d : Direction) (now : Z) (i : InputSt) :
  js_length (inputBuffer i d) <= InputSystem.BUFFER_SIZE ->
  js_length (inputBuffer (InputSystem.record_press d now i) d)
  <= InputSystem.BUFFER_SIZE.
Proof.
  unfold InputSystem.record_press, InputSystem.shift, InputSystem.BUFFER_SIZE,
    js_length; simpl.
  rewrite (bool_decide_eq_true_2 (d = d)) by reflexivity.
  intros Hcap; destruct (_ >? _) eqn:E; simpl;
    rewrite ?(bool_decide_eq_true_2 (d = d)) by reflexivity.
  - destruct (inputBuffer i d) as [|x l]; simpl in *; [lia|].
    rewrite length_app; simpl; lia.
  - lia.
Qed.

(** The rapid-reversal test, read off the newest entries of both buffers. *)
Lemma isRapidDirectionChange_spec (i : InputSt) (d : Direction) (tc to : Z) :
  last (inputBuffer i d) = Some tc ->
  last (inputBuffer i (InputSystem.opposite d)) = Some to ->
  InputSystem.isRapidDirectionChange i d =
  (Z.abs (tc - to) <? InputSystem.RAPID_THRESHOLD_MS).
Proof.
  intros Hc Ho; unfold InputSystem.isRapidDirectionChange.
  now rewrite (last_Some_nonempty _ _ Ho), Hc, Ho.
Qed.

(** [setAimDirection] touches the aim machine and the console only. *)
Lemma setAimDirection_frame (d : Direction) (w : World) :
  let w' := exec (AimSystem.setAimDirection d) w in
  input w' = input w /\ handover w' = handover w /\ events w' = events w /\
  clock w' = clock w.
Proof.
  unfold AimSystem.setAimDirection, HandoverManager.performAction, AimSystem.nudge.
  js_unfold; simpl.
  destruct (negb (bool_decide (inputDirection (aim w) = Some d))); simpl;
    [destruct (_ <? _); simpl; [repeat split|]|];
    destruct (HandoverManager.isActionAllowed _ _); repeat split.
Qed.

Lemma aim_request_frame (d : Direction) (w : World) :
  let w' := exec (aim_request d) w in
  fst (run (aim_request d) w) = Normal tt /\
  input w' = input w /\ handover w' = handover w /\ clock w' = clock w /\
  (current_allowed (handover w) "aim" ->
     events w' = events w ++ [mkEvent ("input-aim-" +:+ direction_name d) NoData]) /\
  (~ current_allowed (handover w) "aim" -> events w' = events w).
Proof.
  unfold aim_request, HandoverManager.performAction, emit, run_listeners.
  unfold HandoverManager.isActionAllowed.
  js_unfold; simpl.
  destruct (Handover.isActionAllowed (handover w) "aim") eqn:Hal; simpl.
  - match goal with
    | |- context [AimSystem.setAimDirection d ?w2] =>
        pose proof (setAimDirection_frame d w2) as (Hi & Hh & He & Hc);
        pose proof (setAimDirection_no_throw d w2) as Hn;
        unfold exec, run in *;
        destruct (AimSystem.setAimDirection d w2) as [[[]|e] w3]
    end; simpl in *; [|discriminate].
    repeat split; auto.
    intros Hno; exfalso; apply Hno, isActionAllowed_spec, Hal.
  - repeat split; auto.
    intros Hyes; apply isActionAllowed_spec in Hyes; congruence.
Qed.

(** A press on an enabled key is recorded first; then it is either dropped
    by the rapid-reversal test or handed to the gate. *)
Lemma handleDirectionalInput_cases (d : Direction) (w : World) :
  direction_name d ∉ disabledKeys (input w) ->
  run (InputSystem.handleDirectionalInput d) w =
  let w1 := set_input (InputSystem.record_press d (clock w)) w in
  if InputSystem.isRapidDirectionChange (input w1) d
  then (Normal tt, w1)
  else run (aim_request d) w1.
Proof.
  intros Hen; unfold InputSystem.handleDirectionalInput, aim_request.
  js_unfold; simpl.
  rewrite (bool_decide_eq_false_2 _ Hen).
  destruct (InputSystem.isRapidDirectionChange _ _); reflexivity.
Qed.

Lemma handleDirectionalInput_frame (d : Direction) (w : World) :
  direction_name d ∉ disabledKeys (input w) ->
  let w' := exec (InputSystem.handleDirectionalInput d) w in
  fst (run (InputSystem.handleDirectionalInput d) w) = Normal tt /\
  input w' = InputSystem.record_press d (clock w) (input w) /\
  handover w' = handover w /\ clock w' = clock w.
Proof.
  intros Hen; cbv zeta; unfold exec.
  change (InputSystem.handleDirectionalInput d w)
    with (run (InputSystem.handleDirectionalInput d) w).
  rewrite (handleDirectionalInput_cases d w Hen); cbv zeta.
  destruct (InputSystem.isRapidDirectionChange _ _); [repeat split|].
  pose proof (aim_request_frame d
    (set_input (InputSystem.record_press d (clock w)) w)) as (Hn & Hi & Hh & Hc & _).
  repeat split; assumption.
Qed.

(** C8: with both arrow keys enabled, a press of one direction at time [t]
    followed by a press of the opposite direction at [t + 20] leaves the
    second press suppressed: it returns after recording its timestamp, the
    gate is not asked and the event log and console are as before.  A press
    of that opposite direction at [t + 100] passes the filter and is handed
    to the gate; when the gate allows aiming its event is emitted. *)
Theorem reversal_suppressed_then_accepted (w : World) (d : Direction) (t : Z) :
  direction_name d ∉ disabledKeys (input w) ->
  direction_name (InputSystem.opposite d) ∉ disabledKeys (input w) ->
  let back := InputSystem.opposite d in
  let w1 := exec (at_time t (InputSystem.handleDirectionalInput d)) w in
  let w2 := exec (at_time (t + 20) (InputSystem.handleDirectionalInput back)) w1 in
  let w3 := exec (at_time (t + 100) (InputSystem.handleDirectionalInput back)) w2 in
  run (at_time (t + 20) (InputSystem.handleDirectionalInput back)) w1 =
    (Normal tt,
     set_input (InputSystem.record_press back (t + 20)) (set_clock (t + 20) w1)) /\
  events w2 = events w1 /\ console w2 = console w1 /\
  run (at_time (t + 100) (InputSystem.handleDirectionalInput back)) w2 =
    run (aim_request back)
        (set_input (InputSystem.record_press back (t + 100))
                   (set_clock (t + 100) w2)) /\
  (current_allowed (handover w) "aim" ->
     events w3 =
     events w2 ++ [mkEvent ("input-aim-" +:+ direction_name back) NoData]).
Proof.
  intros Hd Hb back w1 w2 w3.
  (* the first press *)
  pose proof (handleDirectionalInput_frame d (set_clock t w) Hd)
    as (_ & Hi1 & Hh1 & _).
  change (exec (InputSystem.handleDirectionalInput d) (set_clock t w)) with w1
    in Hi1, Hh1.
  simpl in Hi1, Hh1.
  (* the second press *)
  assert (Hb1 : direction_name back ∉ disabledKeys (input (set_clock (t + 20) w1))).
  { simpl; rewrite Hi1, record_press_disabledKeys; exact Hb. }
  assert (Hrapid : InputSystem.isRapidDirectionChange
            (InputSystem.record_press back (t + 20) (input w1)) back = true).
  { rewrite (isRapidDirectionChange_spec _ _ (t + 20) t).
    - unfold InputSystem.RAPID_THRESHOLD_MS; apply Z.ltb_lt; lia.
    - apply record_press_last.
    - unfold back; rewrite opposite_involutive.
      rewrite record_press_other by apply neq_opposite.
      rewrite Hi1; apply record_press_last. }
  assert (E2 : run (at_time (t + 20) (InputSystem.handleDirectionalInput back)) w1 =
               (Normal tt, set_input (InputSystem.record_press back (t + 20))
                                     (set_clock (t + 20) w1))).
  { unfold at_time; js_unfold; simpl.
    change (InputSystem.handleDirectionalInput back (set_clock (t + 20) w1))
      with (run (InputSystem.handleDirectionalInput back) (set_clock (t + 20) w1)).
    rewrite (handleDirectionalInput_cases back _ Hb1); cbv zeta; simpl.
    now rewrite Hrapid. }
  assert (Ew2 : w2 = set_input (InputSystem.record_press back (t + 20))
                               (set_clock (t + 20) w1)).
  { unfold w2, exec; unfold run in E2; now rewrite E2. }
  (* the third press *)
  assert (Hb2 : direction_name back ∉ disabledKeys (input (set_clock (t + 100) w2))).
  { rewrite Ew2; simpl.
    rewrite record_press_disabledKeys, Hi1, record_press_disabledKeys; exact Hb. }
  assert (Hslow : InputSystem.isRapidDirectionChange
            (InputSystem.record_press back (t + 100) (input w2)) back = false).
  { rewrite (isRapidDirectionChange_spec _ _ (t + 100) t).
    - unfold InputSystem.RAPID_THRESHOLD_MS; apply Z.ltb_ge; lia.
    - apply record_press_last.
    - unfold back; rewrite opposite_involutive.
      rewrite record_press_other by apply neq_opposite.
      rewrite Ew2; simpl.
      rewrite record_press_other by apply neq_opposite.
      rewrite Hi1; apply record_press_last. }
  assert (E3 : run (at_time (t + 100) (InputSystem.handleDirectionalInput back)) w2 =
               run (aim_request back)
                   (set_input (InputSystem.record_press back (t + 100))
                              (set_clock (t + 100) w2))).
  { unfold at_time; js_unfold; simpl.
    change (InputSystem.handleDirectionalInput back (set_clock (t + 100) w2))
      with (run (InputSystem.handleDirectionalInput back) (set_clock (t + 100) w2)).
    rewrite (handleDirectionalInput_cases back _ Hb2); cbv zeta; simpl.
    now rewrite Hslow. }
  split; [exact E2|].
  split; [now rewrite Ew2|].
  split; [now rewrite Ew2|].
  split; [exact E3|].
  intros Hal.
  unfold w3, exec; unfold run in E3; rewrite E3.
  pose proof (aim_request_frame back
    (set_input (InputSystem.record_press back (t + 100)) (set_clock (t + 100) w2)))
    as (_ & _ & _ & _ & Hev & _).
  apply Hev; simpl.
  rewrite Ew2; simpl; now rewrite Hh1.
Qed.

Lemma reversal_suppressed_then_accepted_witness :
  (direction_name left ∉ disabledKeys (input gameplay_world)) /\
  (direction_name right ∉ disabledKeys (input gameplay_world)) /\
  let w1 := exec (at_time 1000 (InputSystem.handleDirectionalInput left))
                 gameplay_world in
  let w2 := exec (at_time 1020 (InputSystem.handleDirectionalInput right)) w1 in
  let w3 := exec (at_time 1100 (InputSystem.handleDirectionalInput right)) w2 in
  events w2 = events w1 /\
  events w3 = events w2 ++ [mkEvent "input-aim-right" NoData].
Proof.
  assert (Hl : direction_name left ∉ disabledKeys (input gameplay_world))
    by (apply (proj1 (bool_decide_eq_false _)); vm_compute; reflexivity).
  assert (Hr : direction_name right ∉ disabledKeys (input gameplay_world))
    by (apply (proj1 (bool_decide_eq_false _)); vm_compute; reflexivity).
  assert (Hal : current_allowed (handover gameplay_world) "aim")
    by (apply isActionAllowed_spec; vm_compute; reflexivity).
  split; [exact Hl|]; split; [exact Hr|].
  destruct (reversal_suppressed_then_accepted gameplay_world left 1000 Hl Hr)
    as (_ & He2 & _ & _ & He3).
  split; [exact He2 | exact (He3 Hal)].
Defined.

(** C10: every press of an enabled arrow key puts its timestamp at the end
    of that direction's buffer before the rapid-reversal test, within the
    buffer's capacity, and does so also when the test then drops the press.
    A press of the opposite direction arriving less than 50 ms from it is
    therefore suppressed, in particular when the first press was itself
    dropped. *)
Theorem suppressed_press_is_recorded (w : World) (d : Direction) (t1 t2 : Z) :
  direction_name d ∉ disabledKeys (input w) ->
  direction_name (InputSystem.opposite d) ∉ disabledKeys (input w) ->
  Z.abs (t2 - t1) < InputSystem.RAPID_THRESHOLD_MS ->
  let back := InputSystem.opposite d in
  let r1 := run (at_time t1 (InputSystem.handleDirectionalInput d)) w in
  let r2 := run (at_time t2 (InputSystem.handleDirectionalInput back)) (snd r1) in
  last (inputBuffer (input (snd r1)) d) = Some t1 /\
  (js_length (inputBuffer (input w) d) <= InputSystem.BUFFER_SIZE ->
   js_length (inputBuffer (input (snd r1)) d) <= InputSystem.BUFFER_SIZE) /\
  (InputSystem.isRapidDirectionChange
     (InputSystem.record_press d t1 (input w)) d = true ->
   r1 = (Normal tt, set_input (InputSystem.record_press d t1) (set_clock t1 w))) /\
  r2 = (Normal tt,
        set_input (InputSystem.record_press back t2) (set_clock t2 (snd r1))).
Proof.
  intros Hd Hb Hwin back r1 r2.
  pose proof (handleDirectionalInput_frame d (set_clock t1 w) Hd)
    as (_ & Hi1 & _ & _).
  assert (Er1 : snd r1 = exec (InputSystem.handleDirectionalInput d) (set_clock t1 w))
    by reflexivity.
  rewrite <- Er1 in Hi1; simpl in Hi1.
  split; [rewrite Hi1; apply record_press_last|].
  split; [rewrite Hi1; apply record_press_capacity|].
  split.
  - intros Hrapid; unfold r1, at_time; js_unfold; simpl.
    change (InputSystem.handleDirectionalInput d (set_clock t1 w))
      with (run (InputSystem.handleDirectionalInput d) (set_clock t1 w)).
    rewrite (handleDirectionalInput_cases d (set_clock t1 w) Hd); cbv zeta; simpl.
    now rewrite Hrapid.
  - assert (Hb1 : direction_name back ∉ disabledKeys (input (set_clock t2 (snd r1)))).
    { simpl; rewrite Hi1, record_press_disabledKeys; exact Hb. }
    unfold r2, at_time; js_unfold; simpl.
    change (InputSystem.handleDirectionalInput back (set_clock t2 (snd r1)))
      with (run (InputSystem.handleDirectionalInput back) (set_clock t2 (snd r1))).
    rewrite (handleDirectionalInput_cases back _ Hb1); cbv zeta; simpl.
    rewrite (isRapidDirectionChange_spec _ _ t2 t1).
    + now rewrite (proj2 (Z.ltb_lt _ _) Hwin).
    + apply record_press_last.
    + unfold back; rewrite opposite_involutive.
      rewrite record_press_other by apply neq_opposite.
      rewrite Hi1; apply record_press_last.
Qed.

Lemma suppressed_press_is_recorded_witness :
  let w := exec (at_time 1000 (InputSystem.handleDirectionalInput left))
                gameplay_world in
  let r1 := run (at_time 1020 (InputSystem.handleDirectionalInput right)) w in
  let r2 := run (at_time 1060 (InputSystem.handleDirectionalInput left)) (snd r1) in
  InputSystem.isRapidDirectionChange
    (InputSystem.record_press right 1020 (input w)) right = true /\
  inputBuffer (input (snd r1)) right = [1020] /\
  events (snd r1) = events w /\
  r2 = (Normal tt,
        set_input (InputSystem.record_press left 1060) (set_clock 1060 (snd r1))).
Proof.
  cbv zeta.
  set (w := exec (at_time 1000 (InputSystem.handleDirectionalInput left))
                 gameplay_world).
  assert (Hr : direction_name right ∉ disabledKeys (input w))
    by (apply (proj1 (bool_decide_eq_false _)); vm_compute; reflexivity).
  assert (Hl : direction_name (InputSystem.opposite right) ∉ disabledKeys (input w))
    by (apply (proj1 (bool_decide_eq_false _)); vm_compute; reflexivity).
  assert (Hwin : Z.abs (1060 - 1020) < InputSystem.RAPID_THRESHOLD_MS)
    by (vm_compute; reflexivity).
  destruct (suppressed_press_is_recorded w right 1020 1060 Hr Hl Hwin)
    as (_ & _ & _ & H2).
  split; [vm_compute; reflexivity|].
  split; [vm_compute; reflexivity|].
  split; [vm_compute; reflexivity|].
  exact H2.
Defined.

(** * Further properties of the code *)

(** ** The session registry *)

(** What a session method called through the gate does to the world: with
    a current session the method's result is returned and the object is
    replaced in the registry, nothing else changes; without one the call
    returns false and changes nothing. *)
Lemma onCurrentSession_cases (method : Session.t -> bool * Session.t) (w : World) :
  match Handover.getCurrentSession (handover w) with
  | Some session =>
      exists i,
        Handover.truthy_id (currentSessionId (handover w)) = Some i /\
        sessions (handover w) !! i = Some session /\
        run (Handover.onCurrentSession method) w =
        (Normal (fst (method session)),
         set_handover (fun h =>
           mkHandover (initialized h) (defaultRoadmap h)
                      (<[i := snd (method session)]> (sessions h))
                      (currentSessionId h)) w)
  | None => run (Handover.onCurrentSession method) w = (Normal false, w)
  end.
Proof.
  unfold Handover.onCurrentSession, Handover.getCurrentSession; js_unfold; simpl.
  destruct (Handover.truthy_id (currentSessionId (handover w))) as [i|] eqn:Hi;
    [|reflexivity].
  destruct (sessions (handover w) !! i) as [session|] eqn:Hs; [|reflexivity].
  exists i; auto.
Qed.

Lemma getCurrentSession_after_update (h : HandoverSt) (i : string) (s' : Session.t) :
  Handover.truthy_id (currentSessionId h) = Some i ->
  Handover.getCurrentSession
    (mkHandover (initialized h) (defaultRoadmap h) (<[i := s']> (sessions h))
                (currentSessionId h)) = Some s'.
Proof.
  intros Hi; unfold Handover.getCurrentSession; simpl; rewrite Hi.
  apply lookup_insert_eq.
Qed.

(** X1: for every key other than ['__proto__'] (under which a plain object
    stores no entry), [setSessionState] followed by [getSessionState] on
    that key gives the value back, a read of any other key gives what it
    gave before, the stage and the other sessions of the registry are
    untouched; without a current session the call changes nothing. *)
Theorem session_state_round_trip (key : string) (value : Any) (w : World) :
  key <> "__proto__" ->
  let r := run (HandoverManager.setSessionState key value) w in
  fst r = Normal tt /\
  (Handover.getCurrentSession (handover w) = None -> snd r = w) /\
  (forall session, Handover.getCurrentSession (handover w) = Some session ->
     HandoverManager.getSessionState (snd r) key = Some value /\
     (forall k, k <> key ->
        HandoverManager.getSessionState (snd r) k = Session.getState session k) /\
     HandoverManager.getCurrentStage (snd r) = HandoverManager.getCurrentStage w /\
     (forall j, Handover.truthy_id (currentSessionId (handover w)) <> Some j ->
        sessions (handover (snd r)) !! j = sessions (handover w) !! j)).
Proof.
  intros _; cbv zeta; unfold HandoverManager.setSessionState.
  pose proof (onCurrentSession_cases
    (fun s => (true, Session.setState s key value)) w) as Hc.
  unfold run, bind, ret in *.
  destruct (Handover.getCurrentSession (handover w)) as [session|] eqn:Hs.
  - destruct Hc as (i & Hi & Hl & ->); simpl.
    split; [reflexivity|]; split; [discriminate|].
    intros s' [= <-].
    unfold HandoverManager.getSessionState, HandoverManager.getCurrentStage,
      Handover.getCurrentStage; simpl.
    rewrite (getCurrentSession_after_update _ i _ Hi), Hs.
    repeat split.
    + apply lookup_insert_eq.
    + intros k Hk; unfold Session.getState; simpl.
      now apply lookup_insert_ne.
    + intros j Hj; apply lookup_insert_ne; congruence.
  - rewrite Hc; simpl; repeat split; congruence.
Qed.

Lemma session_state_round_trip_witness :
  let w := exec (HandoverManager.setSessionState "score" (AnyNum 3)) menu_world in
  HandoverManager.getSessionState w "score" = Some (AnyNum 3) /\
  HandoverManager.getSessionState w "startTime" = None /\
  stage_name w = Some "MainMenu".
Proof.
  cbv zeta.
  destruct (session_state_round_trip "score" (AnyNum 3) menu_world)
    as (_ & _ & H); [discriminate|].
  destruct (H (Session.new "s" HandoverFactory.createGameRoadmap) eq_refl)
    as (H1 & H2 & H3 & _).
  unfold exec; unfold run in H1, H2, H3.
  split; [exact H1|]; split.
  - now rewrite (H2 "startTime") by discriminate.
  - unfold stage_name; now rewrite H3.
Defined.

Lemma truthy_id_nonempty (j : string) :
  j <> "" -> Handover.truthy_id (Some j) = Some j.
Proof. intros Hj; unfold Handover.truthy_id; now rewrite bool_decide_eq_false_2. Qed.

Lemma truthy_id_Some (o : option string) (i : string) :
  Handover.truthy_id o = Some i -> o = Some i /\ i <> "".
Proof.
  unfold Handover.truthy_id; destruct o as [c|]; [|discriminate].
  destruct (bool_decide_reflect (c = "")); [discriminate|].
  intros [= <-]; auto.
Qed.

(** X2: [endSession()] on the current session removes it from the
    registry, leaves every other entry as it was, clears the pointer and
    thereby closes the gate: every action is refused and stage navigation
    returns false without effect.  Without a current session it returns
    false and changes nothing.  Ending another registered session by its id
    removes that one only and leaves the current session in place. *)
Theorem endSession_closes_gate (w : World) :
  let r := run (Handover.endSession None) w in
  (Handover.getCurrentSession (handover w) = None -> r = (Normal false, w)) /\
  (forall session, Handover.getCurrentSession (handover w) = Some session ->
     fst r = Normal true /\
     currentSessionId (handover (snd r)) = None /\
     Handover.getCurrentSession (handover (snd r)) = None /\
     (forall i, currentSessionId (handover w) = Some i ->
        sessions (handover (snd r)) !! i = None /\
        forall j, j <> i ->
          sessions (handover (snd r)) !! j = sessions (handover w) !! j) /\
     (forall action, HandoverManager.isActionAllowed (snd r) action = false) /\
     run Handover.advanceStage (snd r) = (Normal false, snd r) /\
     (forall x, run (Handover.setStage x) (snd r) = (Normal false, snd r))) /\
  (forall j, j <> "" -> currentSessionId (handover w) <> Some j ->
     is_Some (sessions (handover w) !! j) ->
     let r' := run (Handover.endSession (Some j)) w in
     fst r' = Normal true /\
     sessions (handover (snd r')) !! j = None /\
     (forall k, k <> j ->
        sessions (handover (snd r')) !! k = sessions (handover w) !! k) /\
     Handover.getCurrentSession (handover (snd r')) =
     Handover.getCurrentSession (handover w)).
Proof.
  cbv zeta; split; [|split].
  - unfold Handover.endSession, Handover.getCurrentSession; js_unfold; simpl.
    destruct (Handover.truthy_id (currentSessionId (handover w))) as [i|] eqn:Hi;
      [|reflexivity].
    intros Hl; rewrite Hl.
    rewrite bool_decide_eq_false_2; [reflexivity | intros [? ?]; discriminate].
  - intros session.
    unfold Handover.endSession, Handover.getCurrentSession; js_unfold; simpl.
    destruct (Handover.truthy_id (currentSessionId (handover w))) as [i|] eqn:Hi;
      [|discriminate].
    intros Hl; rewrite Hl.
    rewrite bool_decide_eq_true_2 by eauto; simpl.
    destruct (truthy_id_Some _ _ Hi) as [Hp _].
    rewrite Hp, bool_decide_eq_true_2 by reflexivity.
    match goal with
    | |- context [HandoverManager.isActionAllowed ?x] => set (w' := x)
    end.
    assert (Hcur' : currentSessionId (handover w') = None).
    { unfold w'; simpl; rewrite Hp.
      now rewrite bool_decide_eq_true_2 by reflexivity. }
    assert (Hsess : Handover.getCurrentSession (handover w') = None).
    { unfold Handover.getCurrentSession; now rewrite Hcur'. }
    assert (Hnone : forall m, Handover.onCurrentSession m w' = (Normal false, w')).
    { intros m; unfold Handover.onCurrentSession; js_unfold.
      now rewrite Hcur'. }
    split; [reflexivity|]; split; [reflexivity|]; split; [reflexivity|].
    split; [|split; [|split]].
    + intros i' [= <-].
      split; [apply lookup_delete_eq|].
      intros j Hj; now apply lookup_delete_ne.
    + intros action.
      unfold HandoverManager.isActionAllowed, Handover.isActionAllowed,
        Handover.getCurrentStage.
      now rewrite Hsess.
    + apply Hnone.
    + intros [name|index]; apply Hnone.
  - intros j Hj Hcur [sj Hsj].
    unfold Handover.endSession, Handover.getCurrentSession; js_unfold.
    cbn beta; rewrite (truthy_id_nonempty j Hj).
    rewrite (truthy_id_nonempty j Hj), Hsj, bool_decide_eq_true_2 by eauto.
    simpl; rewrite (bool_decide_eq_false_2 _ Hcur).
    split; [reflexivity|]; split; [apply lookup_delete_eq|].
    split; [intros k Hk; now apply lookup_delete_ne|].
    destruct (Handover.truthy_id (currentSessionId (handover w))) as [i|] eqn:Hi;
      [|reflexivity].
    apply lookup_delete_ne.
    intros <-; apply Hcur; now apply truthy_id_Some.
Qed.

(** X3: a session started under the empty id is created and registered,
    but the empty id counts as no id: the session is not the current one,
    the gate refuses every action, [setCurrentSession('')] reports success
    without making it current, and [endSession] cannot end it, with or
    without the id. *)
Theorem empty_id_session_is_never_current
    (roadmap : option Roadmap.t) (rm : Roadmap.t) (w : World) :
  initialized (handover w) = true ->
  Handover.roadmap_or_default roadmap (handover w) = Some rm ->
  let r := run (Handover.startSession "" roadmap) w in
  fst r = Normal (Some (Session.new "" rm)) /\
  Handover.getSession (handover (snd r)) "" = Some (Session.new "" rm) /\
  Handover.getCurrentSession (handover (snd r)) = None /\
  (forall action, HandoverManager.isActionAllowed (snd r) action = false) /\
  run (Handover.setCurrentSession "") (snd r) = (Normal true, snd r) /\
  run (Handover.endSession None) (snd r) = (Normal false, snd r) /\
  run (Handover.endSession (Some "")) (snd r) = (Normal false, snd r).
Proof.
  intros Hi Hr; cbv zeta.
  unfold Handover.startSession; js_unfold; simpl.
  rewrite Hi, Hr; simpl.
  split; [reflexivity|]; split; [apply lookup_insert_eq|].
  split; [reflexivity|].
  split; [reflexivity|].
  split.
  - unfold Handover.setCurrentSession; js_unfold; simpl.
    rewrite lookup_insert_eq, bool_decide_eq_true_2 by eauto.
    reflexivity.
  - split; reflexivity.
Qed.

Lemma empty_id_session_is_never_current_witness :
  let w := exec (Handover.initialize HandoverFactory.createGameRoadmap)
                initial_world in
  let r := run (Handover.startSession "" None) w in
  Handover.getSession (handover (snd r)) "" =
    Some (Session.new "" HandoverFactory.createGameRoadmap) /\
  Handover.getCurrentSession (handover (snd r)) = None.
Proof.
  cbv zeta.
  destruct (empty_id_session_is_never_current None
              HandoverFactory.createGameRoadmap
              (exec (Handover.initialize HandoverFactory.createGameRoadmap)
                    initial_world) eq_refl eq_refl)
    as (_ & H1 & H2 & _).
  split; [exact H1 | exact H2].
Defined.

(** ** The index invariant *)

Lemma Session_new_wf (i : string) (rm : Roadmap.t) : Session_wf (Session.new i rm).
Proof.
  unfold Session_wf, Session.new, js_length; simpl.
  destruct (Roadmap.stages rm); simpl; [left; auto | right; lia].
Qed.

Lemma advanceStage_wf (s : Session.t) :
  Session_wf s -> Session_wf (snd (Session.advanceStage s)).
Proof.
  unfold Session_wf, Session.advanceStage; intros Hwf.
  destruct (Z.ltb_spec (Session.currentStageIndex s)
              (js_length (Roadmap.stages (Session.roadmap s)) - 1)); simpl;
    [right; lia | exact Hwf].
Qed.

Lemma setStage_wf (s : Session.t) (index : Z) :
  Session_wf s -> Session_wf (snd (Session.setStage s index)).
Proof.
  unfold Session_wf, Session.setStage; intros Hwf.
  destruct (Z.leb_spec 0 index); simpl; [|exact Hwf].
  destruct (Z.ltb_spec index (js_length (Roadmap.stages (Session.roadmap s))));
    simpl; [right; lia | exact Hwf].
Qed.

Lemma setStageByName_wf (s : Session.t) (name : string) :
  Session_wf s -> Session_wf (snd (Session.setStageByName s name)).
Proof.
  unfold Session_wf, Session.setStageByName, findIndex; intros Hwf.
  set (p := fun stage => bool_decide (Stage.name stage = name)).
  destruct (findIndex_from_range p (Roadmap.stages (Session.roadmap s)) 0)
    as [E|R].
  - rewrite E; simpl; exact Hwf.
  - destruct (Z.eqb_spec (findIndex_from p (Roadmap.stages (Session.roadmap s)) 0)
                (-1)); simpl; [exact Hwf | right; lia].
Qed.

Lemma registry_wf_insert (h : HandoverSt) (i : string) (s : Session.t) :
  registry_wf h -> Session_wf s ->
  forall j s', <[i := s]> (sessions h) !! j = Some s' -> Session_wf s'.
Proof.
  intros Hwf Hs j s' Hl.
  destruct (decide (i = j)) as [->|Hne].
  - rewrite lookup_insert_eq in Hl; congruence.
  - rewrite lookup_insert_ne in Hl by exact Hne; eauto.
Qed.

Lemma onCurrentSession_wf (method : Session.t -> bool * Session.t) (w : World) :
  (forall s, Session_wf s -> Session_wf (snd (method s))) ->
  registry_wf (handover w) ->
  registry_wf (handover (exec (Handover.onCurrentSession method) w)).
Proof.
  intros Hm Hwf; pose proof (onCurrentSession_cases method w) as Hc.
  unfold exec, run in *.
  destruct (Handover.getCurrentSession (handover w)) as [session|].
  - destruct Hc as (i & _ & Hl & ->); simpl.
    intros j s'; apply registry_wf_insert; eauto.
  - now rewrite Hc.
Qed.

Lemma startSession_wf (i : string) (r : option Roadmap.t) (w : World) :
  registry_wf (handover w) ->
  registry_wf (handover (exec (Handover.startSession i r) w)).
Proof.
  intros Hwf; unfold Handover.startSession; js_unfold; simpl.
  destruct (initialized (handover w)); simpl; [|exact Hwf].
  destruct (Handover.roadmap_or_default r (handover w)); simpl; [|exact Hwf].
  intros j s'; apply registry_wf_insert; auto using Session_new_wf.
Qed.

Lemma gate_op_wf (o : GateOp) (w : World) :
  registry_wf (handover w) -> registry_wf (handover (exec (gate_op o) w)).
Proof.
  intros Hwf; destruct o as [r| |i r| |i|i| |x|k v]; simpl.
  - exact Hwf.
  - unfold HandoverManager.initialize; js_unfold; simpl.
    destruct (Handover.getCurrentSession (handover w)); exact Hwf.
  - pose proof (startSession_wf i r w Hwf) as H.
    unfold exec, bind in *; destruct (Handover.startSession i r w) as [[?|?] ?];
      exact H.
  - unfold HandoverManager.startSession; js_unfold; simpl.
    pose proof (startSession_wf (sessionId (manager w)) None w Hwf) as H.
    unfold exec in H.
    destruct (Handover.startSession (sessionId (manager w)) None w) as [[?|?] ?];
      exact H.
  - unfold Handover.endSession; js_unfold; simpl.
    destruct (Handover.truthy_id _) as [j|]; [|exact Hwf].
    destruct (bool_decide _); simpl; [|exact Hwf].
    intros j' s' Hl; simpl in Hl; apply lookup_delete_Some in Hl as [_ Hl]; eauto.
  - unfold Handover.setCurrentSession; js_unfold; simpl.
    destruct (bool_decide _); exact Hwf.
  - pose proof (onCurrentSession_wf Session.advanceStage w advanceStage_wf Hwf) as H.
    unfold Handover.advanceStage, exec, bind in *.
    destruct (Handover.onCurrentSession _ w) as [[?|?] ?]; exact H.
  - destruct x as [name|index]; simpl; unfold Handover.setStageByName.
    + pose proof (onCurrentSession_wf (fun s => Session.setStageByName s name) w
                    (fun s => setStageByName_wf s name) Hwf) as H.
      unfold exec, bind in *.
      destruct (Handover.onCurrentSession _ w) as [[?|?] ?]; exact H.
    + pose proof (onCurrentSession_wf (fun s => Session.setStage s index) w
                    (fun s => setStage_wf s index) Hwf) as H.
      unfold exec, bind in *.
      destruct (Handover.onCurrentSession _ w) as [[?|?] ?]; exact H.
  - pose proof (onCurrentSession_wf (fun s => (true, Session.setState s k v)) w
                  (fun s H => H) Hwf) as H.
    unfold HandoverManager.setSessionState, exec, bind in *.
    destruct (Handover.onCurrentSession _ w) as [[?|?] ?]; exact H.
Qed.

Lemma wf_has_stage (s : Session.t) :
  Session_wf s -> Roadmap.stages (Session.roadmap s) <> [] ->
  is_Some (Session.getCurrentStage s).
Proof.
  unfold Session_wf, Session.getCurrentStage, js_index, js_length.
  intros Hwf Hne.
  destruct (Roadmap.stages (Session.roadmap s)) as [|st l] eqn:E; [congruence|].
  destruct Hwf as [[H0 _]|Hr]; [simpl in H0; lia|].
  destruct (Z.eqb_spec (Z.of_nat (length (st :: l))) 0) as [H0|_];
    [simpl in H0; lia|].
  destruct (Z.ltb_spec (Session.currentStageIndex s) 0); [lia|].
  apply lookup_lt_is_Some; lia.
Qed.

(** X4: every sequence of gate operations that set the stage by name only
    ([initialize], [startSession], [endSession], [setCurrentSession],
    [advanceStage], [setStage(name)], [setSessionState], through the gate or
    its manager) keeps the index of every registered session inside its
    roadmap.  So the current session, when its roadmap has a stage, always
    stands on a stage: [getCurrentStage] never yields [undefined].
    [setStage(index)] is left out: the source accepts any number inside the
    range, also one that is no position of the stage list. *)
Theorem gate_keeps_indices_in_range (l : list GateOp) (w : World) :
  registry_wf (handover w) ->
  Forall (fun o => ~ sets_stage_by_index o) l ->
  let w' := exec (gate_ops l) w in
  registry_wf (handover w') /\
  (forall s, Handover.getCurrentSession (handover w') = Some s ->
     Roadmap.stages (Session.roadmap s) <> [] ->
     is_Some (Handover.getCurrentStage (handover w'))).
Proof.
  intros Hwf _; cbv zeta.
  assert (H : registry_wf (handover (exec (gate_ops l) w))).
  { revert w Hwf; induction l as [|o l IH]; intros w Hwf; [exact Hwf|].
    pose proof (gate_op_wf o w Hwf) as Ho.
    cbn [gate_ops]; unfold exec, bind in *.
    destruct (gate_op o w) as [[[]|e] w1]; simpl in *; [now apply IH | exact Ho]. }
  split; [exact H|].
  intros s Hs Hne; unfold Handover.getCurrentStage; rewrite Hs.
  apply wf_has_stage; [|exact Hne].
  unfold Handover.getCurrentSession in Hs.
  destruct (Handover.truthy_id _); [eauto | discriminate].
Qed.

Lemma gate_keeps_indices_in_range_witness :
  let w' := exec (gate_ops
    [GManagerInitialize; GManagerStart; GSetStage (inl "Paused"); GAdvance;
     GSetStage (inl "Nowhere"); GAdvance; GAdvance; GSetState "score" (AnyNum 3)])
    initial_world in
  registry_wf (handover w') /\
  (forall s, Handover.getCurrentSession (handover w') = Some s ->
     Roadmap.stages (Session.roadmap s) <> [] ->
     is_Some (Handover.getCurrentStage (handover w'))).
Proof.
  apply (gate_keeps_indices_in_range _ initial_world).
  - intros i s Hl; vm_compute in Hl; discriminate.
  - repeat constructor; intros [index H]; discriminate.
Defined.

(** ** Stage navigation through the gate *)

Section FindIndexFirst.
Context {A : Type} (p : A -> bool).

(** Nothing before the position [findIndex] returns satisfies the test. *)
Lemma findIndex_from_first (l : list A) (i : Z) (k : nat) (x : A) :
  findIndex_from p l i <> -1 -> 0 <= i ->
  (Z.of_nat k < findIndex_from p l i - i) -> l !! k = Some x -> p x = false.
Proof.
  revert i k; induction l as [|y l IH]; intros i k Hf Hi Hk Hl; [discriminate|].
  simpl in *; destruct (p y) eqn:Hp; [lia|].
  destruct k as [|k]; simpl in Hl; [congruence|].
  apply (IH (i + 1) k); [exact Hf | lia | lia | exact Hl].
Qed.

End FindIndexFirst.

(** X5: a [setStage] by name that returns true has moved the current
    session to the first stage of its roadmap that carries that name. *)
Theorem setStage_lands_on_target (name : string) (w w' : World) :
  run (Handover.setStage (inl name)) w = (Normal true, w') ->
  exists session st,
    Handover.getCurrentSession (handover w) = Some session /\
    Handover.getCurrentSession (handover w') =
      Some (Session.with_index session
              (findIndex (fun stage => bool_decide (Stage.name stage = name))
                         (Roadmap.stages (Session.roadmap session)))) /\
    Handover.getCurrentStage (handover w') = Some st /\
    Stage.name st = name /\
    exists k, Roadmap.stages (Session.roadmap session) !! k = Some st /\
      forall j st', (j < k)%nat ->
        Roadmap.stages (Session.roadmap session) !! j = Some st' ->
        Stage.name st' <> name.
Proof.
  intros Hrun.
  assert (Hcase : forall m,
    run (Handover.onCurrentSession m) w = (Normal true, w') ->
    exists session, Handover.getCurrentSession (handover w) = Some session /\
      fst (m session) = true /\
      Handover.getCurrentSession (handover w') = Some (snd (m session))).
  { intros m Hm; pose proof (onCurrentSession_cases m w) as Hc.
    destruct (Handover.getCurrentSession (handover w)) as [session|];
      [|rewrite Hc in Hm; discriminate].
    destruct Hc as (i & Hi & _ & Hc); rewrite Hc in Hm.
    injection Hm as Hb <-; exists session; repeat split; [exact Hb|].
    apply (getCurrentSession_after_update _ i _ Hi). }
  unfold Handover.getCurrentStage.
  simpl in Hrun; unfold Handover.setStageByName in Hrun.
  destruct (Hcase _ Hrun) as (session & Hs & Hb & Hs'); rewrite Hs';
    exists session.
  unfold Session.setStageByName, findIndex in *.
  set (p := fun stage => bool_decide (Stage.name stage = name)) in *.
  set (l := Roadmap.stages (Session.roadmap session)) in *.
  destruct (Z.eqb_spec (findIndex_from p l 0) (-1)) as [|Hne];
    simpl in Hb; [discriminate|]; simpl.
  destruct (findIndex_from_found p l 0 ltac:(lia) Hne) as (st & Hst & Hp).
  destruct (findIndex_from_range p l 0) as [?|R]; [congruence|].
  rewrite Z.sub_0_r in Hst.
  exists st; split; [exact Hs|]; split; [reflexivity|]; split.
  - unfold Session.getCurrentStage, js_index; simpl; fold l.
    rewrite (proj2 (Z.eqb_neq _ _)) by lia.
    now rewrite (proj2 (Z.ltb_ge _ _)) by lia.
  - split; [now apply bool_decide_eq_true in Hp|].
    exists (Z.to_nat (findIndex_from p l 0)); split; [exact Hst|].
    intros j st' Hj Hl.
    assert (Hf : p st' = false)
      by (apply (findIndex_from_first p l 0 j st' Hne); [lia | lia | exact Hl]).
    now apply bool_decide_eq_false in Hf.
Qed.

Lemma setStage_lands_on_target_witness :
  exists session st,
    Handover.getCurrentSession (handover menu_world) = Some session /\
    Handover.getCurrentStage (handover gameplay_world) = Some st /\
    Stage.name st = "ActiveGameplay" /\
    exists k, Roadmap.stages (Session.roadmap session) !! k = Some st /\
      forall j st', (j < k)%nat ->
        Roadmap.stages (Session.roadmap session) !! j = Some st' ->
        Stage.name st' <> "ActiveGameplay".
Proof.
  destruct (setStage_lands_on_target "ActiveGameplay" menu_world gameplay_world)
    as (session & st & H1 & _ & H2 & H3 & H4); [vm_compute; reflexivity|].
  exists session, st; auto.
Defined.



(** X7: the documented start of a scene, [initialize()] then
    [startSession()] on the manager, when no session is current: whatever
    default roadmap the gate held before, the new session runs on the game
    roadmap, is current, stands at [MainMenu], and the gate allows exactly
    the three menu actions. *)
Theorem manager_start_opens_main_menu (w : World) :
  Handover.getCurrentSession (handover w) = None ->
  sessionId (manager w) <> "" ->
  let r := run (HandoverManager.initialize >> HandoverManager.startSession) w in
  let session :=
    Session.new (sessionId (manager w)) HandoverFactory.createGameRoadmap in
  fst r = Normal (Some session) /\
  Handover.getCurrentSession (handover (snd r)) = Some session /\
  defaultRoadmap (handover (snd r)) = Some HandoverFactory.createGameRoadmap /\
  stage_name (snd r) = Some "MainMenu" /\
  (forall a, HandoverManager.isActionAllowed (snd r) a = true <->
             a ∈ ["startGame"; "openSettings"; "viewHelp"]).
Proof.
  intros Hnone Hid; cbv zeta.
  unfold HandoverManager.initialize, HandoverManager.startSession,
    Handover.initialize, Handover.startSession.
  js_unfold; simpl; rewrite Hnone; simpl.
  assert (Hcur : forall ss,
    Handover.getCurrentSession
      (mkHandover true (Some HandoverFactory.createGameRoadmap)
         (<[sessionId (manager w) :=
              Session.new (sessionId (manager w)) HandoverFactory.createGameRoadmap]> ss)
         (Some (sessionId (manager w)))) =
    Some (Session.new (sessionId (manager w)) HandoverFactory.createGameRoadmap)).
  { intros ss; unfold Handover.getCurrentSession; simpl.
    rewrite (bool_decide_eq_false_2 _ Hid); apply lookup_insert_eq. }
  split; [reflexivity|]; split; [apply Hcur|]; split; [reflexivity|].
  unfold stage_name, HandoverManager.getCurrentStage, HandoverManager.isActionAllowed,
    Handover.isActionAllowed, Handover.getCurrentStage; simpl.
  rewrite Hcur; split; [reflexivity|].
  intros a; unfold Stage.isActionAllowed; simpl.
  apply bool_decide_eq_true.
Qed.

Lemma manager_start_opens_main_menu_witness :
  stage_name (exec (HandoverManager.initialize >> HandoverManager.startSession)
                   initial_world) = Some "MainMenu".
Proof.
  apply (manager_start_opens_main_menu initial_world); [reflexivity|].
  vm_compute; discriminate.
Defined.

(** ** What a method leaves alone *)

Section Keeps.
Context {B : Type} (f : World -> B).

Lemma keeps_ret {A : Type} (a : A) : keeps f (ret a).
Proof. intros w; reflexivity. Qed.

Lemma keeps_throw {A : Type} (e : Exn) : keeps f (@throw A e).
Proof. intros w; reflexivity. Qed.

Lemma keeps_gets {A : Type} (g : World -> A) : keeps f (gets g).
Proof. intros w; reflexivity. Qed.

Lemma keeps_modify (g : World -> World) :
  (forall w, f (g w) = f w) -> keeps f (modify g).
Proof. intros Hg w; apply Hg. Qed.

Lemma keeps_bind {A C : Type} (m : M A) (k : A -> M C) :
  keeps f m -> (forall a, keeps f (k a)) -> keeps f (bind m k).
Proof.
  intros Hm Hk w; unfold bind.
  specialize (Hm w); destruct (m w) as [[a|e] w1]; simpl in *; [|exact Hm].
  now rewrite (Hk a w1).
Qed.

Lemma keeps_run_listeners (ls : list (M unit)) :
  Forall (keeps f) ls -> keeps f (run_listeners ls).
Proof.
  induction 1 as [|l ls Hl _ IH]; simpl; [apply keeps_ret|].
  apply keeps_bind; auto.
Qed.

Hypothesis f_console : forall g w, f (set_console g w) = f w.
Hypothesis f_events : forall g w, f (set_events g w) = f w.

Lemma keeps_console_log (l : LogLevel) (msg : string) : keeps f (console_log l msg).
Proof. apply keeps_modify; intros; apply f_console. Qed.

Lemma keeps_emit (name : string) (data : Payload) (ls : list (M unit)) :
  Forall (keeps f) ls -> keeps f (emit name data ls).
Proof.
  intros Hls; apply keeps_bind; [apply keeps_modify; intros; apply f_events|].
  intros _; now apply keeps_run_listeners.
Qed.

Lemma keeps_performAction (action : string) (callback : M unit) :
  keeps f callback -> keeps f (HandoverManager.performAction action callback).
Proof.
  intros Hcb; unfold HandoverManager.performAction.
  apply keeps_bind; [apply keeps_gets|]; intros [|].
  - apply keeps_bind; [exact Hcb | intros; apply keeps_ret].
  - apply keeps_bind; [apply keeps_console_log | intros; apply keeps_ret].
Qed.

End Keeps.

(** Splits a goal [keeps f m] along the structure of [m]. *)
Ltac keeps_step :=
  match goal with
  | H : keeps ?f ?m |- keeps ?f ?m => exact H
  | |- keeps _ (bind _ _) => apply keeps_bind; [|intros ?]
  | |- keeps _ (ret _) => apply keeps_ret
  | |- keeps _ (throw _) => apply keeps_throw
  | |- keeps _ (gets _) => apply keeps_gets
  | |- keeps _ Date_now => apply keeps_gets
  | |- keeps _ (modify _) => apply keeps_modify; intros; reflexivity
  | |- keeps _ (console_log _ _) => apply keeps_console_log; intros; reflexivity
  | |- keeps _ (HandoverManager.performAction _ _) =>
      apply keeps_performAction; [intros; reflexivity |]
  | |- keeps _ (emit _ _ _) =>
      apply keeps_emit; [intros; reflexivity |]
  | |- Forall _ [] => constructor
  | |- Forall _ (_ :: _) => constructor
  | |- keeps _ (if ?b then _ else _) => destruct b
  | |- keeps _ (match ?x with _ => _ end) => destruct x
  end.

Ltac keeps_tac := repeat keeps_step.

(** The charge machine never touches the input pipeline or the gate. *)
Lemma ShotSystem_keeps_input :
  keeps input ShotSystem.startCharging /\ keeps input ShotSystem.releaseShot /\
  keeps input ShotSystem.handleMaxCharge /\ keeps input ShotSystem.update /\
  keeps input ShotSystem.cancelCharge.
Proof.
  assert (Hr : keeps input AimSystem.resetAim)
    by (unfold AimSystem.resetAim; keeps_tac).
  repeat split.
  - unfold ShotSystem.startCharging, ShotSystem.showVisualElements; keeps_tac.
  - unfold ShotSystem.releaseShot, ShotSystem.hideVisualElements, delayedCall,
      ShotSystem.log_shot; keeps_tac.
  - unfold ShotSystem.handleMaxCharge, ShotSystem.fire; keeps_tac.
  - unfold ShotSystem.update, ShotSystem.handleMaxCharge, ShotSystem.fire; keeps_tac.
  - unfold ShotSystem.cancelCharge, ShotSystem.hideVisualElements; keeps_tac.
Qed.

Lemma run_at_time {A : Type} (t : Z) (m : M A) (w : World) :
  run (at_time t m) w = run m (set_clock t w).
Proof. reflexivity. Qed.

Lemma exec_at_time {A : Type} (t : Z) (m : M A) (w : World) :
  exec (at_time t m) w = exec m (set_clock t w).
Proof. reflexivity. Qed.

Lemma charge_request_keeps_input : keeps input charge_request.
Proof.
  destruct ShotSystem_keeps_input as (Hs & _).
  unfold charge_request; keeps_tac.
Qed.

Lemma fire_request_keeps_input : keeps input fire_request.
Proof.
  destruct ShotSystem_keeps_input as (_ & Hr & _).
  unfold fire_request; keeps_tac.
Qed.

(** A press of the spacebar is dropped when the key is disabled or the last
    accepted press is less than the debounce window away; otherwise it is
    time-stamped, marked as held and handed to the gate. *)
Lemma handleSpacebarPress_cases (w : World) :
  run InputSystem.handleSpacebarPress w =
  if bool_decide ("spacebar" ∈ disabledKeys (input w)) then (Normal tt, w)
  else if clock w - default 0 (lastInputTime (input w) !! "spacebar")
          <? InputSystem.CLICK_DEBOUNCE_MS then (Normal tt, w)
  else run charge_request
         (set_input (InputSystem.with_isInputActive "spacebar" true)
            (set_input (InputSystem.with_lastInputTime "spacebar" (clock w)) w)).
Proof.
  unfold InputSystem.handleSpacebarPress, charge_request; js_unfold; simpl.
  destruct (bool_decide _); [reflexivity|].
  destruct (_ <? _); reflexivity.
Qed.

(** X8: after an accepted press of the spacebar at time [t], a press less
    than 200 ms later is dropped without any effect: no gate call, no event,
    and the stored timestamp stays [t].  The accepted press counts for the
    debounce and marks the key as held whether or not the gate allowed
    charging. *)
Theorem spacebar_debounce (w : World) (t t' : Z) :
  "spacebar" ∉ disabledKeys (input w) ->
  InputSystem.CLICK_DEBOUNCE_MS
    <= t - default 0 (lastInputTime (input w) !! "spacebar") ->
  t' - t < InputSystem.CLICK_DEBOUNCE_MS ->
  let w1 := exec (at_time t InputSystem.handleSpacebarPress) w in
  lastInputTime (input w1) !! "spacebar" = Some t /\
  InputSystem.active (input w1) "spacebar" = true /\
  run (at_time t' InputSystem.handleSpacebarPress) w1 = (Normal tt, set_clock t' w1).
Proof.
  intros Hen Hold Hnew; cbv zeta.
  assert (Hin : input (exec (at_time t InputSystem.handleSpacebarPress) w) =
                InputSystem.with_isInputActive "spacebar" true
                  (InputSystem.with_lastInputTime "spacebar" t (input w))).
  { rewrite exec_at_time; unfold exec.
    change (InputSystem.handleSpacebarPress (set_clock t w))
      with (run InputSystem.handleSpacebarPress (set_clock t w)).
    rewrite handleSpacebarPress_cases; simpl.
    rewrite (bool_decide_eq_false_2 _ Hen).
    rewrite (proj2 (Z.ltb_ge _ _)) by lia.
    unfold run; now rewrite charge_request_keeps_input. }
  split; [rewrite Hin; apply lookup_insert_eq|].
  split; [rewrite Hin; unfold InputSystem.active; simpl;
          now rewrite lookup_insert_eq|].
  rewrite run_at_time, handleSpacebarPress_cases; simpl.
  rewrite Hin; simpl.
  rewrite (bool_decide_eq_false_2 _ Hen), lookup_insert_eq; simpl.
  now rewrite (proj2 (Z.ltb_lt _ _)) by lia.
Qed.

Lemma spacebar_debounce_witness :
  let w1 := exec (at_time 1000 InputSystem.handleSpacebarPress) gameplay_world in
  emitted "input-charge-start" w1 = [mkEvent "input-charge-start" NoData] /\
  run (at_time 1050 InputSystem.handleSpacebarPress) w1 =
    (Normal tt, set_clock 1050 w1).
Proof.
  split; [vm_compute; reflexivity|].
  apply (spacebar_debounce gameplay_world 1000 1050).
  - apply (proj1 (bool_decide_eq_false _)); vm_compute; reflexivity.
  - vm_compute; discriminate.
  - vm_compute; reflexivity.
Defined.

(** ** Disabled keys, release, hold timeout *)

(** X9: once a key is disabled with [setKeyDisabled(key, true)], the
    handler of that key returns at once and leaves the world untouched, for
    the spacebar, the arrow keys and the delayed keys alike; enabling the key
    again restores the set of disabled keys it was added to. *)
Theorem disabled_key_is_ignored (key : string) (w : World) :
  let w' := exec (InputSystem.setKeyDisabled key true) w in
  key ∈ disabledKeys (input w') /\
  (key = "spacebar" -> run InputSystem.handleSpacebarPress w' = (Normal tt, w')) /\
  (forall d, key = direction_name d ->
     run (InputSystem.handleDirectionalInput d) w' = (Normal tt, w')) /\
  run (InputSystem.handleDelayedInput key) w' = (Normal tt, w') /\
  (key ∉ disabledKeys (input w) ->
   disabledKeys (input (exec (InputSystem.setKeyDisabled key false) w')) =
   disabledKeys (input w)).
Proof.
  cbv zeta; unfold InputSystem.setKeyDisabled; js_unfold; simpl.
  assert (Hin : key ∈ {[key]} ∪ disabledKeys (input w))
    by (apply elem_of_union_l, elem_of_singleton; reflexivity).
  split; [exact Hin|]; split; [|split; [|split]].
  - intros ->; unfold InputSystem.handleSpacebarPress; js_unfold; simpl.
    now rewrite bool_decide_eq_true_2.
  - intros d ->; unfold InputSystem.handleDirectionalInput; js_unfold; simpl.
    now rewrite bool_decide_eq_true_2.
  - unfold InputSystem.handleDelayedInput; js_unfold; simpl.
    now rewrite bool_decide_eq_true_2.
  - intros Hnot; apply set_eq; intros x.
    rewrite elem_of_difference, elem_of_union, elem_of_singleton.
    split.
    + intros [[->|Hx] Hne]; [now destruct Hne | exact Hx].
    + intros Hx; split; [now right | intros ->; exact (Hnot Hx)].
Qed.

Lemma handleSpacebarRelease_cases (w : World) :
  run InputSystem.handleSpacebarRelease w =
  if InputSystem.active (input w) "spacebar"
  then run fire_request
         (set_input (InputSystem.with_isInputActive "spacebar" false) w)
  else (Normal tt, w).
Proof.
  unfold InputSystem.handleSpacebarRelease, fire_request; js_unfold; simpl.
  destruct (InputSystem.active _ _); reflexivity.
Qed.

(** X10: a release of the spacebar reaches the gate only when a press is
    being tracked, and it ends the tracking whatever the gate and the charge
    machine then do: a second release in a row changes nothing. *)
Theorem release_needs_a_tracked_press (w : World) :
  let w1 := exec InputSystem.handleSpacebarRelease w in
  (InputSystem.active (input w) "spacebar" = false ->
     run InputSystem.handleSpacebarRelease w = (Normal tt, w)) /\
  (InputSystem.active (input w) "spacebar" = true ->
     run InputSystem.handleSpacebarRelease w =
     run fire_request
         (set_input (InputSystem.with_isInputActive "spacebar" false) w)) /\
  InputSystem.active (input w1) "spacebar" = false /\
  run InputSystem.handleSpacebarRelease w1 = (Normal tt, w1).
Proof.
  cbv zeta.
  assert (Hoff : InputSystem.active
            (input (exec InputSystem.handleSpacebarRelease w)) "spacebar" = false).
  { unfold exec.
    change (InputSystem.handleSpacebarRelease w)
      with (run InputSystem.handleSpacebarRelease w).
    rewrite handleSpacebarRelease_cases.
    destruct (InputSystem.active (input w) "spacebar") eqn:E; [|exact E].
    unfold run; rewrite fire_request_keeps_input; simpl.
    unfold InputSystem.active; simpl; now rewrite lookup_insert_eq. }
  split; [|split; [|split]].
  - intros E; now rewrite handleSpacebarRelease_cases, E.
  - intros E; now rewrite handleSpacebarRelease_cases, E.
  - exact Hoff.
  - now rewrite handleSpacebarRelease_cases, Hoff.
Qed.

(** X11: when the spacebar has been held for more than 2000 ms, [update]
    emits ['input-charge-max'] once and stops tracking the press, also when
    the listener raises: every later [update] does nothing until the next
    press, and the key-up that follows is ignored. *)
Theorem held_timeout_fires_once (w : World) (pressed t' : Z) :
  InputSystem.active (input w) "spacebar" = true ->
  lastInputTime (input w) !! "spacebar" = Some pressed ->
  InputSystem.MAX_HOLD_MS < clock w - pressed ->
  let w1 := exec InputSystem.update w in
  emitted "input-charge-max" w1 =
    emitted "input-charge-max" w ++ [mkEvent "input-charge-max" NoData] /\
  InputSystem.active (input w1) "spacebar" = false /\
  run (at_time t' InputSystem.update) w1 = (Normal tt, set_clock t' w1) /\
  run (at_time t' InputSystem.handleSpacebarRelease) w1 = (Normal tt, set_clock t' w1).
Proof.
  intros Ha Hp Hlt; cbv zeta.
  assert (Hk : keeps events ShotSystem.handleMaxCharge)
    by (unfold ShotSystem.handleMaxCharge, ShotSystem.fire; keeps_tac).
  destruct ShotSystem_keeps_input as (_ & _ & Hi & _).
  assert (Hw1 : exists w1, exec InputSystem.update w = w1 /\
            events w1 = events w ++ [mkEvent "input-charge-max" NoData] /\
            input w1 = InputSystem.with_isInputActive "spacebar" false (input w)).
  { unfold exec, InputSystem.update, emit, run_listeners; js_unfold; simpl.
    rewrite Ha, Hp.
    destruct (Z.gtb_spec (clock w - pressed) InputSystem.MAX_HOLD_MS); [|lia].
    match goal with
    | |- context [ShotSystem.handleMaxCharge ?w0] =>
        pose proof (Hk w0) as He; pose proof (Hi w0) as Hin;
        destruct (ShotSystem.handleMaxCharge w0) as [[[]|e] w2]
    end; simpl in *; eauto. }
  destruct Hw1 as (w1 & -> & He & Hin).
  assert (Hoff : InputSystem.active (input w1) "spacebar" = false).
  { rewrite Hin; unfold InputSystem.active; simpl; now rewrite lookup_insert_eq. }
  split; [|split; [exact Hoff|split]].
  - unfold emitted; rewrite He, filter_app; f_equal.
  - rewrite run_at_time; unfold InputSystem.update; js_unfold; simpl.
    now rewrite Hoff.
  - rewrite run_at_time, handleSpacebarRelease_cases; simpl; now rewrite Hoff.
Qed.

Lemma held_timeout_fires_once_witness :
  let w := set_clock 3500
    (exec (at_time 1000 InputSystem.handleSpacebarPress >> ShotSystem.cancelCharge)
          gameplay_world) in
  let w1 := exec InputSystem.update w in
  emitted "input-charge-max" w1 = [mkEvent "input-charge-max" NoData] /\
  run (at_time 3600 InputSystem.update) w1 = (Normal tt, set_clock 3600 w1).
Proof.
  cbv zeta.
  match goal with
  | |- context [exec InputSystem.update ?w] =>
      destruct (held_timeout_fires_once w 1000 3600) as (H1 & _ & H3 & _);
      [vm_compute; reflexivity | vm_compute; reflexivity
      | vm_compute; reflexivity |]
  end.
  split; [exact H1 | exact H3].
Defined.

(** ** Delayed keys *)

(** X12: an accepted press of a delayed key (pause, confirm) does not
    consult the gate: it only stores its timestamp and arms one timer due
    [KEY_DELAY_MS] later; a second press inside the debounce window arms
    nothing.  The gate is asked when the timer runs, against the stage
    current at that moment: allowed, the event ['input-<action>'] is
    emitted; refused, only the warning is logged. *)
Theorem delayed_input_is_gated_when_due (action : string) (w : World) :
  action ∉ disabledKeys (input w) ->
  InputSystem.CLICK_DEBOUNCE_MS
    <= clock w - default 0 (lastInputTime (input w) !! action) ->
  scene_listeners ("input-" +:+ action) = [] ->
  let w1 := exec (InputSystem.handleDelayedInput action) w in
  fst (run (InputSystem.handleDelayedInput action) w) = Normal tt /\
  events w1 = events w /\ console w1 = console w /\
  timers w1 =
    timers w ++ [(clock w + InputSystem.KEY_DELAY_MS, DelayedAction action)] /\
  (forall t', t' - clock w < InputSystem.CLICK_DEBOUNCE_MS ->
     run (at_time t' (InputSystem.handleDelayedInput action)) w1 =
     (Normal tt, set_clock t' w1)) /\
  (forall w2, current_allowed (handover w2) action ->
     run (runTimer (DelayedAction action)) w2 =
     (Normal tt,
      set_events (fun es => es ++ [mkEvent ("input-" +:+ action) NoData]) w2)) /\
  (forall w2, ~ current_allowed (handover w2) action ->
     run (runTimer (DelayedAction action)) w2 =
     (Normal tt,
      set_console (fun c => c ++ [Log LogWarn (HandoverManager.warning action)]) w2)).
Proof.
  intros Hen Hold Hls; cbv zeta.
  unfold InputSystem.handleDelayedInput, delayedCall; js_unfold; simpl.
  rewrite (bool_decide_eq_false_2 _ Hen).
  rewrite (proj2 (Z.ltb_ge _ _)) by lia; simpl.
  repeat split.
  - intros t' Ht'; unfold at_time; js_unfold; simpl.
    rewrite (bool_decide_eq_false_2 _ Hen), lookup_insert_eq; simpl.
    now rewrite (proj2 (Z.ltb_lt _ _)) by lia.
  - intros w2 Hal; apply isActionAllowed_spec in Hal.
    unfold HandoverManager.performAction, HandoverManager.isActionAllowed, emit.
    js_unfold; simpl; rewrite Hal, Hls; reflexivity.
  - intros w2 Hno.
    destruct (Handover.isActionAllowed (handover w2) action) eqn:E.
    { exfalso; apply Hno, isActionAllowed_spec, E. }
    unfold HandoverManager.performAction, HandoverManager.isActionAllowed.
    js_unfold; simpl; rewrite E; reflexivity.
Qed.

Lemma delayed_input_is_gated_when_due_witness :
  let w := set_clock 5000 gameplay_world in
  let w1 := exec (InputSystem.handleDelayedInput "pause") w in
  events w1 = events w /\
  timers w1 = timers w ++ [(5100, DelayedAction "pause")].
Proof.
  cbv zeta.
  destruct (delayed_input_is_gated_when_due "pause" (set_clock 5000 gameplay_world))
    as (_ & H1 & _ & H2 & _).
  - apply (proj1 (bool_decide_eq_false _)); vm_compute; reflexivity.
  - vm_compute; discriminate.
  - vm_compute; reflexivity.
  - split; [exact H1 | exact H2].
Defined.

(** ** The directional buffer as a queue *)

Lemma newest_snoc {A : Type} (n : nat) (l : list A) (x : A) :
  (0 < n)%nat -> newest n (newest n l ++ [x]) = newest n (l ++ [x]).
Proof.
  intros Hn; unfold newest.
  rewrite !length_app, length_drop; simpl.
  destruct (decide (length l <= n)%nat) as [Hle|Hgt].
  - replace (length l - n)%nat with 0%nat by lia; rewrite drop_0.
    f_equal; lia.
  - rewrite (drop_app_le l [x] (length l + 1 - n)) by lia.
    rewrite drop_app_le by (rewrite length_drop; lia).
    rewrite drop_drop; f_equal; f_equal; lia.
Qed.

Lemma newest_app {A : Type} (n : nat) (l k : list A) :
  (0 < n)%nat -> newest n (newest n l ++ k) = newest n (l ++ k).
Proof.
  intros Hn; induction k as [|x k IH] using rev_ind.
  - rewrite !app_nil_r; unfold newest.
    rewrite length_drop.
    replace (length l - (length l - n) - n)%nat with 0%nat by lia.
    apply drop_0.
  - rewrite !app_assoc.
    rewrite <- (newest_snoc n (newest n l ++ k)), <- (newest_snoc n (l ++ k)), IH
      by exact Hn.
    reflexivity.
Qed.

Lemma record_press_newest (d : Direction) (now : Z) (i : InputSt) :
  js_length (inputBuffer i d) <= InputSystem.BUFFER_SIZE ->
  inputBuffer (InputSystem.record_press d now i) d =
  newest 5 (inputBuffer i d ++ [now]).
Proof.
  unfold InputSystem.record_press, InputSystem.shift, InputSystem.BUFFER_SIZE,
    js_length, newest; simpl.
  rewrite (bool_decide_eq_true_2 (d = d)) by reflexivity.
  intros Hcap; rewrite length_app; simpl.
  destruct (Z.gtb_spec (Z.of_nat (length (inputBuffer i d) + 1)) 5) as [Hgt|Hle];
    simpl; rewrite ?(bool_decide_eq_true_2 (d = d)) by reflexivity.
  - replace (length (inputBuffer i d) + 1 - 5)%nat with 1%nat by lia.
    now destruct (inputBuffer i d ++ [now]).
  - replace (length (inputBuffer i d) + 1 - 5)%nat with 0%nat by lia.
    now rewrite drop_0.
Qed.

Lemma handleDirectionalInput_other_buffer (d : Direction) (w : World) :
  direction_name d ∉ disabledKeys (input w) ->
  let w' := exec (InputSystem.handleDirectionalInput d) w in
  inputBuffer (input w') (InputSystem.opposite d) =
    inputBuffer (input w) (InputSystem.opposite d) /\
  disabledKeys (input w') = disabledKeys (input w).
Proof.
  intros Hen; destruct (handleDirectionalInput_frame d w Hen) as (_ & Hi & _).
  cbv zeta; rewrite Hi; split.
  - apply record_press_other, opposite_neq.
  - apply record_press_disabledKeys.
Qed.

Lemma presses_cons (d : Direction) (t : Z) (ts : list Z) (w : World) :
  run (presses d (t :: ts)) w =
  match run (InputSystem.handleDirectionalInput d) (set_clock t w) with
  | (Normal _, w') => run (presses d ts) w'
  | (Thrown e, w') => (Thrown e, w')
  end.
Proof. reflexivity. Qed.

(** X13: the buffer of a direction is a queue of capacity 5: after any
    number of presses of an enabled arrow key it holds the five most recent
    timestamps in arrival order, older ones are evicted first, and the
    buffer of the other direction is not touched. *)
Theorem buffer_holds_newest_five (d : Direction) (ts : list Z) (w : World) :
  direction_name d ∉ disabledKeys (input w) ->
  js_length (inputBuffer (input w) d) <= InputSystem.BUFFER_SIZE ->
  let w' := exec (presses d ts) w in
  fst (run (presses d ts) w) = Normal tt /\
  inputBuffer (input w') d = newest 5 (inputBuffer (input w) d ++ ts) /\
  inputBuffer (input w') (InputSystem.opposite d) =
    inputBuffer (input w) (InputSystem.opposite d).
Proof.
  cbv zeta; revert w; induction ts as [|t ts IH]; intros w Hen Hcap.
  - simpl; rewrite app_nil_r; repeat split.
    unfold newest, InputSystem.BUFFER_SIZE, js_length in *.
    replace (length (inputBuffer (input w) d) - 5)%nat with 0%nat by lia.
    now rewrite drop_0.
  - destruct (handleDirectionalInput_frame d (set_clock t w) Hen)
      as (Hn & Hi & _ & _).
    destruct (handleDirectionalInput_other_buffer d (set_clock t w) Hen)
      as (Ho & Hdis).
    unfold exec; change (presses d (t :: ts) w) with (run (presses d (t :: ts)) w).
    rewrite presses_cons; unfold run, exec in *.
    destruct (InputSystem.handleDirectionalInput d (set_clock t w))
      as [[[]|e] w1]; simpl in *; [|discriminate].
    destruct (IH w1) as (IH1 & IH2 & IH3).
    + now rewrite Hdis.
    + rewrite Hi; now apply record_press_capacity.
    + split; [exact IH1|]; split; [|now rewrite IH3, Ho].
      rewrite IH2, Hi, record_press_newest by exact Hcap.
      rewrite newest_app by lia.
      now rewrite <- app_assoc.
Qed.

Lemma buffer_holds_newest_five_witness :
  inputBuffer (input (exec (presses left [10; 300; 600; 900; 1200; 1500; 1800])
                           gameplay_world)) left =
  [600; 900; 1200; 1500; 1800].
Proof.
  apply (buffer_holds_newest_five left [10; 300; 600; 900; 1200; 1500; 1800]
           gameplay_world).
  - apply (proj1 (bool_decide_eq_false _)); vm_compute; reflexivity.
  - vm_compute; discriminate.
Defined.

(** ** Separation of the systems from the gate *)

Lemma scene_listeners_keep {B : Type} (f : World -> B) (name : string) :
  keeps f ShotSystem.startCharging -> keeps f ShotSystem.releaseShot ->
  keeps f ShotSystem.handleMaxCharge ->
  (forall d, keeps f (AimSystem.setAimDirection d)) ->
  keeps f AimSystem.resetAim ->
  Forall (keeps f) (scene_listeners name).
Proof.
  intros H1 H2 H3 H4 H5; unfold scene_listeners.
  repeat (destruct (bool_decide _); [repeat constructor; auto|]).
  constructor.
Qed.

(** X14: no method of the input pipeline, the charge machine or the aim
    machine changes the gate: the roadmap, the registry, the current session
    and its stage are the same after the call as before, also when the call
    raises.  The gate moves through its own operations only. *)
Theorem systems_never_move_the_gate :
  keeps handover InputSystem.handleSpacebarPress /\
  keeps handover InputSystem.handleSpacebarRelease /\
  (forall d, keeps handover (InputSystem.handleDirectionalInput d)) /\
  (forall action, keeps handover (InputSystem.handleDelayedInput action)) /\
  (forall x y width height,
     keeps handover (InputSystem.handlePointerDown x y width height)) /\
  (forall key disabled, keeps handover (InputSystem.setKeyDisabled key disabled)) /\
  keeps handover InputSystem.update /\
  keeps handover ShotSystem.startCharging /\
  keeps handover ShotSystem.releaseShot /\
  keeps handover ShotSystem.handleMaxCharge /\
  keeps handover ShotSystem.cancelCharge /\
  keeps handover ShotSystem.update /\
  (forall d, keeps handover (AimSystem.setAimDirection d)) /\
  keeps handover AimSystem.resetAim /\
  (forall lo hi, keeps handover (AimSystem.setAngleLimits lo hi)) /\
  keeps handover AimSystem.update /\
  (forall t, keeps handover (runTimer t)) /\
  keeps handover InputIntegration.update.
Proof.
  assert (Hreset : keeps handover AimSystem.resetAim)
    by (unfold AimSystem.resetAim; keeps_tac).
  assert (Haim : forall d, keeps handover (AimSystem.setAimDirection d))
    by (intros d; unfold AimSystem.setAimDirection, AimSystem.nudge; keeps_tac).
  assert (Hstart : keeps handover ShotSystem.startCharging)
    by (unfold ShotSystem.startCharging, ShotSystem.showVisualElements; keeps_tac).
  assert (Hrel : keeps handover ShotSystem.releaseShot)
    by (unfold ShotSystem.releaseShot, ShotSystem.hideVisualElements, delayedCall,
          ShotSystem.log_shot; keeps_tac).
  assert (Hmax : keeps handover ShotSystem.handleMaxCharge)
    by (unfold ShotSystem.handleMaxCharge, ShotSystem.fire; keeps_tac).
  assert (Hsu : keeps handover ShotSystem.update)
    by (unfold ShotSystem.update; keeps_tac).
  assert (Hau : keeps handover AimSystem.update)
    by (unfold AimSystem.update; keeps_tac).
  assert (Hiu : keeps handover InputSystem.update)
    by (unfold InputSystem.update; keeps_tac).
  assert (Hls : forall name, Forall (keeps handover) (scene_listeners name))
    by (intros name; now apply scene_listeners_keep).
  assert (Hpress : keeps handover InputSystem.handleSpacebarPress)
    by (unfold InputSystem.handleSpacebarPress; keeps_tac).
  assert (Hup : keeps handover InputSystem.handleSpacebarRelease)
    by (unfold InputSystem.handleSpacebarRelease; keeps_tac).
  assert (Hdir : forall d, keeps handover (InputSystem.handleDirectionalInput d))
    by (intros d; unfold InputSystem.handleDirectionalInput; keeps_tac; apply Haim).
  assert (Hdel : forall action, keeps handover (InputSystem.handleDelayedInput action))
    by (intros action; unfold InputSystem.handleDelayedInput, delayedCall; keeps_tac).
  assert (Hptr : forall x y width height,
            keeps handover (InputSystem.handlePointerDown x y width height))
    by (intros x y width height; unfold InputSystem.handlePointerDown; keeps_tac;
        apply Hls).
  assert (Hkey : forall key disabled,
            keeps handover (InputSystem.setKeyDisabled key disabled))
    by (intros key disabled; unfold InputSystem.setKeyDisabled; keeps_tac).
  assert (Hcancel : keeps handover ShotSystem.cancelCharge)
    by (unfold ShotSystem.cancelCharge, ShotSystem.hideVisualElements; keeps_tac).
  assert (Hlim : forall lo hi, keeps handover (AimSystem.setAngleLimits lo hi))
    by (intros lo hi; unfold AimSystem.setAngleLimits; keeps_tac).
  assert (Htimer : forall t, keeps handover (runTimer t))
    by (intros [|action]; unfold runTimer; keeps_tac; apply Hls).
  assert (Hint : keeps handover InputIntegration.update)
    by (unfold InputIntegration.update; keeps_tac).
  repeat split; assumption.
Qed.

(** ** Pointer input *)

Lemma game_roadmap_has_no_pointer_aim (st : Stage.t) (action : string) :
  st ∈ Roadmap.stages HandoverFactory.createGameRoadmap ->
  action = "aim-left" \/ action = "aim-right" ->
  Stage.isActionAllowed st action = false.
Proof.
  intros Hst Ha; unfold Stage.isActionAllowed.
  simpl in Hst; repeat (apply elem_of_cons in Hst as [-> | Hst]);
    try (destruct Ha as [-> | ->]; vm_compute; reflexivity).
  now apply elem_of_nil in Hst.
Qed.

(** X15: on the game roadmap a pointer press in the lower half of the
    scene never aims.  It asks the gate for ['aim-left'] or ['aim-right'],
    names no stage of that roadmap allows (the keyboard asks for ['aim']),
    so in every stage the press only stores its timestamp and logs the
    warning. *)
Theorem pointer_aim_is_refused_on_game_roadmap
    (x y width height : Q) (w : World) (session : Session.t) :
  Handover.getCurrentSession (handover w) = Some session ->
  Session.roadmap session = HandoverFactory.createGameRoadmap ->
  (height / 2 < y)%Q ->
  InputSystem.CLICK_DEBOUNCE_MS
    <= clock w - default 0 (lastInputTime (input w) !! "pointer") ->
  exists action,
    InputSystem.getActionFromPointerPosition x y width height = Some action /\
    (action = "aim-left" \/ action = "aim-right") /\
    run (InputSystem.handlePointerDown x y width height) w =
    (Normal tt,
     set_console (fun c => c ++ [Log LogWarn (HandoverManager.warning action)])
       (set_input (InputSystem.with_lastInputTime "pointer" (clock w)) w)).
Proof.
  intros Hs Hrm Hy Hold.
  assert (Hact : exists action,
    InputSystem.getActionFromPointerPosition x y width height = Some action /\
    (action = "aim-left" \/ action = "aim-right")).
  { unfold InputSystem.getActionFromPointerPosition.
    destruct (Qltb_spec (height / 2) y) as [_|Hn]; [|contradiction].
    destruct (Qltb x (width / 2)); eauto. }
  destruct Hact as (action & Hget & Ha); exists action.
  split; [exact Hget|]; split; [exact Ha|].
  assert (Hden : forall w0, handover w0 = handover w ->
            HandoverManager.isActionAllowed w0 action = false).
  { intros w0 Hw0.
    unfold HandoverManager.isActionAllowed, Handover.isActionAllowed,
      Handover.getCurrentStage; rewrite Hw0, Hs.
    destruct (Session.getCurrentStage session) as [st|] eqn:Hst; [|reflexivity].
    apply game_roadmap_has_no_pointer_aim; [|exact Ha].
    unfold Session.getCurrentStage, js_index in Hst; rewrite Hrm in Hst.
    destruct (_ =? 0); [discriminate|].
    destruct (_ <? 0); [discriminate|].
    now apply list_elem_of_lookup_2 in Hst. }
  unfold InputSystem.handlePointerDown, HandoverManager.performAction.
  js_unfold; simpl.
  rewrite (proj2 (Z.ltb_ge _ _)) by lia; rewrite Hget.
  assert (Ht : Handover.truthy_id (Some action) = Some action)
    by (destruct Ha as [-> | ->]; reflexivity).
  rewrite Ht; simpl.
  now rewrite Hden.
Qed.

Lemma pointer_aim_is_refused_on_game_roadmap_witness :
  exists action,
    InputSystem.getActionFromPointerPosition 100 500 800 600 = Some action /\
    (action = "aim-left" \/ action = "aim-right") /\
    run (InputSystem.handlePointerDown 100 500 800 600) (set_clock 1000 gameplay_world) =
    (Normal tt,
     set_console (fun c => c ++ [Log LogWarn (HandoverManager.warning action)])
       (set_input (InputSystem.with_lastInputTime "pointer" 1000)
                  (set_clock 1000 gameplay_world))).
Proof.
  assert (Hs : exists s,
    Handover.getCurrentSession (handover (set_clock 1000 gameplay_world)) = Some s /\
    Session.roadmap s = HandoverFactory.createGameRoadmap)
    by (eexists; split; vm_compute; reflexivity).
  destruct Hs as (s & Hs & Hrm).
  apply (pointer_aim_is_refused_on_game_roadmap 100 500 800 600
           (set_clock 1000 gameplay_world) s Hs Hrm).
  - vm_compute; reflexivity.
  - vm_compute; discriminate.
Defined.

(** ** The charge machine: release, cancel, cooldown *)

(** The callback [releaseShot] hands to the gate. *)
Lemma shot_fired_callback_keeps (p : JsNumber) :
  let cb := emit "shot-fired" (PowerData p) [AimSystem.resetAim] >>
            ShotSystem.log_shot p in
  keeps shot cb /\ keeps timers cb /\ keeps input cb /\ keeps clock cb.
Proof.
  cbv zeta; repeat split;
    unfold AimSystem.resetAim, ShotSystem.log_shot; keeps_tac.
Qed.

Lemma releaseShot_cases (w : World) :
  run ShotSystem.releaseShot w =
  if isCharging (shot w) then
    run (HandoverManager.performAction "fire"
           (emit "shot-fired" (PowerData (currentCharge (shot w)))
                 [AimSystem.resetAim] >>
            ShotSystem.log_shot (currentCharge (shot w))) >> ret tt)
        (set_timers (fun ts => ts ++ [(clock w + 200, CooldownOver)])
           (set_shot (fun s => mkShot false (chargeStartTime s) (currentCharge s)
                                      true false) w))
  else (Normal tt, w).
Proof.
  unfold ShotSystem.releaseShot, ShotSystem.hideVisualElements, delayedCall.
  js_unfold; simpl.
  destruct (isCharging (shot w)); reflexivity.
Qed.

(** X16: a release ends the charge and starts the cooldown whether or not
    the gate then lets the shot out: the machine is idle and in cooldown,
    one timer is armed 200 ms ahead, and [startCharging] is refused until
    that timer has run; after it a charge starts again at the minimum
    power. *)
Theorem cooldown_blocks_restart (w : World) :
  isCharging (shot w) = true ->
  let w1 := exec ShotSystem.releaseShot w in
  let w2 := exec (runTimer CooldownOver) w1 in
  isCharging (shot w1) = false /\ inCooldown (shot w1) = true /\
  timers w1 = timers w ++ [(clock w + 200, CooldownOver)] /\
  (forall t, run (at_time t ShotSystem.startCharging) w1 =
             (Normal tt, set_clock t w1)) /\
  (forall t, shot (exec (at_time t ShotSystem.startCharging) w2) =
             mkShot true t (Num ShotSystem.MIN_POWER) false true).
Proof.
  intros Hc; cbv zeta.
  assert (Hw1 : shot (exec ShotSystem.releaseShot w) =
                mkShot false (chargeStartTime (shot w)) (currentCharge (shot w))
                       true false /\
                timers (exec ShotSystem.releaseShot w) =
                timers w ++ [(clock w + 200, CooldownOver)]).
  { unfold exec.
    change (ShotSystem.releaseShot w) with (run ShotSystem.releaseShot w).
    rewrite releaseShot_cases, Hc.
    destruct (shot_fired_callback_keeps (currentCharge (shot w)))
      as (Hs & Ht & _ & _).
    split.
    - assert (Hk : keeps shot (HandoverManager.performAction "fire"
               (emit "shot-fired" (PowerData (currentCharge (shot w)))
                     [AimSystem.resetAim] >>
                ShotSystem.log_shot (currentCharge (shot w))) >> ret tt))
        by keeps_tac.
      unfold run; now rewrite Hk.
    - assert (Hk : keeps timers (HandoverManager.performAction "fire"
               (emit "shot-fired" (PowerData (currentCharge (shot w)))
                     [AimSystem.resetAim] >>
                ShotSystem.log_shot (currentCharge (shot w))) >> ret tt))
        by keeps_tac.
      unfold run; now rewrite Hk. }
  destruct Hw1 as (Hs1 & Ht1).
  rewrite Hs1; repeat split; try assumption.
  - intros t; unfold at_time, ShotSystem.startCharging; js_unfold; simpl.
    now rewrite Hs1.
  - intros t; unfold at_time, ShotSystem.startCharging,
      ShotSystem.showVisualElements, runTimer; js_unfold; simpl.
    now rewrite Hs1.
Qed.

Lemma cooldown_blocks_restart_witness :
  let w1 := exec (at_time 1500 ShotSystem.releaseShot) charging_world in
  inCooldown (shot w1) = true /\
  run (at_time 1600 ShotSystem.startCharging) w1 = (Normal tt, set_clock 1600 w1).
Proof.
  cbv zeta.
  destruct (cooldown_blocks_restart (set_clock 1500 charging_world))
    as (_ & H1 & _ & H2 & _); [vm_compute; reflexivity|].
  split; [exact H1 | exact (H2 1600)].
Defined.

(** X17: [cancelCharge] ends a charge silently: nothing is emitted or
    logged, no cooldown is started and no timer armed; afterwards the
    machine is idle, a release does nothing, and a new charge can start at
    once unless a cooldown was already running. *)
Theorem cancelCharge_is_silent (w : World) :
  let w1 := exec ShotSystem.cancelCharge w in
  fst (run ShotSystem.cancelCharge w) = Normal tt /\
  isCharging (shot w1) = false /\
  inCooldown (shot w1) = inCooldown (shot w) /\
  events w1 = events w /\ console w1 = console w /\ timers w1 = timers w /\
  aim w1 = aim w /\ input w1 = input w /\
  run ShotSystem.releaseShot w1 = (Normal tt, w1) /\
  ShotSystem.canStartShot (shot w1) = negb (inCooldown (shot w)).
Proof.
  cbv zeta; unfold ShotSystem.cancelCharge, ShotSystem.hideVisualElements.
  js_unfold; simpl.
  destruct (isCharging (shot w)) eqn:Hc; simpl.
  - repeat split; reflexivity.
  - rewrite releaseShot_cases, Hc; unfold ShotSystem.canStartShot; rewrite Hc.
    repeat split; reflexivity.
Qed.

(** ** Press, hold, release *)

Lemma allowed_true (w : World) (action : string) :
  current_allowed (handover w) action ->
  Handover.isActionAllowed (handover w) action = true.
Proof. apply isActionAllowed_spec. Qed.

Lemma allowed_false (w : World) (action : string) :
  ~ current_allowed (handover w) action ->
  Handover.isActionAllowed (handover w) action = false.
Proof.
  intros Hno; destruct (Handover.isActionAllowed (handover w) action) eqn:E;
    [|reflexivity].
  exfalso; apply Hno, isActionAllowed_spec, E.
Qed.

(** X18: press, one tick, release, in a stage that allows charging and
    firing, from an idle charge machine.  The press starts the charge, and
    the release fires exactly one shot whose power is the value the last
    tick computed, [chargeAt (t1 - t0)], whatever the time of the release;
    it lies in [0.1, 1.0].  Afterwards the machine is idle and in cooldown
    and the aim machine has been reset. *)
Theorem release_fires_power_of_last_tick (w : World) (t0 t1 t2 : Z) :
  "spacebar" ∉ disabledKeys (input w) ->
  InputSystem.CLICK_DEBOUNCE_MS
    <= t0 - default 0 (lastInputTime (input w) !! "spacebar") ->
  current_allowed (handover w) "charge" ->
  current_allowed (handover w) "fire" ->
  ShotSystem.canStartShot (shot w) = true ->
  t0 <= t1 < t0 + ShotSystem.MAX_CHARGE_DURATION ->
  let power := ShotSystem.chargeAt (t1 - t0) in
  let r := run (at_time t0 InputSystem.handleSpacebarPress >>
                at_time t1 ShotSystem.update >>
                at_time t2 InputSystem.handleSpacebarRelease) w in
  fst r = Normal tt /\
  events (snd r) =
    events w ++ [mkEvent "input-charge-start" NoData; mkEvent "input-fire" NoData;
                 mkEvent "shot-fired" (PowerData (Num power))] /\
  (ShotSystem.MIN_POWER <= power /\ power <= ShotSystem.MAX_POWER)%Q /\
  isCharging (shot (snd r)) = false /\ inCooldown (shot (snd r)) = true /\
  timers (snd r) = timers w ++ [(t2 + 200, CooldownOver)] /\
  released (aim (snd r)).
Proof.
  intros Hen Hold Hch Hfi Hidle Ht; cbv zeta.
  apply allowed_true in Hch; apply allowed_true in Hfi.
  unfold ShotSystem.canStartShot in Hidle.
  apply andb_true_iff in Hidle as [Hc Hcd].
  apply negb_true_iff in Hc; apply negb_true_iff in Hcd.
  unfold at_time, InputSystem.handleSpacebarPress, InputSystem.handleSpacebarRelease,
    ShotSystem.update, ShotSystem.startCharging, ShotSystem.releaseShot,
    ShotSystem.showVisualElements, ShotSystem.hideVisualElements,
    ShotSystem.canStartShot, ShotSystem.log_shot, AimSystem.resetAim,
    HandoverManager.performAction, HandoverManager.isActionAllowed,
    emit, run_listeners, delayedCall, InputSystem.active.
  js_unfold; simpl.
  rewrite (bool_decide_eq_false_2 _ Hen).
  rewrite (proj2 (Z.ltb_ge _ _)) by lia; simpl.
  rewrite Hch; simpl; rewrite Hc, Hcd; simpl.
  destruct (Z.geb_spec (t1 - t0) ShotSystem.MAX_CHARGE_DURATION) as [Hge|_];
    [lia|]; simpl.
  rewrite lookup_insert_eq; simpl.
  repeat (rewrite Hfi; simpl).
  split; [reflexivity|]; split; [now rewrite <- !app_assoc|].
  split; [apply chargeAt_bounds; lia|].
  repeat split.
Qed.

Lemma release_fires_power_of_last_tick_witness :
  let r := run (at_time 1000 InputSystem.handleSpacebarPress >>
                at_time 1500 ShotSystem.update >>
                at_time 1900 InputSystem.handleSpacebarRelease) gameplay_world in
  events (snd r) =
    events gameplay_world ++
    [mkEvent "input-charge-start" NoData; mkEvent "input-fire" NoData;
     mkEvent "shot-fired" (PowerData (Num (ShotSystem.chargeAt (1500 - 1000))))].
Proof.
  apply (release_fires_power_of_last_tick gameplay_world 1000 1500 1900).
  - apply (proj1 (bool_decide_eq_false _)); vm_compute; reflexivity.
  - vm_compute; discriminate.
  - apply isActionAllowed_spec; vm_compute; reflexivity.
  - apply isActionAllowed_spec; vm_compute; reflexivity.
  - reflexivity.
  - vm_compute; split; [discriminate | reflexivity].
Defined.

(** X19: in a stage that allows charging but not firing, a charge that was
    started cannot be released.  The key-up is refused by the gate before it
    reaches the charge machine: only the warning is logged, the machine
    stays charging, and the pipeline stops tracking the key, so later
    key-ups and the hold timeout do nothing; the only exit left is the tick
    at the 2000 ms ceiling, which raises. *)
Theorem refused_release_keeps_charging (w : World) :
  InputSystem.active (input w) "spacebar" = true ->
  ~ current_allowed (handover w) "fire" ->
  isCharging (shot w) = true ->
  let w1 := exec InputSystem.handleSpacebarRelease w in
  run InputSystem.handleSpacebarRelease w =
    (Normal tt,
     set_console (fun c => c ++ [Log LogWarn (HandoverManager.warning "fire")])
       (set_input (InputSystem.with_isInputActive "spacebar" false) w)) /\
  shot w1 = shot w /\ events w1 = events w /\
  (forall t, run (at_time t InputSystem.handleSpacebarRelease) w1 =
             (Normal tt, set_clock t w1)) /\
  (forall t, run (at_time t InputSystem.update) w1 = (Normal tt, set_clock t w1)) /\
  (forall t, t - chargeStartTime (shot w) < ShotSystem.MAX_CHARGE_DURATION ->
     fst (run (at_time t ShotSystem.update) w1) = Normal tt /\
     isCharging (shot (exec (at_time t ShotSystem.update) w1)) = true) /\
  (forall t, ShotSystem.MAX_CHARGE_DURATION <= t - chargeStartTime (shot w) ->
     fst (run (at_time t ShotSystem.update) w1) =
     Thrown (TypeError "this.fire is not a function")).
Proof.
  intros Ha Hno Hc; cbv zeta.
  apply allowed_false in Hno.
  assert (E : run InputSystem.handleSpacebarRelease w =
    (Normal tt,
     set_console (fun c => c ++ [Log LogWarn (HandoverManager.warning "fire")])
       (set_input (InputSystem.with_isInputActive "spacebar" false) w))).
  { rewrite handleSpacebarRelease_cases, Ha.
    unfold fire_request, HandoverManager.performAction,
      HandoverManager.isActionAllowed; js_unfold; simpl.
    now rewrite Hno. }
  split; [exact E|].
  unfold exec; unfold run in E; rewrite E; simpl.
  split; [reflexivity|]; split; [reflexivity|].
  split; [|split; [|split]].
  - intros t; rewrite run_at_time, handleSpacebarRelease_cases.
    unfold InputSystem.active; simpl; now rewrite lookup_insert_eq.
  - intros t; unfold at_time, InputSystem.update, InputSystem.active.
    js_unfold; simpl; now rewrite lookup_insert_eq.
  - intros t Ht; rewrite run_at_time.
    change ((at_time t ShotSystem.update) ?w0) with (run ShotSystem.update (set_clock t w0)).
    match goal with
    | |- context [run ShotSystem.update ?w0] =>
        rewrite (update_while_charging w0 Hc Ht)
    end; simpl; split; [reflexivity | exact Hc].
  - intros t Ht; rewrite run_at_time.
    match goal with
    | |- context [run ShotSystem.update ?w0] =>
        rewrite (update_at_ceiling w0 Hc Ht)
    end; reflexivity.
Qed.

Lemma refused_release_keeps_charging_witness :
  let w := exec (Handover.setStage (inl "GamePreparation") >>
                 at_time 1000 InputSystem.handleSpacebarPress) menu_world in
  let w1 := exec (at_time 1400 InputSystem.handleSpacebarRelease) w in
  isCharging (shot w) = true /\ shot w1 = shot w /\ events w1 = events w.
Proof.
  cbv zeta.
  match goal with
  | |- context [exec (at_time 1400 InputSystem.handleSpacebarRelease) ?w] =>
      destruct (refused_release_keeps_charging (set_clock 1400 w))
        as (_ & H1 & H2 & _)
  end.
  - vm_compute; reflexivity.
  - intros H; apply isActionAllowed_spec in H; vm_compute in H; discriminate.
  - vm_compute; reflexivity.
  - split; [vm_compute; reflexivity|]; split; [exact H1 | exact H2].
Defined.

(** X20: a shot that the gate lets out resets the aim machine, so the aim
    recentres afterwards: from the release on, ticks bring the current angle
    to 0 in finitely many steps, and it stays there. *)
Theorem fired_shot_recentres_aim (w : World) (p : Q) :
  isCharging (shot w) = true ->
  currentCharge (shot w) = Num p ->
  current_allowed (handover w) "fire" ->
  let r := run ShotSystem.releaseShot w in
  fst r = Normal tt /\
  events (snd r) = events w ++ [mkEvent "shot-fired" (PowerData (Num p))] /\
  released (aim (snd r)) /\
  exists N, forall n, (N <= n)%nat ->
    (currentAngle (aim (exec (ticks n) (snd r))) == 0)%Q.
Proof.
  intros Hc Hp Hfi; cbv zeta.
  apply allowed_true in Hfi.
  rewrite releaseShot_cases, Hc, Hp.
  unfold HandoverManager.performAction, HandoverManager.isActionAllowed, emit,
    run_listeners, AimSystem.resetAim, ShotSystem.log_shot.
  js_unfold; simpl; rewrite Hfi; simpl.
  split; [reflexivity|]; split; [reflexivity|].
  assert (Hr : released
    (AimSystem.with_inputDirection None (AimSystem.with_isAiming false (aim w))))
    by (split; reflexivity).
  split; [exact Hr|].
  destruct (released_reaches_zero _ Hr) as [N HN].
  exists N; intros n Hn.
  match goal with
  | |- context [ticks n ?w0] => pose proof (proj2 (ticks_aim n w0)) as Htk
  end.
  unfold exec in Htk; rewrite Htk.
  now apply HN.
Qed.

Lemma fired_shot_recentres_aim_witness :
  let w := set_clock 1500
    (exec (at_time 1100 (AimSystem.setAimDirection left)) charging_world) in
  inputDirection (aim w) = Some left /\
  released (aim (snd (run ShotSystem.releaseShot w))).
Proof.
  cbv zeta; split; [vm_compute; reflexivity|].
  match goal with
  | |- context [run ShotSystem.releaseShot ?w] =>
      destruct (fired_shot_recentres_aim w ShotSystem.MIN_POWER)
        as (_ & _ & H & _)
  end.
  - vm_compute; reflexivity.
  - vm_compute; reflexivity.
  - apply isActionAllowed_spec; vm_compute; reflexivity.
  - exact H.
Defined.

(** ** The aim machine: nudges *)

Lemma setAimDirection_cases (d : Direction) (w : World) :
  run (AimSystem.setAimDirection d) w =
  if bool_decide (inputDirection (aim w) = Some d) then
    run (HandoverManager.performAction "aim" (AimSystem.nudge d) >> ret tt)
        (set_aim (AimSystem.with_inputDirection (Some d)) w)
  else if clock w - lastDirectionChange (aim w)
          <? AimSystem.DIRECTION_CHANGE_THRESHOLD_MS then (Normal tt, w)
  else
    run (HandoverManager.performAction "aim" (AimSystem.nudge d) >> ret tt)
        (set_aim (AimSystem.with_inputDirection (Some d))
           (set_aim (AimSystem.with_lastDirectionChange (clock w)) w)).
Proof.
  unfold AimSystem.setAimDirection; js_unfold; simpl.
  destruct (bool_decide _); simpl; [reflexivity|].
  destruct (_ <? _); reflexivity.
Qed.

(** The aim state an accepted nudge leaves. *)
Lemma nudge_allowed (d : Direction) (w : World) :
  current_allowed (handover w) "aim" ->
  run (HandoverManager.performAction "aim" (AimSystem.nudge d) >> ret tt) w =
  (Normal tt,
   set_aim (fun a =>
     AimSystem.with_target
       match d with
       | left => Qmax (currentAngle a - AimSystem.ANGLE_STEP) AimSystem.MIN_ANGLE
       | right => Qmin (currentAngle a + AimSystem.ANGLE_STEP) AimSystem.MAX_ANGLE
       end (AimSystem.with_isAiming true a)) w).
Proof.
  intros Hal; apply allowed_true in Hal.
  unfold HandoverManager.performAction, HandoverManager.isActionAllowed,
    AimSystem.nudge; js_unfold; simpl; rewrite Hal.
  destruct d; reflexivity.
Qed.

(** X21: a nudge that changes the direction is accepted at most once per
    100 ms: inside the window it is dropped before the gate, leaving the
    world untouched, also for the very first direction after a reset.  From
    100 ms on it restarts the window.  A nudge in the direction already set
    is never throttled and does not restart the window. *)
Theorem direction_change_is_throttled (d : Direction) (w : World) :
  (inputDirection (aim w) <> Some d ->
   clock w - lastDirectionChange (aim w) < AimSystem.DIRECTION_CHANGE_THRESHOLD_MS ->
   run (AimSystem.setAimDirection d) w = (Normal tt, w)) /\
  (inputDirection (aim w) <> Some d ->
   AimSystem.DIRECTION_CHANGE_THRESHOLD_MS <= clock w - lastDirectionChange (aim w) ->
   let a := aim (exec (AimSystem.setAimDirection d) w) in
   inputDirection a = Some d /\ lastDirectionChange a = clock w /\
   (current_allowed (handover w) "aim" -> isAiming a = true)) /\
  (inputDirection (aim w) = Some d ->
   let a := aim (exec (AimSystem.setAimDirection d) w) in
   inputDirection a = Some d /\
   lastDirectionChange a = lastDirectionChange (aim w) /\
   (current_allowed (handover w) "aim" -> isAiming a = true)).
Proof.
  assert (Hk : forall (B : Type) (f : AimSt -> B),
            (forall t a, f (AimSystem.with_target t a) = f a) ->
            (forall b a, f (AimSystem.with_isAiming b a) = f a) ->
            keeps (fun w => f (aim w))
              (HandoverManager.performAction "aim" (AimSystem.nudge d) >> ret tt)).
  { intros B f H1 H2; unfold AimSystem.nudge; keeps_tac.
    - apply keeps_modify; intros w0; simpl; apply H2.
    - apply keeps_modify; intros w0; simpl; destruct d; apply H1. }
  split; [|split].
  - intros Hne Hlt; rewrite setAimDirection_cases.
    rewrite (bool_decide_eq_false_2 _ Hne).
    now rewrite (proj2 (Z.ltb_lt _ _) Hlt).
  - intros Hne Hge; cbv zeta; unfold exec.
    change (AimSystem.setAimDirection d w) with (run (AimSystem.setAimDirection d) w).
    rewrite setAimDirection_cases, (bool_decide_eq_false_2 _ Hne).
    rewrite (proj2 (Z.ltb_ge _ _) Hge); unfold run.
    split; [|split].
    + now rewrite (Hk _ inputDirection) by reflexivity.
    + now rewrite (Hk _ lastDirectionChange) by reflexivity.
    + intros Hal.
      match goal with
      | |- context [(_ >> ret tt) ?w0] =>
          pose proof (nudge_allowed d w0 Hal) as E
      end.
      unfold run in E; now rewrite E.
  - intros He; cbv zeta; unfold exec.
    change (AimSystem.setAimDirection d w) with (run (AimSystem.setAimDirection d) w).
    rewrite setAimDirection_cases, (bool_decide_eq_true_2 _ He); unfold run.
    split; [|split].
    + now rewrite (Hk _ inputDirection) by reflexivity.
    + now rewrite (Hk _ lastDirectionChange) by reflexivity.
    + intros Hal.
      match goal with
      | |- context [(_ >> ret tt) ?w0] =>
          pose proof (nudge_allowed d w0 Hal) as E
      end.
      unfold run in E; now rewrite E.
Qed.

(** X22: an accepted nudge sets the target relative to the current angle,
    not to the previous target: the current angle is untouched, the target
    lies at most [ANGLE_STEP] degrees from it on the side of the nudge, and
    a second nudge in the same direction before the next tick changes
    nothing, however late it comes.  Nudges without ticks do not add up. *)
Theorem nudge_is_relative_to_current_angle (d : Direction) (w : World) (t : Z) :
  current_allowed (handover w) "aim" ->
  inputDirection (aim w) = Some d \/
    AimSystem.DIRECTION_CHANGE_THRESHOLD_MS <= clock w - lastDirectionChange (aim w) ->
  in_range (currentAngle (aim w)) ->
  let w1 := exec (AimSystem.setAimDirection d) w in
  currentAngle (aim w1) = currentAngle (aim w) /\
  (Qabs (targetAngle (aim w1) - currentAngle (aim w1)) <= AimSystem.ANGLE_STEP)%Q /\
  match d with
  | left => (targetAngle (aim w1) <= currentAngle (aim w1))%Q
  | right => (currentAngle (aim w1) <= targetAngle (aim w1))%Q
  end /\
  aim (exec (at_time t (AimSystem.setAimDirection d)) w1) = aim w1.
Proof.
  intros Hal Hok [Hlo Hhi]; cbv zeta.
  unfold AimSystem.MIN_ANGLE, AimSystem.MAX_ANGLE in *.
  assert (Haim : exists l,
    aim (exec (AimSystem.setAimDirection d) w) =
    mkAim (currentAngle (aim w))
      match d with
      | left => Qmax (currentAngle (aim w) - AimSystem.ANGLE_STEP) AimSystem.MIN_ANGLE
      | right => Qmin (currentAngle (aim w) + AimSystem.ANGLE_STEP) AimSystem.MAX_ANGLE
      end true (Some d) l (showTrajectory (aim w)) /\
    handover (exec (AimSystem.setAimDirection d) w) = handover w).
  { unfold exec.
    change (AimSystem.setAimDirection d w) with (run (AimSystem.setAimDirection d) w).
    rewrite setAimDirection_cases.
    destruct (bool_decide_reflect (inputDirection (aim w) = Some d)) as [He|Hne].
    - rewrite nudge_allowed by exact Hal; simpl.
      exists (lastDirectionChange (aim w)); destruct d; split; reflexivity.
    - destruct Hok as [?|Hge]; [contradiction|].
      rewrite (proj2 (Z.ltb_ge _ _) Hge).
      rewrite nudge_allowed by exact Hal; simpl.
      exists (clock w); destruct d; split; reflexivity. }
  destruct Haim as (l & Ha & Hh).
  set (w1 := exec (AimSystem.setAimDirection d) w) in *.
  split; [now rewrite Ha|]; split; [|split].
  - rewrite Ha; cbn [currentAngle targetAngle]; destruct d.
    + destruct (Q.max_spec (currentAngle (aim w) - AimSystem.ANGLE_STEP)
                  AimSystem.MIN_ANGLE) as [[H1 H2]|[H1 H2]];
        rewrite H2;
        unfold AimSystem.ANGLE_STEP, AimSystem.MIN_ANGLE, AimSystem.MAX_ANGLE in *;
        apply Qabs_case; intros; lra.
    + destruct (Q.min_spec (currentAngle (aim w) + AimSystem.ANGLE_STEP)
                  AimSystem.MAX_ANGLE) as [[H1 H2]|[H1 H2]];
        rewrite H2;
        unfold AimSystem.ANGLE_STEP, AimSystem.MIN_ANGLE, AimSystem.MAX_ANGLE in *;
        apply Qabs_case; intros; lra.
  - rewrite Ha; cbn [currentAngle targetAngle].
    unfold AimSystem.ANGLE_STEP, AimSystem.MIN_ANGLE, AimSystem.MAX_ANGLE.
    destruct d.
    + apply Q.max_lub; lra.
    + apply Q.min_glb; lra.
  - rewrite exec_at_time; unfold exec at 1.
    change (AimSystem.setAimDirection d (set_clock t w1))
      with (run (AimSystem.setAimDirection d) (set_clock t w1)).
    rewrite setAimDirection_cases.
    change (aim (set_clock t w1)) with (aim w1).
    assert (Hd : inputDirection (aim w1) = Some d) by now rewrite Ha.
    rewrite (bool_decide_eq_true_2 _ Hd).
    rewrite nudge_allowed
      by (change (current_allowed (handover w1) "aim"); now rewrite Hh).
    change (aim (snd (Normal tt, ?x))) with (aim x).
    cbn [snd aim set_aim set_clock]; rewrite Ha.
    destruct d; reflexivity.
Qed.

Lemma nudge_is_relative_to_current_angle_witness :
  let w := set_clock 1000 gameplay_world in
  let w1 := exec (AimSystem.setAimDirection right) w in
  (Qabs (targetAngle (aim w1) - currentAngle (aim w1)) <= AimSystem.ANGLE_STEP)%Q /\
  aim (exec (at_time 5000 (AimSystem.setAimDirection right)) w1) = aim w1.
Proof.
  cbv zeta.
  destruct (nudge_is_relative_to_current_angle right (set_clock 1000 gameplay_world) 5000)
    as (_ & H1 & _ & H2).
  - apply isActionAllowed_spec; vm_compute; reflexivity.
  - right; vm_compute; discriminate.
  - split; vm_compute; discriminate.
  - split; [exact H1 | exact H2].
Defined.

(** ** The aim machine: frame ticks *)

(** A smoothing step strictly shortens the distance to the target. *)
Lemma smooth_closer (c t : Q) :
  ~ (c == t)%Q ->
  (Qabs (AimSystem.smooth c t - t) < Qabs (c - t))%Q.
Proof.
  intros Hne.
  assert (Hpos : (0 < Qabs (c - t))%Q).
  { apply Qabs_case; intros H; destruct (Q_dec c t) as [[H1|H1]|H1];
      try lra; contradiction. }
  unfold AimSystem.smooth, AimSystem.ANGLE_SMOOTHING, AimSystem.SNAP_EPSILON.
  destruct (Qltb_spec (Qabs (c + (t - c) * (1 # 10) - t)) (1 # 10)) as [H|H].
  - assert (E : (t - t == 0)%Q) by ring.
    rewrite E; exact Hpos.
  - revert Hpos; apply (Qabs_case (c - t)); intros H1 Hpos;
      apply Qabs_case; intros H2; lra.
Qed.

(** The world one [AimSystem.update] leaves, field by field. *)
Lemma update_fields (w : World) :
  let w' := exec AimSystem.update w in
  let a1 := if negb (isAiming (aim w)) && bool_decide (inputDirection (aim w) = None)
            then AimSystem.with_target 0%Q (aim w) else aim w in
  aim w' = tick_aim (aim w) /\
  targetAngle (aim w') = targetAngle a1 /\
  events w' =
    (if Qeq_bool (currentAngle (aim w)) (targetAngle a1) then events w
     else events w ++ [mkEvent "aim-angle-changed"
                         (AngleData (currentAngle (aim w')))]) /\
  clock w' = clock w /\ console w' = console w /\ timers w' = timers w /\
  handover w' = handover w /\ manager w' = manager w /\
  input w' = input w /\ shot w' = shot w.
Proof.
  cbv zeta; unfold exec, tick_aim, AimSystem.update, emit, run_listeners; js_unfold.
  cbn [fst snd aim set_aim].
  destruct (negb (isAiming (aim w)) && bool_decide (inputDirection (aim w) = None));
    cbn [fst snd aim set_aim currentAngle targetAngle AimSystem.with_target].
  - destruct (Qeq_bool (currentAngle (aim w)) 0);
      cbn [negb fst snd aim set_aim set_events events currentAngle targetAngle
           AimSystem.with_target AimSystem.with_current clock console timers
           handover manager input shot];
      repeat split; reflexivity.
  - destruct (Qeq_bool (currentAngle (aim w)) (targetAngle (aim w)));
      cbn [negb fst snd aim set_aim set_events events currentAngle targetAngle
           AimSystem.with_target AimSystem.with_current clock console timers
           handover manager input shot];
      repeat split; reflexivity.
Qed.

(** X23: a frame tick reports every move and nothing else.  With the
    current angle on the target the tick neither moves the angle nor emits;
    otherwise it emits exactly one ['aim-angle-changed'] carrying the angle
    it has just stored, and that angle differs from the old one and lies
    strictly closer to the target.  The tick touches nothing but the aim
    state and the event log. *)
Theorem update_reports_every_move (w : World) :
  let w' := exec AimSystem.update w in
  let T := targetAngle (aim w') in
  ((currentAngle (aim w) == T)%Q ->
   events w' = events w /\ currentAngle (aim w') = currentAngle (aim w)) /\
  (~ (currentAngle (aim w) == T)%Q ->
   events w' = events w ++ [mkEvent "aim-angle-changed"
                              (AngleData (currentAngle (aim w')))] /\
   (Qabs (currentAngle (aim w') - T) < Qabs (currentAngle (aim w) - T))%Q /\
   ~ (currentAngle (aim w') == currentAngle (aim w))%Q) /\
  console w' = console w /\ timers w' = timers w /\ handover w' = handover w /\
  input w' = input w /\ shot w' = shot w.
Proof.
  destruct (update_fields w) as (Ha & Ht & He & _ & Hc & Hti & Hh & _ & Hi & Hs).
  cbv zeta in *.
  set (w' := exec AimSystem.update w) in *.
  set (a1 := if negb (isAiming (aim w)) && bool_decide (inputDirection (aim w) = None)
             then AimSystem.with_target 0%Q (aim w) else aim w) in *.
  assert (Hc1 : currentAngle a1 = currentAngle (aim w)).
  { subst a1; destruct (_ && _); reflexivity. }
  assert (Hcur : currentAngle (aim w') =
                 if Qeq_bool (currentAngle (aim w)) (targetAngle a1)
                 then currentAngle (aim w)
                 else AimSystem.smooth (currentAngle (aim w)) (targetAngle a1)).
  { rewrite Ha; unfold tick_aim; fold a1; rewrite Hc1.
    destruct (Qeq_bool _ _); cbn [negb]; [exact Hc1 | reflexivity]. }
  rewrite Ht.
  split; [|split; [|repeat split; assumption]].
  - intros Heq; apply Qeq_bool_iff in Heq.
    rewrite He, Hcur, Heq; split; reflexivity.
  - intros Hne.
    assert (Hb : Qeq_bool (currentAngle (aim w)) (targetAngle a1) = false).
    { destruct (Qeq_bool _ _) eqn:E; [|reflexivity].
      apply Qeq_bool_iff in E; contradiction. }
    rewrite He, Hb; split; [reflexivity|].
    rewrite Hcur, Hb.
    pose proof (smooth_closer _ _ Hne) as Hlt.
    split; [exact Hlt|].
    intros Hsame; rewrite Hsame in Hlt; revert Hlt; apply Qlt_irrefl.
Qed.
(** The world a nudge refused by the gate leaves. *)
Lemma nudge_refused (d : Direction) (w : World) :
  ~ current_allowed (handover w) "aim" ->
  run (HandoverManager.performAction "aim" (AimSystem.nudge d) >> ret tt) w =
  (Normal tt,
   set_console (fun c => c ++ [Log LogWarn (HandoverManager.warning "aim")]) w).
Proof.
  intros Hno; apply allowed_false in Hno.
  unfold HandoverManager.performAction, HandoverManager.isActionAllowed;
    js_unfold; simpl; rewrite Hno; reflexivity.
Qed.

(** With a direction marked, a tick leaves target, marker and aiming flag
    alone, and an angle resting on its target stays there. *)
Lemma tick_marked (a : AimSt) (d : Direction) :
  inputDirection a = Some d ->
  inputDirection (tick_aim a) = Some d /\
  targetAngle (tick_aim a) = targetAngle a /\
  isAiming (tick_aim a) = isAiming a /\
  ((currentAngle a == targetAngle a)%Q -> currentAngle (tick_aim a) = currentAngle a).
Proof.
  intros Hd; unfold tick_aim; rewrite Hd.
  rewrite (bool_decide_eq_false_2 (Some d = None)) by discriminate.
  rewrite andb_false_r.
  destruct (Qeq_bool (currentAngle a) (targetAngle a)) eqn:E; cbn [negb].
  - auto.
  - repeat split; try assumption.
    intros Heq; apply Qeq_bool_iff in Heq; congruence.
Qed.

Lemma iter_marked (a : AimSt) (d : Direction) (n : nat) :
  inputDirection a = Some d ->
  inputDirection (Nat.iter n tick_aim a) = Some d /\
  targetAngle (Nat.iter n tick_aim a) = targetAngle a /\
  isAiming (Nat.iter n tick_aim a) = isAiming a /\
  ((currentAngle a == targetAngle a)%Q ->
   currentAngle (Nat.iter n tick_aim a) = currentAngle a).
Proof.
  intros Hd; induction n as [|n (IH1 & IH2 & IH3 & IH4)]; [auto|].
  change (Nat.iter (S n) tick_aim a) with (tick_aim (Nat.iter n tick_aim a)).
  destruct (tick_marked _ d IH1) as (H1 & H2 & H3 & H4).
  rewrite H2, H3; repeat split; try assumption.
  intros Heq; rewrite H4; [auto|].
  rewrite IH2, (IH4 Heq); exact Heq.
Qed.

(** X24: a nudge the gate refuses still marks its direction, and the mark
    switches recentering off.  The refused nudge adds the console warning
    and leaves angle, target and aiming flag as they were, but stores the
    direction; from then on no number of frame ticks resets the target to
    the centre, and an angle resting on its target stays tilted.  Only
    [resetAim] (a fired shot) clears the mark. *)
Theorem refused_nudge_stops_recentering (d : Direction) (w : World) (n : nat) :
  ~ current_allowed (handover w) "aim" ->
  inputDirection (aim w) = Some d \/
    AimSystem.DIRECTION_CHANGE_THRESHOLD_MS <= clock w - lastDirectionChange (aim w) ->
  let w1 := exec (AimSystem.setAimDirection d) w in
  let wn := exec (ticks n) w1 in
  console w1 = console w ++ [Log LogWarn (HandoverManager.warning "aim")] /\
  events w1 = events w /\
  currentAngle (aim w1) = currentAngle (aim w) /\
  targetAngle (aim w1) = targetAngle (aim w) /\
  isAiming (aim w1) = isAiming (aim w) /\
  inputDirection (aim w1) = Some d /\
  targetAngle (aim wn) = targetAngle (aim w) /\
  inputDirection (aim wn) = Some d /\
  ((currentAngle (aim w) == targetAngle (aim w))%Q ->
   currentAngle (aim wn) = currentAngle (aim w)).
Proof.
  intros Hno Hok; cbv zeta.
  assert (H1 : exists l,
    exec (AimSystem.setAimDirection d) w =
    set_console (fun c => c ++ [Log LogWarn (HandoverManager.warning "aim")])
      (set_aim (fun a => AimSystem.with_inputDirection (Some d)
                           (AimSystem.with_lastDirectionChange l a)) w) ).
  { unfold exec.
    change (AimSystem.setAimDirection d w) with (run (AimSystem.setAimDirection d) w).
    rewrite setAimDirection_cases.
    destruct (bool_decide_reflect (inputDirection (aim w) = Some d)) as [He|Hne].
    - rewrite nudge_refused by exact Hno.
      exists (lastDirectionChange (aim w)).
      destruct w as [c co ev ti h m i s [ca ta ia idir l st]]; reflexivity.
    - destruct Hok as [?|Hge]; [contradiction|].
      rewrite (proj2 (Z.ltb_ge _ _) Hge).
      rewrite nudge_refused by exact Hno.
      exists (clock w); reflexivity. }
  destruct H1 as (l & H1).
  set (w1 := exec (AimSystem.setAimDirection d) w) in *.
  assert (Hc : currentAngle (aim w1) = currentAngle (aim w)) by now rewrite H1.
  assert (Ht : targetAngle (aim w1) = targetAngle (aim w)) by now rewrite H1.
  assert (Hd : inputDirection (aim w1) = Some d) by now rewrite H1.
  pose proof (proj2 (ticks_aim n w1)) as Hn; rewrite Hn.
  destruct (iter_marked (aim w1) d n Hd) as (I1 & I2 & _ & I4).
  rewrite I1, I2, Ht, Hc in *.
  repeat split; try reflexivity; try (rewrite H1; reflexivity); exact I4.
Qed.

Lemma refused_nudge_stops_recentering_witness :
  let w := set_clock 1000
             (set_aim (fun a => AimSystem.with_target 40%Q (AimSystem.with_current 40%Q a))
                menu_world) in
  let wn := exec (ticks 30) (exec (AimSystem.setAimDirection left) w) in
  targetAngle (aim wn) = 40%Q /\ currentAngle (aim wn) = 40%Q.
Proof.
  cbv zeta.
  destruct (refused_nudge_stops_recentering left
              (set_clock 1000
                 (set_aim (fun a => AimSystem.with_target 40%Q
                                      (AimSystem.with_current 40%Q a))
                    menu_world)) 30)
    as (_ & _ & _ & _ & _ & _ & H1 & _ & H2).
  - intros H; apply isActionAllowed_spec in H; vm_compute in H; discriminate.
  - right; vm_compute; discriminate.
  - split; [exact H1 | apply H2; reflexivity].
Defined.

(** ** The scenes *)

Lemma session_id_nonempty (now : Z) : "session_" +:+ pretty now <> "".
Proof. discriminate. Qed.

Lemma getCurrentSession_started (init : bool) (rm : option Roadmap.t)
    (ss : gmap string Session.t) (id : string) (s : Session.t) :
  id <> "" ->
  Handover.getCurrentSession (mkHandover init rm (<[id := s]> ss) (Some id)) = Some s.
Proof.
  intros Hid; unfold Handover.getCurrentSession; cbn [currentSessionId sessions].
  rewrite (truthy_id_nonempty id Hid); apply lookup_insert_eq.
Qed.

(** The gate after the start every scene performs: constructor,
    [initialize], [startSession], [setStage name]; [k] is the rest of
    [create]. *)
Lemma scene_start_gate {A : Type} (name : string) (s' : Session.t) (k : M A)
    (w : World) :
  Handover.getCurrentSession (handover w) = None ->
  let id := "session_" +:+ pretty (clock w) in
  Session.setStageByName (Session.new id HandoverFactory.createGameRoadmap) name
    = (true, s') ->
  run (HandoverManager.constructor >> HandoverManager.initialize >>
       HandoverManager.startSession >> HandoverManager.setStage name >> k) w =
  run k
    (set_handover (fun h =>
       mkHandover true (Some HandoverFactory.createGameRoadmap)
                  (<[id := s']> (sessions h)) (Some id))
       (set_manager (fun _ => mkManager id (Some id)) w)).
Proof.
  intros Hnone id Hset.
  unfold HandoverManager.constructor, HandoverManager.initialize,
    HandoverManager.startSession, HandoverManager.setStage,
    Handover.initialize, Handover.startSession, Handover.setStage,
    Handover.setStageByName, Handover.onCurrentSession.
  js_unfold; simpl; rewrite Hnone; simpl.
  fold id.
  rewrite getCurrentSession_started by apply session_id_nonempty.
  rewrite Hset; cbn [fst snd].
  unfold set_handover, set_manager; cbn.
  rewrite insert_insert_eq; reflexivity.
Qed.

(** The shutdown listener leaves the gate without a current session. *)
Lemma onShutdown_closes (w : World) :
  Handover.getCurrentSession (handover (exec HandoverManager.onShutdown w)) = None.
Proof.
  unfold exec, HandoverManager.onShutdown, HandoverManager.endSession,
    Handover.endSession; js_unfold; cbn [fst snd].
  destruct (Handover.getCurrentSession (handover w)) as [s|] eqn:E; [|exact E].
  unfold Handover.getCurrentSession in E.
  destruct (Handover.truthy_id (currentSessionId (handover w))) as [i|] eqn:Ei;
    [|discriminate].
  apply truthy_id_Some in Ei; destruct Ei as [Ei Hi].
  rewrite Ei; cbn [Handover.truthy_id]; rewrite (bool_decide_eq_false_2 _ Hi).
  rewrite E; simpl.
  rewrite (bool_decide_eq_true_2 _ Ei); reflexivity.
Qed.

(** X25: the first click of the two scenes, after [create] has started a
    session on a gate that had none.  The main menu stands at [MainMenu],
    where ['startGame'] is allowed: its click hands over to
    [scene.start('Game')].  The game scene stands at [GamePreparation],
    where ['fire'] is not allowed: its click is refused, the stage is not
    moved to [LevelComplete] and [scene.start('GameOver')] is never
    reached, whatever the scene manager would do.  After the shutdown
    listener of either scene the gate again has no current session. *)
Theorem scene_clicks (scene_start : string -> M unit) (w : World) :
  Handover.getCurrentSession (handover w) = None ->
  let menu := exec MainMenu.create w in
  let game := exec Game.create w in
  (stage_name menu = Some "MainMenu" /\
   run (MainMenu.pointerdown scene_start) menu =
   run (scene_start "Game" >> ret tt) menu) /\
  (stage_name game = Some "GamePreparation" /\
   run (Game.pointerdown scene_start) game =
   (Normal tt,
    set_console (fun c => c ++ [Log LogWarn (HandoverManager.warning "fire")]) game)) /\
  Handover.getCurrentSession (handover (exec HandoverManager.onShutdown menu)) = None /\
  Handover.getCurrentSession (handover (exec HandoverManager.onShutdown game)) = None.
Proof.
  intros Hnone; cbv zeta.
  split; [|split; [|split; apply onShutdown_closes]].
  - unfold exec, MainMenu.create.
    pose proof (scene_start_gate "MainMenu"
                  (Session.with_index
                     (Session.new _ HandoverFactory.createGameRoadmap) 0)
                  (ret tt) w Hnone eq_refl) as E.
    unfold run in E; rewrite E; cbn [snd]; clear E.
    unfold stage_name, HandoverManager.getCurrentStage, Handover.getCurrentStage,
      MainMenu.pointerdown, HandoverManager.performAction,
      HandoverManager.isActionAllowed, Handover.isActionAllowed,
      Handover.getCurrentStage.
    js_unfold; cbn [handover set_handover set_manager fst snd].
    rewrite getCurrentSession_started by apply session_id_nonempty.
    generalize ("session_" +:+ pretty (clock w)); intros id.
    split; [reflexivity|]; simpl.
    match goal with |- context [scene_start "Game" ?w0] =>
      destruct (scene_start "Game" w0) as [[[]|e] w'] end; reflexivity.
  - unfold exec, Game.create.
    pose proof (scene_start_gate "GamePreparation"
                  (Session.with_index
                     (Session.new _ HandoverFactory.createGameRoadmap) 1)
                  (ret tt) w Hnone eq_refl) as E.
    unfold run in E; rewrite E; cbn [snd]; clear E.
    unfold stage_name, HandoverManager.getCurrentStage, Handover.getCurrentStage,
      Game.pointerdown, HandoverManager.performAction,
      HandoverManager.isActionAllowed, Handover.isActionAllowed,
      Handover.getCurrentStage.
    js_unfold; cbn [handover set_handover set_manager fst snd].
    rewrite getCurrentSession_started by apply session_id_nonempty.
    generalize ("session_" +:+ pretty (clock w)); intros id.
    split; reflexivity.
Qed.

Lemma scene_clicks_witness :
  stage_name (exec Game.create initial_world) = Some "GamePreparation" /\
  fst (run (Game.pointerdown (fun key => emit ("start-" +:+ key) NoData []))
           (exec Game.create initial_world)) = Normal tt.
Proof.
  destruct (scene_clicks (fun key => emit ("start-" +:+ key) NoData []) initial_world)
    as (_ & (H1 & H2) & _); [reflexivity|].
  split; [exact H1|].
  cbv zeta in H2; rewrite H2; reflexivity.
Defined.

(** ** The demonstration scene *)

Lemma example_stage_cases (stage : Z) :
  0 <= stage <= 5 ->
  stage = 0 \/ stage = 1 \/ stage = 2 \/ stage = 3 \/ stage = 4 \/ stage = 5.
Proof. lia. Qed.

(** On the game roadmap ['fire'] is allowed at index 2 only, and
    ['prepare'] and ['reset'] nowhere. *)
Lemma example_allowed (stage score : Z) (w : World) :
  example_state stage score w ->
  HandoverManager.isActionAllowed w "fire" = (stage =? 2) /\
  HandoverManager.isActionAllowed w "prepare" = false /\
  HandoverManager.isActionAllowed w "reset" = false.
Proof.
  intros (s & Hs & Hrm & Hi & Hr & _).
  unfold HandoverManager.isActionAllowed, Handover.isActionAllowed,
    Handover.getCurrentStage; rewrite Hs.
  destruct s as [id rm idx st]; cbn in Hrm, Hi; subst rm idx.
  destruct (example_stage_cases stage Hr) as [-> | [-> | [-> | [-> | [-> | ->]]]]];
    repeat split; reflexivity.
Qed.

(** The stage button. *)
Lemma example_nextStage (stage score : Z) (w : World) :
  example_state stage score w ->
  fst (run HandoverExample.nextStage w) = Normal tt /\
  example_state (if stage <? 5 then stage + 1 else stage) score
    (exec HandoverExample.nextStage w).
Proof.
  intros (s & Hs & Hrm & Hi & Hr & Hsc).
  pose proof (onCurrentSession_cases Session.advanceStage w) as E.
  rewrite Hs in E; destruct E as (i & Hti & _ & E).
  unfold exec, HandoverExample.nextStage, HandoverManager.advanceStage,
    Handover.advanceStage.
  unfold run in E; js_unfold; rewrite E; cbn [fst snd].
  split; [reflexivity|].
  exists (snd (Session.advanceStage s)); split.
  - cbn [handover set_handover]; now apply getCurrentSession_after_update.
  - unfold Session.advanceStage; rewrite Hrm, Hi.
    change (js_length (Roadmap.stages HandoverFactory.createGameRoadmap) - 1) with 5.
    destruct (stage <? 5) eqn:Hlt; cbn [snd Session.with_index Session.roadmap
      Session.currentStageIndex Session.state].
    + apply Z.ltb_lt in Hlt; repeat split; try assumption; lia.
    + repeat split; try assumption; lia.
Qed.

(** A request for an action. *)
Lemma example_performAction (action : string) (stage score : Z) (w : World) :
  example_state stage score w ->
  fst (run (HandoverExample.performAction action) w) = Normal tt /\
  example_state stage
    (score + if bool_decide (action = "fire") && (stage =? 2) then 100 else 0)
    (exec (HandoverExample.performAction action) w).
Proof.
  intros Hst; pose proof Hst as (s & Hs & Hrm & Hi & Hr & Hsc).
  destruct (example_allowed _ _ _ Hst) as (Hfire & _).
  assert (Hkeep : forall w', handover w' = handover w ->
            example_state stage (score + 0) w').
  { intros w' Hw; rewrite Z.add_0_r; exists s; rewrite Hw; auto. }
  unfold exec, HandoverExample.performAction, HandoverManager.performAction.
  js_unfold; cbn [fst snd].
  destruct (bool_decide_reflect (action = "fire")) as [-> | Hne]; cbn [andb].
  - rewrite Hfire; destruct (stage =? 2) eqn:H2; cbn [fst snd].
    + pose proof (onCurrentSession_cases
        (fun s0 => (true, Session.setState s0 "score"
           (HandoverExample.plus_100
              (HandoverExample.or_zero (Some (AnyNum score))))))
        (set_console (fun c => c ++ [Log LogInfo "Performed action: fire"]) w)) as E.
      cbn [handover set_console] in E; rewrite Hs in E.
      destruct E as (i & Hti & _ & E).
      unfold HandoverManager.setSessionState, HandoverManager.getSessionState,
        Session.getState.
      js_unfold; cbn [fst snd handover set_console]; rewrite Hs, Hsc.
      change ("Performed action: " +:+ "fire") with "Performed action: fire".
      unfold run in E; rewrite E; cbn [fst snd].
      split; [reflexivity|].
      eexists; split.
      * cbn [handover set_handover set_console].
        now apply getCurrentSession_after_update.
      * cbn [HandoverExample.plus_100 HandoverExample.or_zero Session.setState
             Session.roadmap Session.currentStageIndex Session.state].
        repeat split; try assumption; try lia.
        apply lookup_insert_eq.
    + split; [reflexivity|]; apply Hkeep; reflexivity.
  - destruct (HandoverManager.isActionAllowed w action); cbn [fst snd];
      (split; [reflexivity|]; apply Hkeep; reflexivity).
Qed.

(** The state [create] leaves. *)
Lemma example_create (w : World) :
  Handover.getCurrentSession (handover w) = None ->
  fst (run HandoverExample.create w) = Normal tt /\
  example_state 1 0 (exec HandoverExample.create w).
Proof.
  intros Hnone; unfold exec, HandoverExample.create.
  pose proof (scene_start_gate "GamePreparation"
                (Session.with_index
                   (Session.new _ HandoverFactory.createGameRoadmap) 1)
                (let* now := Date_now in
                 HandoverManager.setSessionState "startTime" (AnyNum now) >>
                 HandoverManager.setSessionState "score" (AnyNum 0))
                w Hnone eq_refl) as E.
  unfold run in *; rewrite E; clear E.
  unfold HandoverManager.setSessionState, Handover.onCurrentSession.
  js_unfold; unfold gets; cbn [fst snd handover set_handover set_manager].
  assert (Hid := session_id_nonempty (clock w)).
  revert Hid; generalize ("session_" +:+ pretty (clock w)); intros id Hid.
  rewrite getCurrentSession_started by exact Hid.
  cbn [currentSessionId]; rewrite (truthy_id_nonempty id Hid).
  cbn [fst snd handover set_handover set_manager sessions currentSessionId
       initialized defaultRoadmap].
  rewrite getCurrentSession_started by exact Hid.
  rewrite (truthy_id_nonempty id Hid).
  cbn [fst snd handover set_handover set_manager sessions currentSessionId
       initialized defaultRoadmap].
  split; [reflexivity|].
  eexists; split; [apply getCurrentSession_started; exact Hid|].
  repeat split; try reflexivity; try lia.
Qed.

Lemma example_inputs_state (l : list ExampleInput) (stage score : Z) (w : World) :
  example_state stage score w ->
  fst (run (example_inputs l) w) = Normal tt /\
  exists stage',
    example_state stage' (score + 100 * shots stage l) (exec (example_inputs l) w).
Proof.
  revert stage score w; induction l as [|i l IH]; intros stage score w Hst.
  - split; [reflexivity|]; exists stage.
    cbn [shots example_inputs]; rewrite Z.mul_0_r, Z.add_0_r; exact Hst.
  - cbn [example_inputs shots]; unfold run, exec, bind in *.
    destruct i as [action|]; cbn [example_input].
    + destruct (example_performAction action _ _ _ Hst) as [Hn Hst'].
      unfold run, exec in Hn, Hst'.
      destruct (HandoverExample.performAction action w) as [[[]|e] w1];
        cbn [fst snd] in *; [|discriminate].
      destruct (IH _ _ _ Hst') as (IHn & stage' & IHs).
      split; [exact IHn|]; exists stage'.
      replace (score + 100 * ((if bool_decide (action = "fire") && (stage =? 2)
                               then 1 else 0) + shots stage l))
        with (score + (if bool_decide (action = "fire") && (stage =? 2)
                       then 100 else 0) + 100 * shots stage l);
        [exact IHs|].
      destruct (bool_decide (action = "fire") && (stage =? 2)); lia.
    + destruct (example_nextStage _ _ _ Hst) as [Hn Hst'].
      unfold run, exec in Hn, Hst'.
      destruct (HandoverExample.nextStage w) as [[[]|e] w1];
        cbn [fst snd] in *; [|discriminate].
      destruct (IH _ _ _ Hst') as (IHn & stage' & IHs).
      split; [exact IHn|]; exists stage'; exact IHs.
Qed.

(** X26: the score of the demonstration scene.  From a gate without a
    current session, [create] and any sequence of action requests and
    stage-button presses never throw, and the stored score is 100 times the
    number of ['fire'] requests made while the scene stood at
    [ActiveGameplay]: the scene starts one stage before it, so a ['fire']
    before the first stage-button press scores nothing.  The buttons
    [PREPARE] and [RESET] ask for actions that no stage of the game roadmap
    allows: they are refused at every point. *)
Theorem example_score (l : list ExampleInput) (w : World) :
  Handover.getCurrentSession (handover w) = None ->
  let r := run (HandoverExample.create >> example_inputs l) w in
  fst r = Normal tt /\
  HandoverManager.getSessionState (snd r) "score" = Some (AnyNum (100 * shots 1 l)) /\
  HandoverManager.isActionAllowed (snd r) "prepare" = false /\
  HandoverManager.isActionAllowed (snd r) "reset" = false.
Proof.
  intros Hnone; cbv zeta.
  destruct (example_create w Hnone) as [Hn Hst].
  unfold run, exec, bind in *.
  destruct (HandoverExample.create w) as [[[]|e] w1]; cbn [fst snd] in *;
    [|discriminate].
  destruct (example_inputs_state l _ _ _ Hst) as (Hn' & stage' & Hst').
  unfold run, exec in Hn', Hst'.
  split; [exact Hn'|].
  destruct (example_allowed _ _ _ Hst') as (_ & Hp & Hr).
  split; [|split; assumption].
  destruct Hst' as (s & Hs & _ & _ & _ & Hsc).
  unfold HandoverManager.getSessionState, Session.getState; rewrite Hs.
  exact Hsc.
Qed.

Lemma example_score_witness :
  HandoverManager.getSessionState
    (exec (HandoverExample.create >>
           example_inputs [Act "fire"; NextStage; Act "fire"; Act "aim"; Act "fire";
                           NextStage; Act "fire"])
          initial_world) "score" = Some (AnyNum 200).
Proof.
  apply (example_score [Act "fire"; NextStage; Act "fire"; Act "aim"; Act "fire";
                        NextStage; Act "fire"] initial_world).
  reflexivity.
Defined.

(** ** The confirmation dialog *)

Lemma dialog_input_keeps_world (i : DialogInput) (d : DialogSt) (w : World) :
  exists d', run (dialog_input i d) w = (Normal d', w).
Proof.
  destruct i; cbn [dialog_input];
    unfold DialogManager.confirm_pointerdown, DialogManager.cancel_pointerdown,
      DialogManager.keydown_ENTER, DialogManager.keydown_ESC,
      DialogManager.closeDialog;
    cbn [currentCallback]; try (destruct (isDialogOpen d));
    eexists; reflexivity.
Qed.

(** X27: a confirmation never runs its callback.  Both ways of confirming
    (the confirm button, the ENTER key) close the dialog first, which
    clears the stored callback, and only then test it.  So for every
    sequence of requests, button clicks and key presses, from every dialog
    state and whatever the callbacks are, the world is left as it was: in
    particular ['pause-confirmed'], ['exit-confirmed'] and
    ['restart-confirmed'] are never emitted.  A request on a closed dialog
    does open it and store the callback, and confirming closes it again. *)
Theorem confirmation_never_runs_callback (l : list DialogInput) (d : DialogSt)
    (w : World) :
  (exists d', run (dialog_inputs l d) w = (Normal d', w)) /\
  (forall title message callback,
     isDialogOpen d = false ->
     let d1 := DialogManager.showConfirmationDialog title message callback d in
     DialogManager.isDialogVisible d1 = true /\
     currentCallback d1 = Some callback /\
     run (DialogManager.confirm_pointerdown d1) w = (Normal DialogManager.new, w) /\
     run (DialogManager.keydown_ENTER d1) w = (Normal DialogManager.new, w)).
Proof.
  split.
  - revert d; induction l as [|i l IH]; intros d; [eexists; reflexivity|].
    destruct (dialog_input_keeps_world i d w) as [d1 E1].
    destruct (IH d1) as [d' E'].
    exists d'; cbn [dialog_inputs]; unfold run, bind in *.
    now rewrite E1.
  - intros title message callback Hclosed; cbv zeta.
    unfold DialogManager.showConfirmationDialog; rewrite Hclosed.
    repeat split.
Qed.

(** ** Sessions side by side *)

Lemma onCurrentSession_parked {A : Type} (method : Session.t -> bool * Session.t)
    (k : bool -> M A) (j : string) (sj : Session.t) (w : World) :
  (forall b w', parked j sj w' -> parked j sj (exec (k b) w')) ->
  parked j sj w ->
  parked j sj (exec (let* b := Handover.onCurrentSession method in k b) w).
Proof.
  intros Hk (Hl & Hc & Hm).
  pose proof (onCurrentSession_cases method w) as E.
  unfold exec, bind in *; unfold run in E.
  destruct (Handover.getCurrentSession (handover w)) as [s|].
  - destruct E as (i & Hi & _ & E); rewrite E.
    apply truthy_id_Some in Hi as [Hi _].
    apply Hk; repeat split; cbn; try assumption.
    rewrite lookup_insert_ne; [exact Hl|].
    intros ->; contradiction.
  - rewrite E; apply Hk; repeat split; assumption.
Qed.

Lemma ret_parked {A : Type} (a : A) (j : string) (sj : Session.t) (w : World) :
  parked j sj w -> parked j sj (exec (ret a) w).
Proof. trivial. Qed.

Lemma startSession_parked (i : string) (r : option Roadmap.t)
    (j : string) (sj : Session.t) (w : World) :
  i <> j -> parked j sj w ->
  parked j sj (exec (Handover.startSession i r) w).
Proof.
  intros Hij (Hl & Hc & Hm).
  unfold Handover.startSession, Handover.roadmap_or_default; js_unfold; cbn.
  destruct (initialized (handover w)); cbn; [|repeat split; assumption].
  destruct r as [r|]; [|destruct (defaultRoadmap (handover w))]; cbn.
  all: unfold parked; cbn.
  - rewrite lookup_insert_ne by exact Hij; repeat split; congruence.
  - rewrite lookup_insert_ne by exact Hij; repeat split; congruence.
  - repeat split; assumption.
Qed.

Lemma gate_op_parked (o : GateOp) (j : string) (sj : Session.t) (w : World) :
  ~ names_session j o -> parked j sj w -> parked j sj (exec (gate_op o) w).
Proof.
  intros Hno Hp; pose proof Hp as (Hl & Hc & Hm).
  destruct o as [r| |i r| |i|i| |x|k v]; cbn [gate_op names_session] in *.
  - repeat split; assumption.
  - unfold HandoverManager.initialize; js_unfold; cbn.
    destruct (Handover.getCurrentSession (handover w)); repeat split; assumption.
  - pose proof (startSession_parked i r j sj w Hno Hp) as H.
    unfold exec, bind in *.
    destruct (Handover.startSession i r w) as [[?|?] w1]; exact H.
  - pose proof (startSession_parked (sessionId (manager w)) None j sj w Hm Hp) as H.
    unfold exec, HandoverManager.startSession, bind, gets, modify, ret in *;
      cbv beta iota.
    destruct (Handover.startSession (sessionId (manager w)) None w) as [[?|?] w1];
      exact H.
  - unfold Handover.endSession; js_unfold; cbn.
    set (idToEnd := match Handover.truthy_id i with
                    | Some s => Some s
                    | None => currentSessionId (handover w)
                    end).
    assert (Hne : idToEnd <> Some j).
    { subst idToEnd; destruct (Handover.truthy_id i) as [s|] eqn:Ei; [|exact Hc].
      apply truthy_id_Some in Ei as [-> _]; congruence. }
    destruct (Handover.truthy_id idToEnd) as [e|] eqn:Ee;
      [|repeat split; assumption].
    apply truthy_id_Some in Ee as [Ee _].
    destruct (bool_decide (is_Some (sessions (handover w) !! e))); cbn;
      [|repeat split; assumption].
    unfold parked; cbn; split; [|split; [|assumption]].
    + rewrite lookup_delete_ne; [exact Hl | congruence].
    + destruct (bool_decide (currentSessionId (handover w) = Some e));
        [discriminate | exact Hc].
  - unfold Handover.setCurrentSession; js_unfold; cbn.
    destruct (bool_decide (is_Some (sessions (handover w) !! i)));
      unfold parked; cbn; repeat split; try assumption; congruence.
  - unfold Handover.advanceStage.
    apply onCurrentSession_parked; [intros; assumption | exact Hp].
  - destruct x as [name|index]; cbn [Handover.setStage];
      unfold Handover.setStageByName;
      (apply onCurrentSession_parked; [intros; assumption | exact Hp]).
  - unfold HandoverManager.setSessionState.
    apply onCurrentSession_parked; [intros; assumption | exact Hp].
Qed.

(** X28: sessions do not interfere.  A registered session that is not the
    current one, and whose id is not the one the manager starts its own
    session under, is out of reach of every gate operation that does not
    name its id: whatever is initialized, started, ended, selected,
    advanced, moved or stored in between, it keeps its stage index and its
    state, and [setCurrentSession] finds it exactly as it was left. *)
Theorem parked_session_is_untouched (l : list GateOp) (j : string)
    (sj : Session.t) (w : World) :
  parked j sj w ->
  Forall (fun o => ~ names_session j o) l ->
  let w' := exec (gate_ops l) w in
  Handover.getSession (handover w') j = Some sj /\
  currentSessionId (handover w') <> Some j /\
  (j <> "" ->
   Handover.getCurrentSession
     (handover (exec (Handover.setCurrentSession j) w')) = Some sj).
Proof.
  intros Hp Hl; cbv zeta.
  assert (Hp' : parked j sj (exec (gate_ops l) w)).
  { revert w Hp; induction Hl as [|o l Ho _ IH]; intros w Hp; [exact Hp|].
    pose proof (gate_op_parked o j sj w Ho Hp) as H1.
    cbn [gate_ops]; unfold exec, bind in *.
    destruct (gate_op o w) as [[[]|e] w1]; cbn [snd] in *; [|exact H1].
    now apply IH. }
  destruct Hp' as (H1 & H2 & _).
  split; [exact H1|]; split; [exact H2|].
  intros Hj; unfold Handover.setCurrentSession; js_unfold; cbn.
  rewrite bool_decide_eq_true_2 by (rewrite H1; eauto); cbn.
  unfold Handover.getCurrentSession; cbn.
  rewrite (bool_decide_eq_false_2 _ Hj); exact H1.
Qed.

Lemma parked_session_is_untouched_witness :
  Handover.getSession
    (handover
       (exec (gate_ops [GAdvance; GSetState "score" (AnyNum 3);
                        GSetStage (inl "Paused"); GEnd None; GManagerStart;
                        GAdvance])
             (exec (Handover.startSession "a" None >>
                    Handover.startSession "b" None) menu_world)))
    "a" = Some (Session.new "a" HandoverFactory.createGameRoadmap).
Proof.
  apply (parked_session_is_untouched
           [GAdvance; GSetState "score" (AnyNum 3); GSetStage (inl "Paused");
            GEnd None; GManagerStart; GAdvance] "a").
  - repeat split; vm_compute; discriminate || reflexivity.
  - repeat constructor; cbn; try tauto.
Defined.

(** ** Recentering after a key press *)











